(** * UNO No Mercy: rules engine and automated player

    A shallow embedding of [src/lib/game-logic.ts] and of the automated
    player ([ai-player.ts]) together with the properties of the rules
    engine that the specification states.

    Conventions of the embedding.
    - JavaScript numbers that index the roster are [Z]; the one place
      where the source can produce [NaN] (a remainder by zero) is kept
      as a separate value of [jsnum].
    - [Math.random], [uuidv4] and [new Date()] read an ambient
      environment [Env] that is threaded through the stateful functions.
    - A function that may [throw] returns a [Result]. *)

From Stdlib Require Import String.
From Stdlib Require Import List ZArith Bool Lia Permutation Arith DecimalString.
Import ListNotations.

Local Open Scope string_scope.
Local Open Scope Z_scope.
Local Open Scope list_scope.

(** ** Data model ([src/types/game.ts]) *)

Inductive CardColor := red | blue | green | yellow | wild_color.

Inductive CardType :=
  | number | skip | reverse | draw2 | draw4 | draw6 | draw10
  | wild | wild_draw2 | wild_draw4 | wild_draw_color
  | skip_everyone | reverse_everyone | discard_all | color_roulette.

Record Card := mkCard {
  card_id : string;
  card_type : CardType;
  card_color : CardColor;
  card_value : option Z
}.

Record Player := mkPlayer {
  player_id : string;
  player_name : string;
  cards : list Card;
  isAI : bool;
  isHost : bool;
  isConnected : bool;
  hasCalledUno : bool
}.

Inductive GameStatus := waiting | playing | finished.

(** The value of [currentPlayerIndex]: an integer, or [NaN] after a
    remainder by zero. *)
Inductive jsnum := Num (z : Z) | NaN.

Record GameState := mkState {
  game_id : string;
  status : GameStatus;
  players : list Player;
  currentPlayerIndex : jsnum;
  direction : Z;
  drawPile : list Card;
  discardPile : list Card;
  currentColor : CardColor;
  pendingDrawCount : Z;
  pendingDrawType : option CardType;
  winnerId : option string;
  createdAt : string;
  updatedAt : string;
  hostId : string;
  roomCode : string;
  maxPlayers : Z;
  isPrivate : bool
}.

(** ** Decidable equalities *)

Definition color_eqb (a b : CardColor) : bool :=
  match a, b with
  | red, red | blue, blue | green, green | yellow, yellow
  | wild_color, wild_color => true
  | _, _ => false
  end.

Definition type_eqb (a b : CardType) : bool :=
  match a, b with
  | number, number | skip, skip | reverse, reverse | draw2, draw2
  | draw4, draw4 | draw6, draw6 | draw10, draw10 | wild, wild
  | wild_draw2, wild_draw2 | wild_draw4, wild_draw4
  | wild_draw_color, wild_draw_color | skip_everyone, skip_everyone
  | reverse_everyone, reverse_everyone | discard_all, discard_all
  | color_roulette, color_roulette => true
  | _, _ => false
  end.

(** [a === b] on the optional [value] field: [undefined === undefined]
    is true. *)
Definition value_eqb (a b : option Z) : bool :=
  match a, b with
  | Some x, Some y => x =? y
  | None, None => true
  | _, _ => false
  end.

Lemma color_eqb_spec a b : reflect (a = b) (color_eqb a b).
Proof. destruct a, b; simpl; constructor; congruence. Qed.

Lemma type_eqb_spec a b : reflect (a = b) (type_eqb a b).
Proof. destruct a, b; simpl; constructor; congruence. Qed.



(** ** Results and the ambient environment *)

Inductive Result (A : Type) :=
  | Ok (a : A)
  | Throw (msg : string).
Arguments Ok {A} a.
Arguments Throw {A} msg.

Record Env := mkEnv {
  rand_src : nat -> nat;   (* the successive draws of Math.random *)
  rand_pos : nat;
  uuid_src : nat -> string; (* the successive results of uuidv4 *)
  uuid_pos : nat;
  now : string              (* new Date().toISOString() *)
}.

Definition M (A : Type) : Type := Env -> A * Env.

Definition ret {A} (a : A) : M A := fun w => (a, w).

Definition bind {A B} (m : M A) (k : A -> M B) : M B :=
  fun w => let (a, w') := m w in k a w'.

Notation "x <- m ;; k" := (bind m (fun x => k))
  (at level 61, m at next level, right associativity).

Notation "' pat <- m ;; k" := (bind m (fun x => let 'pat := x in k))
  (at level 61, pat pattern, m at next level, right associativity).

Definition uuidv4 : M string := fun w =>
  (uuid_src w (uuid_pos w),
   mkEnv (rand_src w) (rand_pos w) (uuid_src w) (S (uuid_pos w)) (now w)).

(** [Math.floor(Math.random() * n)]: an integer below [n] (0 when
    [n] is 0). *)
Definition randomBelow (n : nat) : M nat := fun w =>
  (match n with
   | O => O
   | S _ => Nat.modulo (rand_src w (rand_pos w)) n
   end,
   mkEnv (rand_src w) (S (rand_pos w)) (uuid_src w) (uuid_pos w) (now w)).

Fixpoint foldM {A S} (f : A -> S -> M S) (l : list A) (s : S) : M S :=
  match l with
  | [] => ret s
  | a :: l' => s' <- f a s ;; foldM f l' s'
  end.

(** ** Deck builder *)

Definition COLORS : list CardColor := [red; blue; green; yellow].

(** [deck.push({ id: uuidv4(), type, color, value })] *)
Definition push (t : CardType) (c : CardColor) (v : option Z)
    (deck : list Card) : M (list Card) :=
  i <- uuidv4 ;; ret (deck ++ [mkCard i t c v]).

Definition createDeck : M (list Card) :=
  deck <- foldM (fun color deck =>
      deck <- push number color (Some 0) deck ;;
      deck <- foldM (fun i deck =>
          deck <- push number color (Some (Z.of_nat i)) deck ;;
          push number color (Some (Z.of_nat i)) deck)
        (seq 1 9) deck ;;
      deck <- foldM (fun (_ : nat) deck =>
          deck <- push skip color None deck ;;
          deck <- push reverse color None deck ;;
          push draw2 color None deck)
        (seq 0 2) deck ;;
      deck <- push draw6 color None deck ;;
      deck <- push skip_everyone color None deck ;;
      push discard_all color None deck)
    COLORS [] ;;
  deck <- foldM (fun (_ : nat) deck =>
      deck <- push wild wild_color None deck ;;
      push wild_draw4 wild_color None deck)
    (seq 0 4) deck ;;
  foldM (fun (_ : nat) deck =>
      deck <- push wild_draw2 wild_color None deck ;;
      deck <- push wild_draw_color wild_color None deck ;;
      deck <- push draw10 wild_color None deck ;;
      deck <- push color_roulette wild_color None deck ;;
      push reverse_everyone wild_color None deck)
    (seq 0 2) deck.

(** The face of a card: everything but its identifier. *)
Definition face (c : Card) : CardType * CardColor * option Z :=
  (card_type c, card_color c, card_value c).

Definition face_eqb (f g : CardType * CardColor * option Z) : bool :=
  let '(t1, c1, v1) := f in
  let '(t2, c2, v2) := g in
  type_eqb t1 t2 && color_eqb c1 c2 && value_eqb v1 v2.

Definition count_face (f : CardType * CardColor * option Z)
    (deck : list Card) : nat :=
  length (filter (fun c => face_eqb (face c) f) deck).

(** The multiplicities the specification enumerates (section 4.1). *)
Definition enumerated (t : CardType) (c : CardColor) (v : option Z) : nat :=
  match c with
  | wild_color =>
      match t, v with
      | wild, None => 4
      | wild_draw4, None => 4
      | wild_draw2, None => 2
      | wild_draw_color, None => 2
      | draw10, None => 2
      | color_roulette, None => 2
      | reverse_everyone, None => 2
      | _, _ => 0
      end
  | _ =>
      match t, v with
      | number, Some z =>
          if (z =? 0)%Z then 1
          else if ((1 <=? z) && (z <=? 9))%Z then 2 else 0
      | skip, None | reverse, None | draw2, None => 2
      | draw6, None | skip_everyone, None | discard_all, None => 1
      | _, _ => 0
      end
  end%nat.

(** ** Array helpers (JavaScript [Array.prototype]) *)

Section Arrays.
Context {A : Type}.

(** [l.findIndex(p)]; [None] stands for the result -1. *)
Fixpoint findIndex (p : A -> bool) (l : list A) : option nat :=
  match l with
  | [] => None
  | x :: l' =>
      if p x then Some O
      else match findIndex p l' with
           | Some i => Some (S i)
           | None => None
           end
  end.

(** [l.find(p)] *)
Fixpoint find_first (p : A -> bool) (l : list A) : option A :=
  match l with
  | [] => None
  | x :: l' => if p x then Some x else find_first p l'
  end.

(** [l.map((x, idx) => f idx x)] *)
Fixpoint mapi_from (k : nat) (f : nat -> A -> A) (l : list A) : list A :=
  match l with
  | [] => []
  | x :: l' => f k x :: mapi_from (S k) f l'
  end.

Definition mapi (f : nat -> A -> A) (l : list A) : list A :=
  mapi_from 0 f l.

(** [l[i] = x] for an index inside the array. *)
Fixpoint set_nth (i : nat) (x : A) (l : list A) : list A :=
  match l, i with
  | [], _ => []
  | _ :: l', O => x :: l'
  | y :: l', S i' => y :: set_nth i' x l'
  end.

(** [[l[i], l[j]] = [l[j], l[i]]] *)
Definition swap (i j : nat) (l : list A) : list A :=
  match nth_error l i, nth_error l j with
  | Some a, Some b => set_nth i b (set_nth j a l)
  | _, _ => l
  end.

(** [l[l.length - 1]] *)
Definition last_elem (l : list A) : option A :=
  nth_error l (length l - 1).

(** A stable sort, as [Array.prototype.sort] is: [x] is inserted in
    front of the first element it does not have to follow. *)
Fixpoint insert_sorted (cmp : A -> A -> Z) (x : A) (l : list A) : list A :=
  match l with
  | [] => [x]
  | y :: l' =>
      if cmp x y <=? 0 then x :: y :: l'
      else y :: insert_sorted cmp x l'
  end.

Fixpoint sort (cmp : A -> A -> Z) (l : list A) : list A :=
  match l with
  | [] => []
  | x :: l' => insert_sorted cmp x (sort cmp l')
  end.
End Arrays.

(** [players[i]] for a JavaScript number [i]. *)
Definition at_index {A} (l : list A) (i : jsnum) : option A :=
  match i with
  | Num z => if z <? 0 then None else nth_error l (Z.to_nat z)
  | NaN => None
  end.

(** [a % n] on roster indices. *)
Definition js_rem (a : jsnum) (n : Z) : jsnum :=
  match a with
  | Num z => if n =? 0 then NaN else Num (Z.rem z n)
  | NaN => NaN
  end.

Definition js_add (a : jsnum) (b : Z) : jsnum :=
  match a with
  | Num z => Num (z + b)
  | NaN => NaN
  end.

(** [Number.MAX_SAFE_INTEGER]: JavaScript numbers are doubles, and up to
    here the sum of two non-negative integers is the same in doubles and
    in the integers.  Counts are modelled as integers; what is stated
    about a sum of counts is stated within this bound. *)
Definition MAX_SAFE_INTEGER : Z := 2 ^ 53 - 1.

(** ** Shuffling and dealing *)

Fixpoint shuffleLoop (i : nat) (shuffled : list Card) : M (list Card) :=
  match i with
  | O => ret shuffled
  | S i' =>
      j <- randomBelow (S i) ;;
      shuffleLoop i' (swap i j shuffled)
  end.

Definition shuffleDeck (deck : list Card) : M (list Card) :=
  shuffleLoop (length deck - 1) deck.

Definition dealCards (deck : list Card) (numCards : nat)
    : list Card * list Card :=
  (firstn numCards deck, skipn numCards deck).

(** ** Room codes *)

Definition roomChars : string := "ABCDEFGHJKLMNPQRSTUVWXYZ23456789".

(** [s.charAt(i)]: the empty string outside the string. *)
Definition charAt (s : string) (i : nat) : string :=
  match String.get i s with
  | Some c => String c EmptyString
  | None => EmptyString
  end.

Definition generateRoomCode : M string :=
  foldM (fun (_ : nat) code =>
           idx <- randomBelow (String.length roomChars) ;;
           ret (String.append code (charAt roomChars idx)))
    (seq 0 6) EmptyString.

(** ** Functional updates of a state ([{ ...state, field: v }]) *)

Definition with_status (v : GameStatus) (s : GameState) : GameState :=
  mkState (game_id s) v (players s) (currentPlayerIndex s) (direction s)
    (drawPile s) (discardPile s) (currentColor s) (pendingDrawCount s)
    (pendingDrawType s) (winnerId s) (createdAt s) (updatedAt s) (hostId s)
    (roomCode s) (maxPlayers s) (isPrivate s).

Definition with_players (v : list Player) (s : GameState) : GameState :=
  mkState (game_id s) (status s) v (currentPlayerIndex s) (direction s)
    (drawPile s) (discardPile s) (currentColor s) (pendingDrawCount s)
    (pendingDrawType s) (winnerId s) (createdAt s) (updatedAt s) (hostId s)
    (roomCode s) (maxPlayers s) (isPrivate s).

Definition with_currentPlayerIndex (v : jsnum) (s : GameState) : GameState :=
  mkState (game_id s) (status s) (players s) v (direction s)
    (drawPile s) (discardPile s) (currentColor s) (pendingDrawCount s)
    (pendingDrawType s) (winnerId s) (createdAt s) (updatedAt s) (hostId s)
    (roomCode s) (maxPlayers s) (isPrivate s).

Definition with_direction (v : Z) (s : GameState) : GameState :=
  mkState (game_id s) (status s) (players s) (currentPlayerIndex s) v
    (drawPile s) (discardPile s) (currentColor s) (pendingDrawCount s)
    (pendingDrawType s) (winnerId s) (createdAt s) (updatedAt s) (hostId s)
    (roomCode s) (maxPlayers s) (isPrivate s).

Definition with_drawPile (v : list Card) (s : GameState) : GameState :=
  mkState (game_id s) (status s) (players s) (currentPlayerIndex s)
    (direction s) v (discardPile s) (currentColor s) (pendingDrawCount s)
    (pendingDrawType s) (winnerId s) (createdAt s) (updatedAt s) (hostId s)
    (roomCode s) (maxPlayers s) (isPrivate s).

Definition with_discardPile (v : list Card) (s : GameState) : GameState :=
  mkState (game_id s) (status s) (players s) (currentPlayerIndex s)
    (direction s) (drawPile s) v (currentColor s) (pendingDrawCount s)
    (pendingDrawType s) (winnerId s) (createdAt s) (updatedAt s) (hostId s)
    (roomCode s) (maxPlayers s) (isPrivate s).

Definition with_currentColor (v : CardColor) (s : GameState) : GameState :=
  mkState (game_id s) (status s) (players s) (currentPlayerIndex s)
    (direction s) (drawPile s) (discardPile s) v (pendingDrawCount s)
    (pendingDrawType s) (winnerId s) (createdAt s) (updatedAt s) (hostId s)
    (roomCode s) (maxPlayers s) (isPrivate s).

Definition with_pendingDrawCount (v : Z) (s : GameState) : GameState :=
  mkState (game_id s) (status s) (players s) (currentPlayerIndex s)
    (direction s) (drawPile s) (discardPile s) (currentColor s) v
    (pendingDrawType s) (winnerId s) (createdAt s) (updatedAt s) (hostId s)
    (roomCode s) (maxPlayers s) (isPrivate s).

Definition with_pendingDrawType (v : option CardType) (s : GameState)
    : GameState :=
  mkState (game_id s) (status s) (players s) (currentPlayerIndex s)
    (direction s) (drawPile s) (discardPile s) (currentColor s)
    (pendingDrawCount s) v (winnerId s) (createdAt s) (updatedAt s)
    (hostId s) (roomCode s) (maxPlayers s) (isPrivate s).

Definition with_winnerId (v : option string) (s : GameState) : GameState :=
  mkState (game_id s) (status s) (players s) (currentPlayerIndex s)
    (direction s) (drawPile s) (discardPile s) (currentColor s)
    (pendingDrawCount s) (pendingDrawType s) v (createdAt s) (updatedAt s)
    (hostId s) (roomCode s) (maxPlayers s) (isPrivate s).

Definition with_updatedAt (v : string) (s : GameState) : GameState :=
  mkState (game_id s) (status s) (players s) (currentPlayerIndex s)
    (direction s) (drawPile s) (discardPile s) (currentColor s)
    (pendingDrawCount s) (pendingDrawType s) (winnerId s) (createdAt s) v
    (hostId s) (roomCode s) (maxPlayers s) (isPrivate s).

Definition with_cards (v : list Card) (p : Player) : Player :=
  mkPlayer (player_id p) (player_name p) v (isAI p) (isHost p)
    (isConnected p) (hasCalledUno p).

Definition with_hasCalledUno (v : bool) (p : Player) : Player :=
  mkPlayer (player_id p) (player_name p) (cards p) (isAI p) (isHost p)
    (isConnected p) v.

(** ** Stateful computations that may throw *)

Definition MR (A : Type) : Type := Env -> Result (A * Env).

Definition retR {A} (a : A) : MR A := fun w => Ok (a, w).

Definition throw {A} (msg : string) : MR A := fun _ => Throw msg.

Definition bindR {A B} (m : MR A) (k : A -> MR B) : MR B :=
  fun w => match m w with
           | Ok (a, w') => k a w'
           | Throw e => Throw e
           end.

Definition liftM {A} (m : M A) : MR A := fun w => Ok (m w).

Definition bindRes {A B} (m : Result A) (k : A -> Result B) : Result B :=
  match m with
  | Ok a => k a
  | Throw e => Throw e
  end.

Definition liftR {A} (r : Result A) : MR A :=
  fun w => bindRes r (fun a => Ok (a, w)).

Notation "x <-- m ;; k" := (bindR m (fun x => k))
  (at level 61, m at next level, right associativity).

Notation "' pat <-- m ;; k" := (bindR m (fun x => let 'pat := x in k))
  (at level 61, pat pattern, m at next level, right associativity).

Notation "x <~ m ;; k" := (bindRes m (fun x => k))
  (at level 61, m at next level, right associativity).

(** The message of the [TypeError] raised by a property access on
    [undefined]. *)
Definition TypeError : string := "TypeError".

(** ** Rules engine: set-up *)

Definition is_number (card : Card) : bool := type_eqb (card_type card) number.

(** [[...deck.slice(0, i), ...deck.slice(i + 1)]] *)
Definition remove_at (i : nat) (deck : list Card) : list Card :=
  firstn i deck ++ skipn (S i) deck.

Definition startingColor (startingCard : Card) : CardColor :=
  if color_eqb (card_color startingCard) wild_color then red
  else card_color startingCard.

Definition initializeGame (hostId_ hostName roomCode_ : string)
    (maxPlayers_ : Z) : MR GameState :=
  deck <-- liftM (d <- createDeck ;; shuffleDeck d) ;;
  let '(hostCards, afterHostDeal) := dealCards deck 7 in
  let startingCardIndex :=
    match findIndex is_number afterHostDeal with
    | Some i => i
    | None => O
    end in
  let drawPile_ := remove_at startingCardIndex afterHostDeal in
  let host := mkPlayer hostId_ hostName hostCards false true true false in
  gid <-- liftM uuidv4 ;;
  match nth_error afterHostDeal startingCardIndex with
  | None => throw TypeError
  | Some startingCard =>
      fun w =>
        Ok (mkState gid waiting [host] (Num 0) 1 drawPile_ [startingCard]
              (startingColor startingCard) 0 None None (now w) (now w)
              hostId_ roomCode_ maxPlayers_ false, w)
  end.

Definition addPlayer (state : GameState) (playerId playerName : string)
    (isAI_ : bool) (w : Env) : Result GameState :=
  if Z.of_nat (length (players state)) >=? maxPlayers state then
    Throw "Game is full"
  else match status state with
  | waiting =>
      let newPlayer := mkPlayer playerId playerName [] isAI_ false true false in
      Ok (with_updatedAt (now w)
            (with_players (players state ++ [newPlayer]) state))
  | _ => Throw "Game has already started"
  end.

(** The [map] of [startGame], which deals from the shrinking [deck]. *)
Fixpoint dealAll (ps : list Player) (deck : list Card)
    : list Player * list Card :=
  match ps with
  | [] => ([], deck)
  | player :: ps' =>
      let '(dealt, remaining) := dealCards deck 7 in
      let '(rest, deck') := dealAll ps' remaining in
      (with_hasCalledUno false (with_cards dealt player) :: rest, deck')
  end.

Definition startGame (state : GameState) : MR GameState :=
  match status state with
  | waiting =>
      if (length (players state) <? 2)%nat then
        throw "Need at least 2 players to start"
      else
        deck <-- liftM (d <- createDeck ;; shuffleDeck d) ;;
        let '(updatedPlayers, deck) := dealAll (players state) deck in
        let startingCardIndex :=
          match findIndex is_number deck with
          | Some i => i
          | None => O
          end in
        let drawPile_ := remove_at startingCardIndex deck in
        match nth_error deck startingCardIndex with
        | None => throw TypeError
        | Some startingCard =>
            fun w =>
              Ok (with_updatedAt (now w)
                   (with_pendingDrawType None
                   (with_pendingDrawCount 0
                   (with_currentColor (startingColor startingCard)
                   (with_discardPile [startingCard]
                   (with_drawPile drawPile_
                   (with_direction 1
                   (with_currentPlayerIndex (Num 0)
                   (with_players updatedPlayers
                   (with_status playing state))))))))), w)
        end
  | _ => throw "Game has already started"
  end.

(** ** Rules engine: legality *)

Definition getTopCard (state : GameState) : option Card :=
  last_elem (discardPile state).

Definition drawTypes : list CardType :=
  [draw2; draw4; draw6; draw10; wild_draw2; wild_draw4; wild_draw_color].

Definition includes (l : list CardType) (t : CardType) : bool :=
  existsb (type_eqb t) l.

Definition drawValues (t : CardType) : Z :=
  match t with
  | draw2 => 2
  | wild_draw2 => 2
  | draw4 => 4
  | wild_draw4 => 4
  | draw6 => 6
  | wild_draw_color => 4
  | draw10 => 10
  | number | skip | reverse | wild | skip_everyone | reverse_everyone
  | discard_all | color_roulette => 0
  end.

Definition canStackDrawCard (card : Card) (pendingType : CardType) : bool :=
  if negb (includes drawTypes (card_type card)) then false
  else drawValues (card_type card) >=? drawValues pendingType.

Definition canPlayCard (state : GameState) (card : Card) (playerId : string)
    : Result bool :=
  match getTopCard state with
  | None => Ok true
  | Some topCard =>
      match at_index (players state) (currentPlayerIndex state) with
      | None => Throw TypeError
      | Some currentPlayer =>
          if negb (String.eqb (player_id currentPlayer) playerId) then Ok false
          else
            match pendingDrawCount state >? 0, pendingDrawType state with
            | true, Some pendingType => Ok (canStackDrawCard card pendingType)
            | _, _ =>
                if color_eqb (card_color card) wild_color then Ok true
                else if color_eqb (card_color card) (currentColor state)
                then Ok true
                else if type_eqb (card_type card) number
                        && type_eqb (card_type topCard) number
                        && value_eqb (card_value card) (card_value topCard)
                then Ok true
                else if type_eqb (card_type card) (card_type topCard)
                        && negb (type_eqb (card_type card) number)
                then Ok true
                else Ok false
            end
      end
  end.

(** ** Rules engine: turn order *)

Fixpoint advance (skip_ : nat) (dir numPlayers : Z) (next : jsnum) : jsnum :=
  match skip_ with
  | O => next
  | S k => advance k dir numPlayers
             (js_rem (js_add (js_add next dir) numPlayers) numPlayers)
  end.

Definition getNextPlayerIndex (state : GameState) (skip_ : nat) : jsnum :=
  advance skip_ (direction state) (Z.of_nat (length (players state)))
    (currentPlayerIndex state).

(** ** Rules engine: drawing and elimination *)

Definition has_id (playerId : string) (p : Player) : bool :=
  String.eqb (player_id p) playerId.

(** [card => ({ ...card, id: uuidv4() })] *)
Definition renewId (card : Card) : M Card :=
  i <- uuidv4 ;; ret (mkCard i (card_type card) (card_color card) (card_value card)).

Fixpoint mapM {A B} (f : A -> M B) (l : list A) : M (list B) :=
  match l with
  | [] => ret []
  | a :: l' => b <- f a ;; bs <- mapM f l' ;; ret (b :: bs)
  end.

(** One iteration of the drawing loop on
    [(newDrawPile, newDiscardPile, drawnCards)]. *)
Definition drawOne (st : list Card * list Card * list Card)
    : M (list Card * list Card * list Card) :=
  let '(newDrawPile, newDiscardPile, drawnCards) := st in
  '(newDrawPile, newDiscardPile) <-
    (if (length newDrawPile =? 0)%nat then
       let topCard := last_elem newDiscardPile in
       let newDiscardPile := removelast newDiscardPile in
       renewed <- mapM renewId newDiscardPile ;;
       newDrawPile <- shuffleDeck renewed ;;
       ret (newDrawPile,
            match topCard with
            | Some t => [t]
            | None => []
            end)
     else ret (newDrawPile, newDiscardPile)) ;;
  if (0 <? length newDrawPile)%nat then
    match last_elem newDrawPile with
    | Some c => ret (removelast newDrawPile, newDiscardPile, drawnCards ++ [c])
    | None => ret (newDrawPile, newDiscardPile, drawnCards)
    end
  else ret (newDrawPile, newDiscardPile, drawnCards).

Fixpoint drawLoop (count : nat) (st : list Card * list Card * list Card)
    : M (list Card * list Card * list Card) :=
  match count with
  | O => ret st
  | S k => st' <- drawOne st ;; drawLoop k st'
  end.

(** [playerIndex < state.currentPlayerIndex] and
    [playerIndex === state.currentPlayerIndex] *)
Definition lt_index (playerIndex : nat) (i : jsnum) : bool :=
  match i with
  | Num z => Z.of_nat playerIndex <? z
  | NaN => false
  end.

Definition eq_index (playerIndex : nat) (i : jsnum) : bool :=
  match i with
  | Num z => Z.of_nat playerIndex =? z
  | NaN => false
  end.

Definition eliminatePlayer (state : GameState) (playerId : string)
    : M GameState :=
  match findIndex (has_id playerId) (players state) with
  | None => ret state
  | Some playerIndex =>
      match nth_error (players state) playerIndex with
      | None => ret state
      | Some eliminatedPlayer =>
          let remainingPlayers :=
            filter (fun p => negb (has_id playerId p)) (players state) in
          newDrawPile <-
            shuffleDeck (drawPile state ++ cards eliminatedPlayer) ;;
          let newCurrentIndex :=
            if lt_index playerIndex (currentPlayerIndex state) then
              js_add (currentPlayerIndex state) (-1)
            else if eq_index playerIndex (currentPlayerIndex state) then
              js_rem (currentPlayerIndex state)
                (Z.of_nat (length remainingPlayers))
            else currentPlayerIndex state in
          fun w =>
            match remainingPlayers with
            | [winner] =>
                (with_updatedAt (now w)
                  (with_currentPlayerIndex (Num 0)
                  (with_drawPile newDrawPile
                  (with_winnerId (Some (player_id winner))
                  (with_players remainingPlayers
                  (with_status finished state))))), w)
            | _ =>
                (with_updatedAt (now w)
                  (with_currentPlayerIndex newCurrentIndex
                  (with_drawPile newDrawPile
                  (with_players remainingPlayers state))), w)
            end
      end
  end.

Definition drawCards (state : GameState) (playerId : string) (count : Z)
    : MR GameState :=
  match findIndex (has_id playerId) (players state) with
  | None => throw "Player not found"
  | Some playerIndex =>
      '(newDrawPile, newDiscardPile, drawnCards) <--
        liftM (drawLoop (Z.to_nat count)
                 (drawPile state, discardPile state, [])) ;;
      let newPlayers :=
        mapi (fun idx p =>
                if (idx =? playerIndex)%nat then
                  with_hasCalledUno false
                    (with_cards (cards p ++ drawnCards) p)
                else p)
             (players state) in
      match nth_error newPlayers playerIndex with
      | None => throw TypeError
      | Some updatedPlayer =>
          if (25 <=? length (cards updatedPlayer))%nat then
            liftM (eliminatePlayer
                     (with_discardPile newDiscardPile
                     (with_drawPile newDrawPile
                     (with_players newPlayers state)))
                     playerId)
          else
            fun w =>
              Ok (with_updatedAt (now w)
                   (with_discardPile newDiscardPile
                   (with_drawPile newDrawPile
                   (with_players newPlayers state))), w)
      end
  end.

(** ** Rules engine: playing cards *)

Definition nextColor (idx : nat) : CardColor := nth idx COLORS red.

Definition handleCardEffect (state : GameState) (card : Card)
    (playerId : string) (selectedColor : option CardColor) : M GameState :=
  let newState :=
    match color_eqb (card_color card) wild_color, selectedColor with
    | true, Some c => with_currentColor c state
    | true, None => state
    | false, _ => with_currentColor (card_color card) state
    end in
  let step1 (st : GameState) :=
    with_currentPlayerIndex (getNextPlayerIndex st 1) st in
  let penalty (k : Z) :=
    step1 (with_pendingDrawType (Some (card_type card))
            (with_pendingDrawCount (pendingDrawCount state + k) newState)) in
  match card_type card with
  | skip =>
      ret (with_currentPlayerIndex (getNextPlayerIndex newState 2) newState)
  | reverse =>
      if (length (players state) =? 2)%nat then
        ret (with_currentPlayerIndex (getNextPlayerIndex newState 2) newState)
      else
        ret (step1 (with_direction (direction state * -1) newState))
  | skip_everyone => ret newState
  | reverse_everyone =>
      ret (with_direction (direction state * -1) newState)
  | draw2 | wild_draw2 => ret (penalty 2)
  | draw4 | wild_draw4 => ret (penalty 4)
  | draw6 => ret (penalty 6)
  | draw10 => ret (penalty 10)
  | wild_draw_color => ret (penalty 4)
  | color_roulette =>
      idx <- randomBelow (length COLORS) ;;
      ret (step1 (with_currentColor (nextColor idx) newState))
  | wild | number | discard_all => ret (step1 newState)
  end.

(** [{ ...newState, status: 'finished', winnerId: playerId }] when the
    hand that is left is empty. *)
Definition checkWinner (newCards : list Card) (playerId : string)
    (newState : GameState) : GameState :=
  if (length newCards =? 0)%nat then
    with_winnerId (Some playerId) (with_status finished newState)
  else newState.

Definition replaceCards (playerIndex : nat) (newCards : list Card)
    (ps : list Player) : list Player :=
  mapi (fun idx p =>
          if (idx =? playerIndex)%nat then with_cards newCards p else p) ps.

Definition playCard (state : GameState) (playerId : string) (card : Card)
    (selectedColor : option CardColor) : MR GameState :=
  ok <-- liftR (canPlayCard state card playerId) ;;
  if negb ok then throw "Cannot play this card"
  else
    match findIndex (has_id playerId) (players state) with
    | None => throw TypeError
    | Some playerIndex =>
        match nth_error (players state) playerIndex with
        | None => throw TypeError
        | Some player =>
            let newCards :=
              filter (fun c => negb (String.eqb (card_id c) (card_id card)))
                (cards player) in
            fun w =>
              let newState :=
                with_updatedAt (now w)
                  (with_players
                     (replaceCards playerIndex newCards (players state))
                  (with_discardPile (discardPile state ++ [card]) state)) in
              let '(newState, w') :=
                handleCardEffect newState card playerId selectedColor w in
              Ok (checkWinner newCards playerId newState, w')
        end
    end.

(** [new Set(cards.map(c => c.id)).has(id)] *)
Definition has_card_id (cs : list Card) (i : string) : bool :=
  existsb (fun c => String.eqb (card_id c) i) cs.

Definition playDiscardAll (state : GameState) (playerId : string)
    (cs : list Card) (w : Env) : Result GameState :=
  match cs with
  | [] => Throw "No cards to discard"
  | first :: _ =>
      let color := card_color first in
      if negb (forallb (fun c => color_eqb (card_color c) color) cs) then
        Throw "All cards must be same color for Discard All"
      else if negb (color_eqb color (currentColor state)) then
        Throw "Cards must match current color"
      else
        match findIndex (has_id playerId) (players state) with
        | None => Throw TypeError
        | Some playerIndex =>
            match nth_error (players state) playerIndex with
            | None => Throw TypeError
            | Some player =>
                let newCards :=
                  filter (fun c => negb (has_card_id cs (card_id c)))
                    (cards player) in
                let newState :=
                  with_updatedAt (now w)
                    (with_currentPlayerIndex (getNextPlayerIndex state 1)
                    (with_players
                       (replaceCards playerIndex newCards (players state))
                    (with_discardPile (discardPile state ++ cs) state))) in
                Ok (checkWinner newCards playerId newState)
            end
        end
  end.

Definition processDrawPenalty (state : GameState) : MR GameState :=
  if pendingDrawCount state =? 0 then retR state
  else
    match at_index (players state) (currentPlayerIndex state) with
    | None => throw TypeError
    | Some currentPlayer =>
        newState <-- drawCards state (player_id currentPlayer)
                       (pendingDrawCount state) ;;
        retR (with_currentPlayerIndex (getNextPlayerIndex newState 1)
               (with_pendingDrawType None
               (with_pendingDrawCount 0 newState)))
    end.

Definition callUno (state : GameState) (playerId : string) (w : Env)
    : Result GameState :=
  match findIndex (has_id playerId) (players state) with
  | None => Throw "Player not found"
  | Some playerIndex =>
      match nth_error (players state) playerIndex with
      | None => Throw TypeError
      | Some player =>
          if negb (length (cards player) =? 1)%nat then
            Throw "Can only call UNO with one card"
          else
            Ok (with_updatedAt (now w)
                 (with_players
                    (mapi (fun idx p =>
                             if (idx =? playerIndex)%nat
                             then with_hasCalledUno true p else p)
                       (players state))
                    state))
      end
  end.

Definition challengeUno (state : GameState) (challengerId targetId : string)
    : MR GameState :=
  match findIndex (has_id targetId) (players state) with
  | None => throw "Target player not found"
  | Some targetIndex =>
      match nth_error (players state) targetIndex with
      | None => throw TypeError
      | Some target =>
          if negb (length (cards target) =? 1)%nat || hasCalledUno target then
            throw "Cannot challenge this player"
          else drawCards state targetId 4
      end
  end.

(** ** Rules engine: queries and multiple plays *)

Definition getCurrentPlayer (state : GameState) : option Player :=
  at_index (players state) (currentPlayerIndex state).

Fixpoint filterR {A} (p : A -> Result bool) (l : list A) : Result (list A) :=
  match l with
  | [] => Ok []
  | x :: l' =>
      b <~ p x ;;
      r <~ filterR p l' ;;
      Ok (if b then x :: r else r)
  end.

(** [l.some(p)], which stops at the first element that satisfies [p]. *)
Fixpoint someR {A} (p : A -> Result bool) (l : list A) : Result bool :=
  match l with
  | [] => Ok false
  | x :: l' => b <~ p x ;; if b then Ok true else someR p l'
  end.

Fixpoint insert_sortedR {A} (cmp : A -> A -> Result Z) (x : A) (l : list A)
    : Result (list A) :=
  match l with
  | [] => Ok [x]
  | y :: l' =>
      c <~ cmp x y ;;
      if c <=? 0 then Ok (x :: y :: l')
      else r <~ insert_sortedR cmp x l' ;; Ok (y :: r)
  end.

Fixpoint sortR {A} (cmp : A -> A -> Result Z) (l : list A)
    : Result (list A) :=
  match l with
  | [] => Ok []
  | x :: l' => r <~ sortR cmp l' ;; insert_sortedR cmp x r
  end.

Definition getPlayableCards (state : GameState) (playerId : string)
    : Result (list Card) :=
  match find_first (has_id playerId) (players state) with
  | None => Ok []
  | Some player =>
      filterR (fun card => canPlayCard state card playerId) (cards player)
  end.

Definition getCardsMatchingColor (cs : list Card) (color : CardColor)
    : list Card :=
  filter (fun c => color_eqb (card_color c) color) cs.

Definition getStackableCards (cs : list Card) (card : Card) : list Card :=
  if negb (type_eqb (card_type card) number) then [card]
  else filter (fun c => type_eqb (card_type c) number
                        && value_eqb (card_value c) (card_value card)) cs.

Definition canPlayMultipleCards (state : GameState) (cs : list Card)
    (playerId : string) : Result bool :=
  match cs with
  | [] => Ok false
  | [only] => canPlayCard state only playerId
  | firstCard :: _ =>
      if negb (type_eqb (card_type firstCard) number) then Ok false
      else if negb (forallb (fun c => type_eqb (card_type c) number
                               && value_eqb (card_value c)
                                    (card_value firstCard)) cs)
      then Ok false
      else someR (fun c => canPlayCard state c playerId) cs
  end.

(** The comparator that moves the playable cards to the end. *)
Definition playableLast (state : GameState) (playerId : string)
    (a b : Card) : Result Z :=
  aPlayable <~ canPlayCard state a playerId ;;
  bPlayable <~ canPlayCard state b playerId ;;
  if aPlayable && negb bPlayable then Ok 1
  else if negb aPlayable && bPlayable then Ok (-1)
  else Ok 0.

Definition playMultipleCards (state : GameState) (playerId : string)
    (cs : list Card) (w : Env) : Result GameState :=
  ok <~ canPlayMultipleCards state cs playerId ;;
  if negb ok then Throw "Cannot play these cards"
  else
    sortedCards <~ sortR (playableLast state playerId) cs ;;
    match findIndex (has_id playerId) (players state) with
    | None => Throw TypeError
    | Some playerIndex =>
        match nth_error (players state) playerIndex with
        | None => Throw TypeError
        | Some player =>
            let newCards :=
              filter (fun c => negb (has_card_id cs (card_id c)))
                (cards player) in
            match last_elem sortedCards with
            | None => Throw TypeError
            | Some lastCard =>
                let newState :=
                  with_updatedAt (now w)
                    (with_currentPlayerIndex (getNextPlayerIndex state 1)
                    (with_currentColor
                       (if color_eqb (card_color lastCard) wild_color
                        then currentColor state else card_color lastCard)
                    (with_players
                       (replaceCards playerIndex newCards (players state))
                    (with_discardPile (discardPile state ++ sortedCards)
                       state)))) in
                Ok (checkWinner newCards playerId newState)
            end
        end
    end.

(** ** Automated player ([ai-player.ts]) *)

Inductive AIDifficulty := easy | medium | hard.

Inductive AIAction := play | draw | call_uno.

Record AIDecision := mkDecision {
  action : AIAction;
  decision_card : option Card;
  decision_cards : option (list Card);
  selectedColor : option CardColor
}.

Definition getNextPlayer (state : GameState) : option Player :=
  let numPlayers := Z.of_nat (length (players state)) in
  let nextIndex :=
    js_rem (js_add (js_add (currentPlayerIndex state) (direction state))
              numPlayers) numPlayers in
  at_index (players state) nextIndex.

Definition isDrawCard (t : CardType) : bool := includes drawTypes t.

Definition getDrawCount (t : CardType) : Z :=
  match t with
  | draw2 => 2
  | wild_draw2 => 2
  | draw4 => 4
  | wild_draw4 => 4
  | draw6 => 6
  | wild_draw_color => 4
  | draw10 => 10
  | _ => 0
  end.

Definition typePriority (t : CardType) : Z :=
  match t with
  | draw10 => 100
  | draw6 => 90
  | wild_draw4 => 85
  | draw4 => 80
  | wild_draw_color => 75
  | wild_draw2 => 70
  | draw2 => 65
  | skip_everyone => 60
  | skip => 55
  | reverse_everyone => 50
  | reverse => 45
  | discard_all => 40
  | color_roulette => 35
  | number => 30
  | wild => 20
  end.

Definition getCardPriority (card : Card) : Z :=
  let priority := typePriority (card_type card) in
  match type_eqb (card_type card) number, card_value card with
  | true, Some v => priority + v
  | _, _ => priority
  end.

Definition countColors (cs : list Card) (color : CardColor) : nat :=
  length (filter (fun c => color_eqb (card_color c) color) cs).

Definition selectBestColor (cs : list Card) : M CardColor :=
  let counts := countColors cs in
  let colors := [red; blue; green; yellow] in
  let '(bestColor, maxCount) :=
    fold_left (fun (acc : CardColor * nat) color =>
                 let '(bestColor, maxCount) := acc in
                 if (maxCount <? counts color)%nat then (color, counts color)
                 else acc)
      colors (red, O) in
  if (maxCount =? 0)%nat then
    idx <- randomBelow (length colors) ;; ret (nth idx colors red)
  else ret bestColor.

Definition byDrawCount (a b : Card) : Z :=
  getDrawCount (card_type b) - getDrawCount (card_type a).

Definition byPriority (a b : Card) : Z :=
  getCardPriority b - getCardPriority a.

Definition few_cards (nextPlayer : option Player) (limit : nat) : bool :=
  match nextPlayer with
  | Some p => (length (cards p) <=? limit)%nat
  | None => false
  end.

Definition non_wild (c : Card) : bool :=
  negb (color_eqb (card_color c) wild_color).

Definition selectMediumDifficulty (playableCards : list Card)
    (state : GameState) : option Card :=
  let nextPlayer := getNextPlayer state in
  let shouldBeAggressive := few_cards nextPlayer 3 in
  let drawCards_ := filter (fun c => isDrawCard (card_type c)) playableCards in
  let skipReverse :=
    filter (fun c => includes [skip; reverse; skip_everyone; reverse_everyone]
                       (card_type c)) playableCards in
  let nonWildCards := filter non_wild playableCards in
  if shouldBeAggressive && (0 <? length drawCards_)%nat then
    nth_error (sort byDrawCount drawCards_) 0
  else if shouldBeAggressive && (0 <? length skipReverse)%nat then
    nth_error skipReverse 0
  else if (0 <? length nonWildCards)%nat then
    nth_error (sort byPriority nonWildCards) 0
  else nth_error playableCards 0.

(** [Object.entries(colorCounts).filter(...).sort(...)[0]?.[0]] *)
Definition dominantColor (cs : list Card) : option CardColor :=
  let entries :=
    map (fun color => (color, countColors cs color))
      [red; blue; green; yellow; wild_color] in
  let colored :=
    filter (fun e : CardColor * nat => negb (color_eqb (fst e) wild_color))
      entries in
  let sorted :=
    sort (fun a b : CardColor * nat => Z.of_nat (snd b) - Z.of_nat (snd a))
      colored in
  option_map fst (nth_error sorted 0).

Definition selectHardDifficulty (playableCards : list Card)
    (state : GameState) (player : Player) : option Card :=
  let nextPlayer := getNextPlayer state in
  let threatened := few_cards nextPlayer 2 in
  let drawCards_ := filter (fun c => isDrawCard (card_type c)) playableCards in
  let skips :=
    filter (fun c => includes [skip; skip_everyone] (card_type c))
      playableCards in
  if threatened && (0 <? length drawCards_)%nat then
    nth_error (sort byDrawCount drawCards_) 0
  else if threatened && (0 <? length skips)%nat then
    nth_error skips 0
  else
    let dominantColorCards :=
      match dominantColor (cards player) with
      | Some d => filter (fun c => color_eqb (card_color c) d) playableCards
      | None => []
      end in
    if (0 <? length dominantColorCards)%nat then
      nth_error (sort byPriority dominantColorCards) 0
    else
      let nonWildCards := filter non_wild playableCards in
      if (0 <? length nonWildCards)%nat then
        nth_error (sort byPriority nonWildCards) 0
      else
        let wilds :=
          filter (fun c => color_eqb (card_color c) wild_color)
            playableCards in
        let regularWilds :=
          filter (fun c => type_eqb (card_type c) wild) wilds in
        if (0 <? length regularWilds)%nat then nth_error regularWilds 0
        else nth_error playableCards 0.

Definition is_easy (d : AIDifficulty) : bool :=
  match d with
  | easy => true
  | _ => false
  end.

Definition selectCardToPlay (state : GameState) (player : Player)
    (playableCards : list Card) (difficulty : AIDifficulty)
    : MR AIDecision :=
  let discardAllCards :=
    filter (fun c => type_eqb (card_type c) discard_all) playableCards in
  let color := currentColor state in
  let matchingCards :=
    filter (fun c => color_eqb (card_color c) color) (cards player) in
  if (0 <? length discardAllCards)%nat && negb (is_easy difficulty)
     && (3 <=? length matchingCards)%nat
  then
    retR (mkDecision play (nth_error discardAllCards 0) (Some matchingCards)
            (Some color))
  else
    selectedCard <--
      match difficulty with
      | easy =>
          idx <-- liftM (randomBelow (length playableCards)) ;;
          retR (nth_error playableCards idx)
      | medium => retR (selectMediumDifficulty playableCards state)
      | hard => retR (selectHardDifficulty playableCards state player)
      end ;;
    match selectedCard with
    | None => throw TypeError
    | Some c =>
        if color_eqb (card_color c) wild_color then
          col <-- liftM (selectBestColor (cards player)) ;;
          retR (mkDecision play (Some c) None (Some col))
        else retR (mkDecision play (Some c) None None)
    end.

Definition makeAIDecision (state : GameState) (playerId : string)
    (difficulty : AIDifficulty) : MR AIDecision :=
  match find_first (has_id playerId) (players state) with
  | None => retR (mkDecision draw None None None)
  | Some player =>
      playableCards <-- liftR (getPlayableCards state playerId) ;;
      if (length playableCards =? 0)%nat then
        retR (mkDecision draw None None None)
      else if (length (cards player) =? 2)%nat
              && (0 <? length playableCards)%nat
      then
        decision <-- selectCardToPlay state player playableCards difficulty ;;
        retR (mkDecision call_uno (decision_card decision)
                (decision_cards decision) (selectedColor decision))
      else selectCardToPlay state player playableCards difficulty
  end.

(** ** Transitions of the rules engine *)

(** The moves of a game in progress. *)
Inductive Action :=
  | DoPlayCard (playerId : string) (card : Card) (color : option CardColor)
  | DoPlayMultipleCards (playerId : string) (cs : list Card)
  | DoPlayDiscardAll (playerId : string) (cs : list Card)
  | DoDrawCards (playerId : string) (count : Z)
  | DoProcessDrawPenalty
  | DoChallengeUno (challengerId targetId : string).

Definition transition (a : Action) (state : GameState) : MR GameState :=
  match a with
  | DoPlayCard playerId card color => playCard state playerId card color
  | DoPlayMultipleCards playerId cs =>
      fun w => bindRes (playMultipleCards state playerId cs w)
                 (fun s => Ok (s, w))
  | DoPlayDiscardAll playerId cs =>
      fun w => bindRes (playDiscardAll state playerId cs w)
                 (fun s => Ok (s, w))
  | DoDrawCards playerId count => drawCards state playerId count
  | DoProcessDrawPenalty => processDrawPenalty state
  | DoChallengeUno challengerId targetId =>
      challengeUno state challengerId targetId
  end.

(** Every operation of the engine, set-up included. *)
Inductive Operation :=
  | InPlay (a : Action)
  | DoAddPlayer (playerId playerName : string) (isAI_ : bool)
  | DoStartGame
  | DoCallUno (playerId : string).

Definition operate (o : Operation) (state : GameState) : MR GameState :=
  match o with
  | InPlay a => transition a state
  | DoAddPlayer playerId playerName isAI_ =>
      fun w => bindRes (addPlayer state playerId playerName isAI_ w)
                 (fun s => Ok (s, w))
  | DoStartGame => startGame state
  | DoCallUno playerId =>
      fun w => bindRes (callUno state playerId w) (fun s => Ok (s, w))
  end.

(** A run of operations from a state; it stops at the first throw. *)
Fixpoint run (ops : list Operation) (state : GameState) : MR GameState :=
  match ops with
  | [] => retR state
  | o :: ops' => s <-- operate o state ;; run ops' s
  end.

(** ** Measures and well-formedness *)

Definition handSizes (ps : list Player) : nat :=
  fold_right (fun p n => (length (cards p) + n)%nat) O ps.

(** Hand sizes plus draw pile plus discard pile. *)
Definition cardTotal (s : GameState) : nat :=
  (handSizes (players s) + length (drawPile s) + length (discardPile s))%nat.

(** The cards held by the three arrays of the drawing loop. *)
Definition pilesSize (st : list Card * list Card * list Card) : nat :=
  let '(d, c, n) := st in (length d + length c + length n)%nat.

Fixpoint distinct (l : list string) : bool :=
  match l with
  | [] => true
  | x :: l' => negb (existsb (String.eqb x) l') && distinct l'
  end.

(** Identifiers identify: no two players share an id, and no two cards
    of one hand do. *)
Definition uniqueIds (s : GameState) : bool :=
  distinct (map player_id (players s))
  && forallb (fun p => distinct (map card_id (cards p))) (players s).

(** The cards [cs] are different cards of the hand [hand]. *)
Definition fromHand (hand cs : list Card) : bool :=
  distinct (map card_id cs)
  && forallb (fun c => has_card_id hand (card_id c)) cs.

(** The cards an action plays are taken from the hand of the player
    who plays them. *)
Definition playsFromHand (s : GameState) (a : Action) : bool :=
  let hand_of playerId :=
    match find_first (has_id playerId) (players s) with
    | Some p => cards p
    | None => []
    end in
  match a with
  | DoPlayCard playerId card _ => fromHand (hand_of playerId) [card]
  | DoPlayMultipleCards playerId cs => fromHand (hand_of playerId) cs
  | DoPlayDiscardAll playerId cs => fromHand (hand_of playerId) cs
  | _ => true
  end.

(** The roster after the player in seat [i] took the cards [drawn]. *)
Definition afterDraw (i : nat) (drawn : list Card) (ps : list Player)
    : list Player :=
  mapi (fun idx p =>
          if (idx =? i)%nat then
            with_hasCalledUno false (with_cards (cards p ++ drawn) p)
          else p) ps.

(** The player who plays, for the actions that play cards. *)
Definition playedBy (a : Action) : option string :=
  match a with
  | DoPlayCard playerId _ _ => Some playerId
  | DoPlayMultipleCards playerId _ => Some playerId
  | DoPlayDiscardAll playerId _ => Some playerId
  | _ => None
  end.

Definition handOf (s : GameState) (playerId : string) : option (list Card) :=
  option_map cards (find_first (has_id playerId) (players s)).

Definition is_wild_color (c : CardColor) : bool := color_eqb c wild_color.

(** The operation is a [playCard] of a colourless card whose
    [selectedColor] is ['wild']. *)
Definition namesWild (o : Operation) : bool :=
  match o with
  | InPlay (DoPlayCard _ card (Some c)) =>
      is_wild_color (card_color card) && is_wild_color c
  | _ => false
  end.

(** A game from [initializeGame] on, through the operations [ops]. *)
Definition play_from_start (hostId_ hostName roomCode_ : string)
    (maxPlayers_ : Z) (ops : list Operation) : MR GameState :=
  s <-- initializeGame hostId_ hostName roomCode_ maxPlayers_ ;; run ops s.

(** ** Further measures *)

(** Every card of a state: the hands, the draw pile, the discard pile. *)
Definition allCards (s : GameState) : list Card :=
  concat (map cards (players s)) ++ drawPile s ++ discardPile s.

(** The direction is 1 or -1 and the turn index is a seat of the
    roster. *)
Definition validTurn (s : GameState) : bool :=
  ((direction s =? 1) || (direction s =? -1))
  && match currentPlayerIndex s with
     | Num z => (0 <=? z) && (z <? Z.of_nat (length (players s)))
     | NaN => false
     end.

(** The steps a played card moves the turn, and the direction it
    leaves, with [n] players and direction [dir]. *)
Definition turnEffect (t : CardType) (n : nat) (dir : Z) : Z * Z :=
  match t with
  | skip => (2, dir)
  | reverse => if (n =? 2)%nat then (2, dir) else (1, dir * -1)
  | skip_everyone => (0, dir)
  | reverse_everyone => (0, dir * -1)
  | _ => (1, dir)
  end.

(** The cards a draw can still reach: the draw pile, and the discard
    pile below its top card. *)
Definition drawable (drawPile_ discardPile_ : list Card) : nat :=
  (length drawPile_ + (length discardPile_ - 1))%nat.

(** [canPlayCard] returns true. *)
Definition playable (s : GameState) (playerId : string) (card : Card)
    : bool :=
  match canPlayCard s card playerId with
  | Ok true => true
  | _ => false
  end.

Definition statusRank (st : GameStatus) : nat :=
  match st with
  | waiting => 0
  | playing => 1
  | finished => 2
  end.

(** A pending draw has a type exactly when its count is positive. *)
Definition pendingConsistent (s : GameState) : bool :=
  match pendingDrawType s with
  | None => pendingDrawCount s =? 0
  | Some _ => 0 <? pendingDrawCount s
  end.

(** ** Sample data for the concrete cases *)

Definition sampleEnv : Env :=
  mkEnv (fun n => n) 0
    (fun n => String.append "card-" (NilEmpty.string_of_uint (Nat.to_uint n)))
    0 "2025-01-01T00:00:00.000Z".

Definition sampleGame (ps : list Player) (idx dir : Z)
    (drawPile_ discardPile_ : list Card) (color : CardColor)
    (pending : Z) (pendingType : option CardType) : GameState :=
  mkState "game-1" playing ps (Num idx) dir drawPile_ discardPile_ color
    pending pendingType None "2025-01-01T00:00:00.000Z"
    "2025-01-01T00:00:00.000Z" "alice" "ABC234" 4 false.

Definition seat (playerId : string) (hand : list Card) : Player :=
  mkPlayer playerId playerId hand false false true false.

Definition red5 : Card := mkCard "c-red5" number red (Some 5).
Definition red7 : Card := mkCard "c-red7" number red (Some 7).
Definition blue5 : Card := mkCard "c-blue5" number blue (Some 5).
Definition blue9 : Card := mkCard "c-blue9" number blue (Some 9).
Definition green3 : Card := mkCard "c-green3" number green (Some 3).
Definition redSkip : Card := mkCard "c-redskip" skip red None.
Definition redDraw2 : Card := mkCard "c-reddraw2" draw2 red None.
Definition redDiscardAll : Card := mkCard "c-reddiscard" discard_all red None.
Definition plainWild : Card := mkCard "c-wild" wild wild_color None.

(** A pending draw on an empty discard pile. *)
Definition emptyDiscardGame : GameState :=
  sampleGame [seat "alice" [red5]; seat "bob" [blue9]] 0 1 [green3] []
    red 2 (Some draw2).

(** A draw2 is pending on a red 7; it is alice's turn. *)
Definition pendingGame : GameState :=
  sampleGame [seat "alice" [redDraw2; red5]; seat "bob" [blue9]] 0 1
    [green3] [red7] red 2 (Some draw2).

(** An ordinary position: red 7 on top, alice to play. *)
Definition openGame : GameState :=
  sampleGame [seat "alice" [red5]; seat "bob" [blue9]] 0 1
    [green3] [red7] red 0 None.

(** A hand of [n] red number cards with ids of their own. *)
Definition redHand (n : nat) : list Card :=
  map (fun k =>
         mkCard (String.append "h-" (NilEmpty.string_of_uint (Nat.to_uint k)))
           number red (Some (Z.of_nat (k mod 10))))
    (seq 0 n).

(** Alice, in the middle seat, holds 24 cards; it is carol's turn. *)
Definition crowdedGame : GameState :=
  sampleGame [seat "bob" [blue9]; seat "alice" (redHand 24);
              seat "carol" [green3]] 2 1
    [red5; blue5] [red7] red 0 None.

(** Alice, in the last seat, holds 23 cards and owes a draw2. *)
Definition penaltyGame : GameState :=
  sampleGame [seat "bob" [blue9]; seat "carol" [green3];
              seat "alice" (redHand 23)] 2 1
    [red5; blue5; redSkip] [red7] red 2 (Some draw2).

(** Alice owes a draw2 and holds few cards. *)
Definition smallPenaltyGame : GameState :=
  sampleGame [seat "bob" [blue9]; seat "carol" [green3];
              seat "alice" [red5]] 2 1
    [blue5; redSkip; plainWild] [red7] red 2 (Some draw2).

(** Alice can discard all her red cards and keep one blue card. *)
Definition discardAllGame : GameState :=
  sampleGame [seat "alice" [redDiscardAll; red5; red7; blue9];
              seat "bob" [blue5; green3]] 0 1
    [plainWild] [redSkip] red 0 None.

(** Alice holds a red skip; bob is the other player. *)
Definition skipGame : GameState :=
  sampleGame [seat "alice" [redSkip; red5]; seat "bob" [blue9]] 0 1
    [green3] [red7] red 0 None.

(** Alice holds two fives; the red one fits the red 7 on top. *)
Definition fivesGame : GameState :=
  sampleGame [seat "alice" [red5; blue5; green3]; seat "bob" [blue9]] 0 1
    [redSkip] [red7] red 0 None.

(** The one card alice can play on the red 7 is her colourless wild. *)
Definition wildHandGame : GameState :=
  sampleGame [seat "alice" [plainWild; blue5; blue9]; seat "bob" [green3]] 0 1
    [redSkip] [red7] red 0 None.

(** Bob holds one card and has not declared it. *)
Definition undeclaredGame : GameState :=
  sampleGame [seat "alice" [red5; red7]; seat "bob" [blue9]] 0 1
    [green3; blue5] [redSkip; redDraw2; plainWild; red7] red 0 None.



(** Alice, in the last seat of three, is to play and holds 24 cards. *)
Definition lastSeatGame : GameState :=
  sampleGame [seat "bob" [blue9]; seat "carol" [green3];
              seat "alice" (redHand 24)] 2 1
    [redSkip; plainWild; blue5] [red7] red 0 None.

(** Two cards of alice's hand carry the same id. *)
Definition sameIdGame : GameState :=
  sampleGame [seat "alice" [red5; mkCard "c-red5" number red (Some 7)];
              seat "bob" [blue9]] 0 1
    [green3] [red7] red 0 None.

(** A room in which alice and bob wait for the start. *)
Definition lobbyGame : GameState :=
  with_status waiting
    (sampleGame [seat "alice" []; seat "bob" []] 0 1 [] [] red 0 None).

(** A room with nineteen players. *)
Definition crowdedLobby : GameState :=
  with_status waiting
    (sampleGame (map (fun k => seat (NilEmpty.string_of_uint (Nat.to_uint k)) [])
                   (seq 0 19))
       0 1 [] [] red 0 None).

(** The state of a result, when there is one. *)
Definition resultState {A} (r : Result (GameState * A)) : option GameState :=
  match r with
  | Ok (s, _) => Some s
  | Throw _ => None
  end.

(** The state a transition leads to from the sample environment (the
    state itself if the transition throws). *)
Definition after (a : Action) (s : GameState) : GameState :=
  match transition a s sampleEnv with
  | Ok (s', _) => s'
  | Throw _ => s
  end.

(** Alice plays her red skip against bob alone. *)
Definition skippedGame : GameState :=
  Eval vm_compute in after (DoPlayCard "alice" redSkip None) skipGame.

(** Alice plays her two fives, the red one first in her choice. *)
Definition fivesPlayedGame : GameState :=
  Eval vm_compute in
    after (DoPlayMultipleCards "alice" [red5; blue5]) fivesGame.

(** Bob draws five cards in a game with three cards left to draw. *)
Definition bobDrewGame : GameState :=
  Eval vm_compute in after (DoDrawCards "bob" 5) skipGame.

(** Alice stacks her red draw2 on the pending draw2. *)
Definition stackedGame : GameState :=
  Eval vm_compute in after (DoPlayCard "alice" redDraw2 None) pendingGame.

(** Alice plays her last card. *)
Definition wonGame : GameState :=
  Eval vm_compute in after (DoPlayCard "alice" red5 None) openGame.

(** Alice plays a red skip that she does not hold. *)
Definition conjuredGame : GameState :=
  Eval vm_compute in after (DoPlayCard "alice" redSkip None) openGame.

(** Alice pays the draw2 and is eliminated. *)
Definition penaltyPaidGame : GameState :=
  Eval vm_compute in after DoProcessDrawPenalty penaltyGame.

(** Alice pays the draw2 and stays in the game. *)
Definition smallPenaltyPaidGame : GameState :=
  Eval vm_compute in after DoProcessDrawPenalty smallPenaltyGame.

(** Alice discards her three red cards. *)
Definition discardedGame : GameState :=
  Eval vm_compute in
    after (DoPlayDiscardAll "alice" [redDiscardAll; red5; red7])
      discardAllGame.

(** Alice opens a room, bob joins, the game starts. *)
Definition openingMoves : list Operation :=
  [DoAddPlayer "bob" "Bob" true; DoStartGame].

(** Alice opens a room, two players join under the id bob, the game
    starts. *)
Definition twinMoves : list Operation :=
  [DoAddPlayer "bob" "Bob" false; DoAddPlayer "bob" "Bob" false; DoStartGame].

(** The colourless card the sample deal puts into alice's hand. *)
Definition dealtWild : Card :=
  mkCard "card-257" wild_draw_color wild_color None.

(** The opening, then alice plays her colourless card and names blue. *)
Definition blueRun : Result (GameState * Env) :=
  play_from_start "alice" "Alice" "ABC234" 4
    (openingMoves ++ [InPlay (DoPlayCard "alice" dealtWild (Some blue))])
    sampleEnv.

Definition blueGame : GameState :=
  Eval vm_compute in
    match blueRun with
    | Ok (s, _) => s
    | Throw _ => openGame
    end.

Definition blueEnv : Env :=
  match blueRun with
  | Ok (_, w) => w
  | Throw _ => sampleEnv
  end.

(** The opening, then alice plays her colourless card and names
    ['wild']. *)
Definition wildRun : Result (GameState * Env) :=
  play_from_start "alice" "Alice" "ABC234" 4
    (openingMoves
     ++ [InPlay (DoPlayCard "alice" dealtWild (Some wild_color))])
    sampleEnv.

(** The faces of a deck in the order [createDeck] builds it. *)
Definition deckFaces : list (CardType * CardColor * option Z) :=
  Eval vm_compute in map face (fst (createDeck sampleEnv)).

(** The face of a number card. *)
Definition number_face (f : CardType * CardColor * option Z) : bool :=
  type_eqb (fst (fst f)) number.

(** The face is not that of a colourless number card. *)
Definition colored_number (f : CardType * CardColor * option Z) : bool :=
  negb (number_face f) || negb (color_eqb (snd (fst f)) wild_color).

(** The face carries no value, or one from 0 to 9. *)
Definition small_value (g : CardType * CardColor * option Z) : bool :=
  match snd g with
  | Some k => (0 <=? k) && (k <=? 9)
  | None => true
  end.

(** * Properties *)

(** ** Deck builder *)

Lemma createDeck_faces w :
  map face (fst (createDeck w)) = deckFaces.
Proof. vm_compute. reflexivity. Qed.

Lemma count_face_map f deck :
  count_face f deck = length (filter (fun g => face_eqb g f) (map face deck)).
Proof.
  unfold count_face. induction deck as [|c deck IH]; [reflexivity|].
  cbn [filter map]. destruct (face_eqb (face c) f); cbn [length]; now rewrite IH.
Qed.

Lemma deckFaces_small : forallb small_value deckFaces = true.
Proof. vm_compute. reflexivity. Qed.

Lemma count_known_value t c (k : nat) :
  (k < 10)%nat ->
  length (filter (fun g => face_eqb g (t, c, Some (Z.of_nat k))) deckFaces)
  = enumerated t c (Some (Z.of_nat k)).
Proof.
  intros Hk.
  do 10 (destruct k as [|k]; [destruct t, c; vm_compute; reflexivity|]).
  lia.
Qed.

Lemma count_no_value t c :
  length (filter (fun g => face_eqb g (t, c, None)) deckFaces)
  = enumerated t c None.
Proof. destruct t, c; vm_compute; reflexivity. Qed.

Lemma count_other_value t c z :
  z < 0 \/ 9 < z ->
  length (filter (fun g => face_eqb g (t, c, Some z)) deckFaces) = O.
Proof.
  intros Hz. pose proof deckFaces_small as Hs.
  rewrite forallb_forall in Hs.
  induction deckFaces as [|g l IH]; [reflexivity|].
  cbn [filter].
  assert (Hg : face_eqb g (t, c, Some z) = false).
  { specialize (Hs g (or_introl eq_refl)).
    destruct g as [[t' c'] [k|]]; unfold small_value in Hs; simpl in *.
    - assert ((k =? z) = false) as -> by (apply Z.eqb_neq; lia).
      apply andb_false_r.
    - apply andb_false_r. }
  rewrite Hg. apply IH. intros x Hx. apply Hs. now right.
Qed.

Lemma enumerated_other_value t c z :
  z < 0 \/ 9 < z -> enumerated t c (Some z) = O.
Proof.
  intros Hz. destruct t, c; simpl; try reflexivity;
    (destruct (Z.eqb_spec z 0); [lia|]);
    destruct (Z.leb_spec 1 z); destruct (Z.leb_spec z 9); simpl;
    try reflexivity; lia.
Qed.

Lemma createDeck_count w t c v :
  count_face (t, c, v) (fst (createDeck w)) = enumerated t c v.
Proof.
  rewrite count_face_map, createDeck_faces.
  destruct v as [z|]; [|apply count_no_value].
  destruct (Z_lt_dec z 0) as [Hlo|Hlo];
    [rewrite enumerated_other_value by lia; apply count_other_value; lia|].
  destruct (Z_lt_dec 9 z) as [Hhi|Hhi];
    [rewrite enumerated_other_value by lia; apply count_other_value; lia|].
  replace z with (Z.of_nat (Z.to_nat z)) by lia.
  apply count_known_value. lia.
Qed.

Lemma createDeck_length w : length (fst (createDeck w)) = 130%nat.
Proof.
  rewrite <- (length_map face), createDeck_faces. reflexivity.
Qed.

(** C1, as the code has it: every call of [createDeck] returns 130 cards
    (112 coloured and 18 colourless ones, not 168), and each face
    [(type, color, value)] occurs in the deck exactly as often as the
    enumeration of the specification says; the environment the call
    runs in (how many calls came before) does not matter. *)
Theorem createDeck_composition :
  forall w,
    length (fst (createDeck w)) = 130%nat
    /\ forall t c v,
         count_face (t, c, v) (fst (createDeck w)) = enumerated t c v.
Proof.
  intros w. split; [apply createDeck_length|].
  intros t c v. apply createDeck_count.
Qed.

(** C1 as stated fails: the deck of the enumerated multiplicities does
    not have 168 cards. *)
Lemma createDeck_not_168 :
  ~ (forall w,
       length (fst (createDeck w)) = 168%nat
       /\ forall t c v,
            count_face (t, c, v) (fst (createDeck w)) = enumerated t c v).
Proof.
  intros H. destruct (H sampleEnv) as [Hlen _].
  rewrite createDeck_length in Hlen. discriminate Hlen.
Qed.

(** ** Legality *)

Lemma drawValues_table :
  drawValues draw2 = 2 /\ drawValues wild_draw2 = 2
  /\ drawValues draw4 = 4 /\ drawValues wild_draw4 = 4
  /\ drawValues wild_draw_color = 4
  /\ drawValues draw6 = 6 /\ drawValues draw10 = 10.
Proof. repeat split. Qed.


Lemma canPlayCard_empty_discard s card playerId :
  getTopCard s = None -> canPlayCard s card playerId = Ok true.
Proof. intros H. unfold canPlayCard. now rewrite H. Qed.

(** C3, as the code has it: on a state with a non-empty discard pile in
    which a draw is pending ([pendingDrawCount > 0], [pendingDrawType]
    not null), [canPlayCard] for the current player returns true exactly
    for the draw-type cards whose magnitude is at least the magnitude of
    the pending type; every other card is refused. *)
Theorem canPlayCard_pending_draw :
  forall s card top cur pendingType,
    getTopCard s = Some top ->
    getCurrentPlayer s = Some cur ->
    pendingDrawCount s > 0 ->
    pendingDrawType s = Some pendingType ->
    exists b,
      canPlayCard s card (player_id cur) = Ok b
      /\ (b = true <->
          isDrawCard (card_type card) = true
          /\ drawValues (card_type card) >= drawValues pendingType).
Proof.
  intros s card top cur pendingType Htop Hcur Hpos Htype.
  unfold canPlayCard, getCurrentPlayer in *.
  rewrite Htop, Hcur, String.eqb_refl, Htype. simpl negb. cbv iota.
  assert ((pendingDrawCount s >? 0) = true) as -> by (apply Z.gtb_lt; lia).
  exists (canStackDrawCard card pendingType). split; [reflexivity|].
  unfold canStackDrawCard, isDrawCard.
  destruct (includes drawTypes (card_type card)); simpl.
  - rewrite Z.geb_le. split; [intros H; split; [reflexivity|lia]|].
    intros [_ H]. lia.
  - split; [discriminate|]. intros [H _]. discriminate H.
Qed.

Lemma canPlayCard_pending_draw_witness :
  exists b,
    canPlayCard pendingGame redDraw2 "alice" = Ok b
    /\ (b = true <->
        isDrawCard (card_type redDraw2) = true
        /\ drawValues (card_type redDraw2) >= drawValues draw2).
Proof.
  apply (canPlayCard_pending_draw pendingGame redDraw2 red7
           (seat "alice" [redDraw2; red5]) draw2); reflexivity.
Defined.

(** C3 as stated fails on an empty discard pile: a number card is
    accepted although a draw2 is pending. *)
Lemma canPlayCard_pending_draw_empty_discard :
  pendingDrawCount emptyDiscardGame > 0
  /\ pendingDrawType emptyDiscardGame = Some draw2
  /\ getCurrentPlayer emptyDiscardGame = Some (seat "alice" [red5])
  /\ ~ (canPlayCard emptyDiscardGame red5 "alice" = Ok true <->
        isDrawCard (card_type red5) = true
        /\ drawValues (card_type red5) >= drawValues draw2).
Proof.
  repeat split.
  intros [H _]. destruct (H eq_refl) as [Hd _]. discriminate Hd.
Qed.

(** C4, as the code has it: on a state with a non-empty discard pile,
    [canPlayCard] returns false for every card and every player id that
    is not the id of the current player. *)
Theorem canPlayCard_not_current :
  forall s card playerId top cur,
    getTopCard s = Some top ->
    getCurrentPlayer s = Some cur ->
    String.eqb (player_id cur) playerId = false ->
    canPlayCard s card playerId = Ok false.
Proof.
  intros s card playerId top cur Htop Hcur Hne.
  unfold canPlayCard, getCurrentPlayer in *.
  now rewrite Htop, Hcur, Hne.
Qed.

Lemma canPlayCard_not_current_witness :
  canPlayCard openGame blue9 "bob" = Ok false.
Proof.
  apply (canPlayCard_not_current openGame blue9 "bob" red7
           (seat "alice" [red5])); reflexivity.
Defined.

(** C4 as stated fails in the defensive case: on an empty discard pile
    the card of a player who is not the current one is accepted. *)
Lemma canPlayCard_not_current_empty_discard :
  getCurrentPlayer emptyDiscardGame = Some (seat "alice" [red5])
  /\ String.eqb "alice" "bob" = false
  /\ canPlayCard emptyDiscardGame blue9 "bob" = Ok true.
Proof. repeat split. Qed.

(** ** Arrays *)

Section ArrayFacts.
Context {A : Type}.
Implicit Types (l : list A) (p : A -> bool).

Lemma findIndex_Some p l i :
  findIndex p l = Some i ->
  exists x, nth_error l i = Some x /\ p x = true
            /\ firstn i l = filter (fun y => negb (p y)) (firstn i l).
Proof.
  revert i. induction l as [|y l IH]; intros i H; simpl in H; [discriminate|].
  destruct (p y) eqn:Hy.
  - injection H as <-. exists y. now repeat split.
  - destruct (findIndex p l) as [j|] eqn:Hj; [|discriminate].
    injection H as <-. destruct (IH j eq_refl) as (x & Hx & Hp & Hf).
    exists x. repeat split; trivial. simpl. rewrite Hy. simpl. now f_equal.
Qed.

Lemma findIndex_find_first p l i :
  findIndex p l = Some i -> find_first p l = nth_error l i.
Proof.
  revert i. induction l as [|y l IH]; intros i H; simpl in *; [discriminate|].
  destruct (p y); [now injection H as <-|].
  destruct (findIndex p l) as [j|]; [|discriminate].
  injection H as <-. now apply IH.
Qed.

Lemma findIndex_None p l :
  findIndex p l = None -> find_first p l = None.
Proof.
  induction l as [|y l IH]; simpl; [reflexivity|].
  destruct (p y); [discriminate|].
  destruct (findIndex p l); [discriminate|]. auto.
Qed.



Lemma mapi_from_length k f l : length (mapi_from k f l) = length l.
Proof. revert k. induction l; intros k; simpl; auto. Qed.

Lemma mapi_from_nth k f l i :
  nth_error (mapi_from k f l) i = option_map (f (k + i)%nat) (nth_error l i).
Proof.
  revert k i. induction l as [|y l IH]; intros k [|i]; simpl; trivial.
  - now rewrite Nat.add_0_r.
  - rewrite IH. now rewrite Nat.add_succ_r.
Qed.

Lemma mapi_nth f l i :
  nth_error (mapi f l) i = option_map (f i) (nth_error l i).
Proof. apply (mapi_from_nth 0). Qed.

(** Updating the one index [i] splits the array around it. *)
Lemma mapi_from_update k (g : A -> A) l i x :
  nth_error l i = Some x ->
  mapi_from k (fun idx y => if (idx =? k + i)%nat then g y else y) l
  = firstn i l ++ g x :: skipn (S i) l.
Proof.
  revert k i. induction l as [|y l IH]; intros k [|i] H; simpl in H;
    try discriminate.
  - injection H as ->. simpl. rewrite Nat.add_0_r, Nat.eqb_refl. f_equal.
    clear IH. generalize (Nat.lt_succ_diag_r k). generalize (S k) as m.
    induction l as [|z l IHl]; intros m Hm; simpl; [reflexivity|].
    destruct (Nat.eqb_spec m k); [lia|]. f_equal. apply IHl. lia.
  - replace (k + S i)%nat with (S k + i)%nat by lia.
    cbn [mapi_from firstn skipn app].
    destruct (Nat.eqb_spec k (S k + i)); [lia|]. f_equal.
    exact (IH (S k) i H).
Qed.

Lemma mapi_update (g : A -> A) l i x :
  nth_error l i = Some x ->
  mapi (fun idx y => if (idx =? i)%nat then g y else y) l
  = firstn i l ++ g x :: skipn (S i) l.
Proof. apply (mapi_from_update 0). Qed.

Lemma nth_error_split_at l i x :
  nth_error l i = Some x -> l = firstn i l ++ x :: skipn (S i) l.
Proof.
  revert i. induction l as [|y l IH]; intros [|i] H; simpl in H;
    try discriminate.
  - now injection H as ->.
  - simpl. f_equal. now apply IH.
Qed.

Lemma last_elem_app l x : last_elem (l ++ [x]) = Some x.
Proof.
  unfold last_elem. rewrite length_app. simpl.
  replace (length l + 1 - 1)%nat with (length l) by lia.
  rewrite nth_error_app2 by lia. now rewrite Nat.sub_diag.
Qed.

Lemma last_elem_Some l x :
  last_elem l = Some x -> l = removelast l ++ [x].
Proof.
  destruct l as [|y l] using rev_ind; [discriminate|].
  rewrite last_elem_app. intros [= ->]. now rewrite removelast_last.
Qed.

Lemma last_elem_None l : last_elem l = None -> l = [].
Proof.
  destruct l as [|y l] using rev_ind; [reflexivity|].
  now rewrite last_elem_app.
Qed.

Lemma filter_partition_length p l :
  (length (filter p l) + length (filter (fun x => negb (p x)) l)
   = length l)%nat.
Proof.
  induction l as [|y l IH]; simpl; [reflexivity|].
  destruct (p y); simpl; lia.
Qed.
End ArrayFacts.

(** ** Identifiers *)

Lemma existsb_eqb_In x l : existsb (String.eqb x) l = true <-> In x l.
Proof.
  rewrite existsb_exists. split.
  - intros (y & Hy & He). apply String.eqb_eq in He. now subst.
  - intros H. exists x. split; [assumption|apply String.eqb_refl].
Qed.

Lemma distinct_NoDup l : distinct l = true <-> NoDup l.
Proof.
  induction l as [|x l IH]; simpl.
  - split; [constructor|reflexivity].
  - rewrite andb_true_iff, negb_true_iff, IH. split.
    + intros [Hx Hl]. constructor; [|assumption].
      intros Hin. apply existsb_eqb_In in Hin. congruence.
    + intros H. inversion H as [|? ? Hx Hl]; subst. split; [|assumption].
      destruct (existsb (String.eqb x) l) eqn:E; [|reflexivity].
      apply existsb_eqb_In in E. contradiction.
Qed.

Lemma has_card_id_In cs i : has_card_id cs i = true <-> In i (map card_id cs).
Proof.
  unfold has_card_id. rewrite existsb_exists, in_map_iff. split.
  - intros (c & Hc & He). apply String.eqb_eq in He. eauto.
  - intros (c & He & Hc). exists c. split; [assumption|].
    now apply String.eqb_eq.
Qed.

Lemma filter_all {A} (q : A -> bool) l :
  (forall y, In y l -> q y = true) -> filter q l = l.
Proof.
  induction l as [|y l IH]; intros H; simpl; [reflexivity|].
  rewrite (H y (or_introl eq_refl)). f_equal. apply IH. intros z Hz.
  apply H. now right.
Qed.

Lemma map_filter_id (q : string -> bool) (hand : list Card) :
  map card_id (filter (fun c => q (card_id c)) hand)
  = filter q (map card_id hand).
Proof.
  induction hand as [|c hand IH]; simpl; [reflexivity|].
  destruct (q (card_id c)); simpl; now rewrite IH.
Qed.

(** Playing cards taken from a hand shortens the hand by their number. *)
Lemma played_cards_leave hand cs :
  distinct (map card_id hand) = true ->
  fromHand hand cs = true ->
  (length (filter (fun c => negb (has_card_id cs (card_id c))) hand)
   + length cs = length hand)%nat.
Proof.
  intros Hhand Hfrom. unfold fromHand in Hfrom.
  apply andb_true_iff in Hfrom as [Hcs Hsub].
  rewrite distinct_NoDup in Hhand, Hcs. rewrite forallb_forall in Hsub.
  pose proof (filter_partition_length
                (fun c => has_card_id cs (card_id c)) hand) as Hpart.
  assert (Hlen : length (filter (fun c => has_card_id cs (card_id c)) hand)
                 = length cs).
  { rewrite <- (length_map card_id), <- (length_map card_id cs).
    apply Permutation_length. rewrite (map_filter_id (has_card_id cs)).
    apply NoDup_Permutation; [now apply NoDup_filter|assumption|].
    intros i. rewrite filter_In, has_card_id_In. split; [tauto|].
    intros Hi. split; [|assumption].
    apply in_map_iff in Hi as (c & <- & Hc).
    apply has_card_id_In. now apply Hsub. }
  lia.
Qed.

Lemma played_card_leaves hand card :
  distinct (map card_id hand) = true ->
  fromHand hand [card] = true ->
  (length (filter (fun c => negb (String.eqb (card_id c) (card_id card))) hand)
   + 1 = length hand)%nat.
Proof.
  intros Hhand Hfrom.
  rewrite <- (played_cards_leave hand [card] Hhand Hfrom). simpl. f_equal.
  f_equal. apply filter_ext. intros c. simpl.
  now rewrite orb_false_r, String.eqb_sym.
Qed.

(** ** Rosters *)

Lemma handSizes_app ps qs :
  handSizes (ps ++ qs) = (handSizes ps + handSizes qs)%nat.
Proof. induction ps as [|p ps IH]; simpl; [reflexivity|]. rewrite IH. lia. Qed.

Lemma has_id_eq playerId p : has_id playerId p = true <-> player_id p = playerId.
Proof. apply String.eqb_eq. Qed.

(** With distinct ids, removing the player with id [playerId] removes
    exactly the seat [findIndex] finds. *)
Lemma remaining_players ps playerId i :
  distinct (map player_id ps) = true ->
  findIndex (has_id playerId) ps = Some i ->
  filter (fun p => negb (has_id playerId p)) ps = firstn i ps ++ skipn (S i) ps.
Proof.
  intros Hd Hi. apply distinct_NoDup in Hd.
  destruct (findIndex_Some _ _ _ Hi) as (x & Hx & Hp & Hbefore).
  rewrite (nth_error_split_at _ _ _ Hx) at 1.
  rewrite filter_app. simpl. rewrite Hp. simpl. rewrite <- Hbefore. f_equal.
  apply filter_all. intros y Hy. apply negb_true_iff.
  destruct (has_id playerId y) eqn:E; [|reflexivity]. exfalso.
  apply has_id_eq in E, Hp.
  rewrite (nth_error_split_at _ _ _ Hx), map_app in Hd. simpl in Hd.
  apply NoDup_remove_2 in Hd. apply Hd, in_or_app. right.
  rewrite Hp, <- E. now apply in_map.
Qed.

Lemma replaceCards_split ps i newCards p :
  nth_error ps i = Some p ->
  replaceCards i newCards ps
  = firstn i ps ++ with_cards newCards p :: skipn (S i) ps.
Proof. intros H. unfold replaceCards. now apply mapi_update. Qed.

Lemma replaceCards_handSizes ps i newCards p :
  nth_error ps i = Some p ->
  (handSizes (replaceCards i newCards ps) + length (cards p)
   = handSizes ps + length newCards)%nat.
Proof.
  intros H. rewrite (replaceCards_split _ _ _ _ H).
  rewrite (nth_error_split_at _ _ _ H) at 3.
  rewrite !handSizes_app. simpl. lia.
Qed.

Lemma handOf_replaceCards s ps' playerId i p newCards :
  findIndex (has_id playerId) (players s) = Some i ->
  nth_error (players s) i = Some p ->
  ps' = replaceCards i newCards (players s) ->
  find_first (has_id playerId) ps' = Some (with_cards newCards p).
Proof.
  intros Hi Hp ->.
  destruct (findIndex_Some _ _ _ Hi) as (x & Hx & Hpx & Hbefore).
  assert (x = p) by congruence. subst x.
  rewrite (replaceCards_split _ _ _ _ Hp).
  revert Hbefore. generalize (firstn i (players s)) as pre.
  induction pre as [|y pre IH]; simpl; intros Hb.
  - unfold has_id in *. simpl. now rewrite Hpx.
  - destruct (has_id playerId y) eqn:E; simpl in Hb.
    + exfalso. clear IH. assert (Hl := f_equal (@length _) Hb). simpl in Hl.
      pose proof (filter_length_le (fun y => negb (has_id playerId y)) pre).
      lia.
    + injection Hb as Hb. now apply IH.
Qed.

(** ** Shuffling *)

Lemma set_nth_perm {A} (l : list A) j a b :
  nth_error l j = Some b -> Permutation (b :: set_nth j a l) (a :: l).
Proof.
  revert j. induction l as [|y l IH]; intros [|j] H; simpl in H;
    try discriminate.
  - injection H as ->. simpl. apply perm_swap.
  - simpl. rewrite perm_swap, (IH j H). apply perm_swap.
Qed.

Lemma swap_perm {A} (l : list A) i j : Permutation (swap i j l) l.
Proof.
  unfold swap.
  destruct (nth_error l i) as [a|] eqn:Ha; [|reflexivity].
  destruct (nth_error l j) as [b|] eqn:Hb; [|reflexivity].
  revert i j Ha Hb. induction l as [|y l IH]; intros [|i] [|j] Ha Hb;
    simpl in *; try discriminate.
  - injection Ha as ->. injection Hb as ->. reflexivity.
  - injection Ha as ->. now apply set_nth_perm.
  - injection Hb as ->. now apply set_nth_perm.
  - apply perm_skip. now apply IH.
Qed.

Lemma shuffleLoop_perm i l w : Permutation (fst (shuffleLoop i l w)) l.
Proof.
  revert l w. induction i as [|i IH]; intros l w; [reflexivity|].
  cbn [shuffleLoop]. unfold bind, randomBelow.
  rewrite IH. apply swap_perm.
Qed.

Lemma shuffleDeck_perm l w : Permutation (fst (shuffleDeck l w)) l.
Proof. apply shuffleLoop_perm. Qed.

Lemma shuffleDeck_length l w : length (fst (shuffleDeck l w)) = length l.
Proof. apply Permutation_length, shuffleDeck_perm. Qed.

Lemma shuffleLoop_env i l w :
  rand_pos (snd (shuffleLoop i l w)) = (rand_pos w + i)%nat
  /\ uuid_pos (snd (shuffleLoop i l w)) = uuid_pos w
  /\ uuid_src (snd (shuffleLoop i l w)) = uuid_src w
  /\ rand_src (snd (shuffleLoop i l w)) = rand_src w
  /\ now (snd (shuffleLoop i l w)) = now w.
Proof.
  revert l w. induction i as [|i IH]; intros l w.
  - cbn. repeat split. lia.
  - cbn [shuffleLoop]. unfold bind, randomBelow.
    destruct (IH (swap (S i) (rand_src w (rand_pos w) mod S (S i)) l)
                {| rand_src := rand_src w; rand_pos := S (rand_pos w);
                   uuid_src := uuid_src w; uuid_pos := uuid_pos w;
                   now := now w |}) as (H1 & H2 & H3 & H4 & H5).
    cbn in *. rewrite H1, H2, H3, H4, H5. repeat split. lia.
Qed.


Lemma mapM_renewId_length l w :
  length (fst (mapM renewId l w)) = length l.
Proof.
  revert w. induction l as [|c l IH]; intros w; [reflexivity|].
  cbn [mapM]. unfold bind at 1. unfold renewId at 1, bind at 1, uuidv4, ret at 1.
  unfold bind. specialize (IH
    {| rand_src := rand_src w; rand_pos := rand_pos w; uuid_src := uuid_src w;
       uuid_pos := S (uuid_pos w); now := now w |}).
  destruct (mapM renewId l _) as [bs w']. simpl in *. now rewrite IH.
Qed.

(** ** Drawing *)

Lemma drawOne_size st w : pilesSize (fst (drawOne st w)) = pilesSize st.
Proof.
  destruct st as [[d c] n]. unfold drawOne, bind.
  destruct (length d =? 0)%nat eqn:Hd.
  - apply Nat.eqb_eq in Hd. destruct d; [|discriminate]. clear Hd.
    pose proof (mapM_renewId_length (removelast c) w) as Hr.
    destruct (mapM renewId (removelast c) w) as [renewed w1]. simpl in Hr.
    pose proof (shuffleDeck_length renewed w1) as Hs.
    destruct (shuffleDeck renewed w1) as [d' w2]. simpl in Hs. unfold ret.
    assert (Hc : (length (removelast c)
                  + length (match last_elem c with
                            | Some t => [t]
                            | None => []
                            end) = length c)%nat).
    { destruct (last_elem c) as [t|] eqn:Ht.
      - rewrite (last_elem_Some _ _ Ht) at 2. rewrite length_app. reflexivity.
      - rewrite (last_elem_None _ Ht). reflexivity. }
    destruct (0 <? length d')%nat; [|simpl; lia].
    destruct (last_elem d') as [x|] eqn:Hx; [|simpl; lia].
    cbn [fst pilesSize]. rewrite (last_elem_Some _ _ Hx) in Hs.
    rewrite !length_app in *. simpl in *. lia.
  - unfold ret. rewrite Nat.ltb_antisym.
    replace (length d <=? 0)%nat with false
      by (destruct d; [discriminate|reflexivity]).
    cbn [negb].
    destruct (last_elem d) as [x|] eqn:Hx; [|reflexivity].
    cbn [fst pilesSize]. rewrite (last_elem_Some _ _ Hx) at 2.
    rewrite !length_app. simpl. lia.
Qed.

Lemma drawLoop_size count st w :
  pilesSize (fst (drawLoop count st w)) = pilesSize st.
Proof.
  revert st w. induction count as [|k IH]; intros st w; [reflexivity|].
  cbn [drawLoop]. unfold bind.
  pose proof (drawOne_size st w) as H1.
  destruct (drawOne st w) as [st' w']. rewrite IH. exact H1.
Qed.

(** ** The card total *)

Lemma mapi_from_player_ids k f ps :
  (forall idx p, player_id (f idx p) = player_id p) ->
  map player_id (mapi_from k f ps) = map player_id ps.
Proof.
  intros Hf. revert k. induction ps as [|p ps IH]; intros k; simpl;
    [reflexivity|]. now rewrite Hf, IH.
Qed.

Lemma handleCardEffect_frame s card playerId color w :
  let s' := fst (handleCardEffect s card playerId color w) in
  players s' = players s /\ drawPile s' = drawPile s
  /\ discardPile s' = discardPile s /\ status s' = status s
  /\ winnerId s' = winnerId s.
Proof.
  unfold handleCardEffect.
  destruct (card_type card), (color_eqb (card_color card) wild_color), color;
    try (cbn; repeat split; reflexivity);
    destruct (length (players s) =? 2)%nat; cbn; repeat split; reflexivity.
Qed.

Lemma checkWinner_frame newCards playerId s :
  players (checkWinner newCards playerId s) = players s
  /\ drawPile (checkWinner newCards playerId s) = drawPile s
  /\ discardPile (checkWinner newCards playerId s) = discardPile s.
Proof.
  unfold checkWinner. destruct (length newCards =? 0)%nat; repeat split.
Qed.

Lemma eliminatePlayer_total s playerId w :
  distinct (map player_id (players s)) = true ->
  cardTotal (fst (eliminatePlayer s playerId w)) = cardTotal s.
Proof.
  intros Hd. unfold eliminatePlayer.
  destruct (findIndex (has_id playerId) (players s)) as [i|] eqn:Hi;
    [|reflexivity].
  destruct (nth_error (players s) i) as [p|] eqn:Hp; [|reflexivity].
  unfold bind.
  pose proof (shuffleDeck_length (drawPile s ++ cards p) w) as Hs.
  destruct (shuffleDeck (drawPile s ++ cards p) w) as [d' w'].
  simpl in Hs. rewrite length_app in Hs.
  pose proof (remaining_players _ _ _ Hd Hi) as Hr.
  assert (Hh : (handSizes (filter (fun q => negb (has_id playerId q))
                             (players s)) + length (cards p)
                = handSizes (players s))%nat).
  { rewrite Hr. rewrite (nth_error_split_at _ _ _ Hp) at 3.
    rewrite !handSizes_app. simpl. lia. }
  destruct (filter (fun q => negb (has_id playerId q)) (players s))
    as [|a [|b r]]; unfold cardTotal; cbn in *; lia.
Qed.

Lemma drawCards_total s playerId count w s' w' :
  distinct (map player_id (players s)) = true ->
  drawCards s playerId count w = Ok (s', w') ->
  cardTotal s' = cardTotal s.
Proof.
  intros Hd. unfold drawCards.
  destruct (findIndex (has_id playerId) (players s)) as [i|] eqn:Hi;
    [|discriminate].
  destruct (findIndex_Some _ _ _ Hi) as (p & Hp & _).
  unfold bindR, liftM.
  pose proof (drawLoop_size (Z.to_nat count)
                (drawPile s, discardPile s, []) w) as Hsz.
  destruct (drawLoop (Z.to_nat count) (drawPile s, discardPile s, []) w)
    as [[[d c] n] w1]. cbn in Hsz.
  rewrite mapi_nth, Hp. cbn [option_map]. rewrite Nat.eqb_refl.
  set (newPlayers := mapi _ (players s)).
  assert (Hh : handSizes newPlayers = (handSizes (players s) + length n)%nat).
  { unfold newPlayers.
    rewrite (mapi_update
               (fun q => with_hasCalledUno false
                           (with_cards (cards q ++ n) q)) _ _ _ Hp).
    rewrite (nth_error_split_at _ _ _ Hp) at 3.
    rewrite !handSizes_app. simpl. rewrite length_app. lia. }
  destruct (25 <=? _)%nat.
  - intros [= H]. change s' with (fst (s', w')). rewrite <- H.
    rewrite eliminatePlayer_total.
    + unfold cardTotal. cbn -[handSizes]. lia.
    + cbn. unfold newPlayers, mapi. rewrite mapi_from_player_ids; [assumption|].
      intros idx q. now destruct (idx =? i)%nat.
  - intros [= <- <-]. unfold cardTotal. cbn -[handSizes]. lia.
Qed.

(** ** What a play does *)

Lemma insert_sortedR_perm {A} (cmp : A -> A -> Result Z) x l r :
  insert_sortedR cmp x l = Ok r -> Permutation r (x :: l).
Proof.
  revert r. induction l as [|y l IH]; intros r; simpl.
  - now intros [= <-].
  - destruct (cmp x y) as [c|]; [|discriminate]. simpl.
    destruct (c <=? 0); [now intros [= <-]|].
    destruct (insert_sortedR cmp x l) as [r'|]; [|discriminate].
    simpl. intros [= <-]. rewrite (IH r' eq_refl). apply perm_swap.
Qed.

Lemma sortR_perm {A} (cmp : A -> A -> Result Z) l r :
  sortR cmp l = Ok r -> Permutation r l.
Proof.
  revert r. induction l as [|x l IH]; intros r; simpl.
  - now intros [= <-].
  - destruct (sortR cmp l) as [r'|]; [|discriminate]. simpl. intros H.
    rewrite (insert_sortedR_perm _ _ _ _ H). apply perm_skip. now apply IH.
Qed.


(** A successful [playCard]: the card was legal, it now tops the discard
    pile, and the hand of the player lost the cards with its id. *)
Lemma playCard_Ok s playerId card color w s' w' :
  playCard s playerId card color w = Ok (s', w') ->
  exists i p,
    canPlayCard s card playerId = Ok true
    /\ findIndex (has_id playerId) (players s) = Some i
    /\ nth_error (players s) i = Some p
    /\ players s' =
         replaceCards i
           (filter (fun c => negb (String.eqb (card_id c) (card_id card)))
              (cards p)) (players s)
    /\ discardPile s' = discardPile s ++ [card]
    /\ drawPile s' = drawPile s
    /\ (filter (fun c => negb (String.eqb (card_id c) (card_id card)))
          (cards p) = [] ->
        status s' = finished /\ winnerId s' = Some playerId).
Proof.
  unfold playCard, bindR, liftR, bindRes.
  destruct (canPlayCard s card playerId) as [[|]|] eqn:Hc; try discriminate.
  cbn [negb].
  destruct (findIndex (has_id playerId) (players s)) as [i|] eqn:Hi;
    [|discriminate].
  destruct (nth_error (players s) i) as [p|] eqn:Hp; [|discriminate].
  set (newCards := filter _ (cards p)).
  match goal with
  | |- context [handleCardEffect ?st card playerId color w] =>
      pose proof (handleCardEffect_frame st card playerId color w) as Hf;
      destruct (handleCardEffect st card playerId color w) as [s1 w1]
  end.
  cbn in Hf. destruct Hf as (Hpl & Hdr & Hdi & _ & _).
  intros [= <- <-]. exists i, p.
  destruct (checkWinner_frame newCards playerId s1) as (Ep & Ed & Ec).
  rewrite Ep, Ed, Ec. repeat (split; [solve [trivial]|]).
  subst newCards. intros E. rewrite E. split; reflexivity.
Qed.

Lemma playMultipleCards_Ok s playerId cs w s' :
  playMultipleCards s playerId cs w = Ok s' ->
  exists i p sortedCards,
    findIndex (has_id playerId) (players s) = Some i
    /\ nth_error (players s) i = Some p
    /\ Permutation sortedCards cs
    /\ players s' =
         replaceCards i
           (filter (fun c => negb (has_card_id cs (card_id c))) (cards p))
           (players s)
    /\ discardPile s' = discardPile s ++ sortedCards
    /\ drawPile s' = drawPile s
    /\ (filter (fun c => negb (has_card_id cs (card_id c))) (cards p) = [] ->
        status s' = finished /\ winnerId s' = Some playerId).
Proof.
  unfold playMultipleCards, bindRes.
  destruct (canPlayMultipleCards s cs playerId) as [[|]|]; try discriminate.
  cbn [negb].
  destruct (sortR (playableLast s playerId) cs) as [sortedCards|] eqn:Hs;
    [|discriminate].
  destruct (findIndex (has_id playerId) (players s)) as [i|] eqn:Hi;
    [|discriminate].
  destruct (nth_error (players s) i) as [p|] eqn:Hp; [|discriminate].
  destruct (last_elem sortedCards) as [lastCard|]; [|discriminate].
  set (newCards := filter _ (cards p)).
  intros [= <-]. exists i, p, sortedCards.
  match goal with
  | |- context [checkWinner newCards playerId ?st] =>
      destruct (checkWinner_frame newCards playerId st) as (Ep & Ed & Ec)
  end.
  apply sortR_perm in Hs.
  rewrite Ep, Ed, Ec. repeat (split; [solve [trivial]|]).
  subst newCards. intros E. rewrite E. split; reflexivity.
Qed.

Lemma playDiscardAll_Ok s playerId cs w s' :
  playDiscardAll s playerId cs w = Ok s' ->
  exists i p,
    findIndex (has_id playerId) (players s) = Some i
    /\ nth_error (players s) i = Some p
    /\ players s' =
         replaceCards i
           (filter (fun c => negb (has_card_id cs (card_id c))) (cards p))
           (players s)
    /\ discardPile s' = discardPile s ++ cs
    /\ drawPile s' = drawPile s
    /\ (filter (fun c => negb (has_card_id cs (card_id c))) (cards p) = [] ->
        status s' = finished /\ winnerId s' = Some playerId).
Proof.
  unfold playDiscardAll.
  destruct cs as [|c0 cs0] eqn:Ecs; [discriminate|]. rewrite <- Ecs.
  destruct (negb (forallb _ cs)); [discriminate|].
  destruct (negb (color_eqb _ _)); [discriminate|].
  destruct (findIndex (has_id playerId) (players s)) as [i|] eqn:Hi;
    [|discriminate].
  destruct (nth_error (players s) i) as [p|] eqn:Hp; [|discriminate].
  set (newCards := filter _ (cards p)).
  intros [= <-]. exists i, p.
  match goal with
  | |- context [checkWinner newCards playerId ?st] =>
      destruct (checkWinner_frame newCards playerId st) as (Ep & Ed & Ec)
  end.
  rewrite Ep, Ed, Ec. repeat (split; [solve [trivial]|]).
  subst newCards. intros E. rewrite E. split; reflexivity.
Qed.

Lemma uniqueIds_players s :
  uniqueIds s = true -> distinct (map player_id (players s)) = true.
Proof. unfold uniqueIds. now intros [H _]%andb_true_iff. Qed.

Lemma uniqueIds_hand s i p :
  uniqueIds s = true -> nth_error (players s) i = Some p ->
  distinct (map card_id (cards p)) = true.
Proof.
  unfold uniqueIds. intros [_ H]%andb_true_iff Hp.
  rewrite forallb_forall in H. apply H. eapply nth_error_In, Hp.
Qed.

Lemma hand_of_found s playerId i p :
  findIndex (has_id playerId) (players s) = Some i ->
  nth_error (players s) i = Some p ->
  match find_first (has_id playerId) (players s) with
  | Some q => cards q
  | None => []
  end = cards p.
Proof. intros Hi Hp. now rewrite (findIndex_find_first _ _ _ Hi), Hp. Qed.

(** C2: every transition of a game in progress ([playCard],
    [playMultipleCards], [playDiscardAll], [drawCards],
    [processDrawPenalty], [challengeUno]) that plays cards taken from the
    hand of the player who plays them leaves the sum of the hand sizes,
    the draw pile size and the discard pile size unchanged; an
    elimination inside a draw is included.  Identifiers are taken to
    identify: the ids of the players are distinct, and so are the ids of
    the cards of one hand. *)
Theorem transition_preserves_cardTotal :
  forall a s w s' w',
    uniqueIds s = true ->
    playsFromHand s a = true ->
    transition a s w = Ok (s', w') ->
    cardTotal s' = cardTotal s.
Proof.
  intros a s w s' w' Hu Hfrom Hstep.
  pose proof (uniqueIds_players _ Hu) as Hd.
  destruct a as [playerId card color|playerId cs|playerId cs|playerId count|
                 |challengerId targetId]; cbn [transition] in Hstep.
  - apply playCard_Ok in Hstep
      as (i & p & _ & Hi & Hp & Hpl & Hdi & Hdr & _).
    cbn [playsFromHand] in Hfrom. rewrite (hand_of_found _ _ _ _ Hi Hp) in Hfrom.
    pose proof (played_card_leaves _ _ (uniqueIds_hand _ _ _ Hu Hp) Hfrom).
    pose proof (replaceCards_handSizes (players s) i
                  (filter (fun c => negb (String.eqb (card_id c) (card_id card)))
                     (cards p)) p Hp).
    unfold cardTotal. rewrite Hpl, Hdi, Hdr, length_app. simpl. lia.
  - destruct (playMultipleCards s playerId cs w) as [s1|] eqn:E;
      [|discriminate]. injection Hstep as <- <-.
    apply playMultipleCards_Ok in E
      as (i & p & sorted & Hi & Hp & Hperm & Hpl & Hdi & Hdr & _).
    cbn [playsFromHand] in Hfrom. rewrite (hand_of_found _ _ _ _ Hi Hp) in Hfrom.
    pose proof (played_cards_leave _ _ (uniqueIds_hand _ _ _ Hu Hp) Hfrom).
    pose proof (replaceCards_handSizes (players s) i
                  (filter (fun c => negb (has_card_id cs (card_id c)))
                     (cards p)) p Hp).
    apply Permutation_length in Hperm.
    unfold cardTotal. rewrite Hpl, Hdi, Hdr, length_app. lia.
  - destruct (playDiscardAll s playerId cs w) as [s1|] eqn:E;
      [|discriminate]. injection Hstep as <- <-.
    apply playDiscardAll_Ok in E
      as (i & p & Hi & Hp & Hpl & Hdi & Hdr & _).
    cbn [playsFromHand] in Hfrom. rewrite (hand_of_found _ _ _ _ Hi Hp) in Hfrom.
    pose proof (played_cards_leave _ _ (uniqueIds_hand _ _ _ Hu Hp) Hfrom).
    pose proof (replaceCards_handSizes (players s) i
                  (filter (fun c => negb (has_card_id cs (card_id c)))
                     (cards p)) p Hp).
    unfold cardTotal. rewrite Hpl, Hdi, Hdr, length_app. lia.
  - now apply drawCards_total in Hstep.
  - unfold processDrawPenalty in Hstep.
    destruct (pendingDrawCount s =? 0); [now injection Hstep as <- <-|].
    destruct (at_index (players s) (currentPlayerIndex s)) as [cur|];
      [|discriminate].
    unfold bindR in Hstep.
    destruct (drawCards s (player_id cur) (pendingDrawCount s) w)
      as [[s1 w1]|] eqn:E; [|discriminate].
    injection Hstep as <- <-. now apply drawCards_total in E.
  - unfold challengeUno in Hstep.
    destruct (findIndex (has_id targetId) (players s)); [|discriminate].
    destruct (nth_error (players s) n) as [target|]; [|discriminate].
    destruct (negb _ || _); [discriminate|].
    now apply drawCards_total in Hstep.
Qed.

Lemma transition_preserves_cardTotal_witness :
  cardTotal stackedGame = cardTotal pendingGame.
Proof.
  apply (transition_preserves_cardTotal (DoPlayCard "alice" redDraw2 None)
           pendingGame sampleEnv stackedGame sampleEnv); reflexivity.
Defined.

(** C2 as stated fails where identifiers do not identify.  Alice opens
    a room, two players join under the id bob and the game starts: 130
    cards.  A draw of 18 brings the first bob to 25 cards; the
    elimination drops both seats with that id and returns only the hand
    of the first, so the 7 cards of the second are gone and 123 remain.
    And in a hand with two cards of one id, playing one of them removes
    both from the hand and puts one on the discard pile. *)
Lemma cardTotal_drops_with_shared_ids :
  (exists s w s' w',
     play_from_start "alice" "Alice" "ABC234" 4 twinMoves sampleEnv
     = Ok (s, w)
     /\ status s = playing
     /\ map player_id (players s) = ["alice"; "bob"; "bob"]
     /\ playsFromHand s (DoDrawCards "bob" 18) = true
     /\ transition (DoDrawCards "bob" 18) s w = Ok (s', w')
     /\ cardTotal s = 130%nat
     /\ cardTotal s' = 123%nat)
  /\ (exists s' w',
        status sameIdGame = playing
        /\ playsFromHand sameIdGame (DoPlayCard "alice" red5 None) = true
        /\ transition (DoPlayCard "alice" red5 None) sameIdGame sampleEnv
           = Ok (s', w')
        /\ cardTotal sameIdGame = 5%nat
        /\ cardTotal s' = 4%nat).
Proof.
  split.
  - destruct (play_from_start "alice" "Alice" "ABC234" 4 twinMoves sampleEnv)
      as [[s w]|] eqn:E; [|vm_compute in E; discriminate E].
    destruct (transition (DoDrawCards "bob" 18) s w) as [[s' w']|] eqn:E';
      [|vm_compute in E; injection E as <- <-; vm_compute in E';
        discriminate E'].
    exists s, w, s', w'. split; [reflexivity|].
    vm_compute in E. injection E as <- <-.
    vm_compute in E'. injection E' as <- <-.
    vm_compute. repeat split.
  - destruct (transition (DoPlayCard "alice" red5 None) sameIdGame sampleEnv)
      as [[s' w']|] eqn:E; [|vm_compute in E; discriminate E].
    exists s', w'. vm_compute in E. injection E as <- <-.
    vm_compute. repeat split.
Qed.

(** ** Winning *)

(** C6: after a legal [playCard], [playMultipleCards] or
    [playDiscardAll] that leaves the hand of the player who played
    empty, the state is finished and that player is the winner,
    whatever the played card did to the turn. *)
Theorem empty_hand_wins :
  forall a playerId s w s' w',
    playedBy a = Some playerId ->
    transition a s w = Ok (s', w') ->
    handOf s' playerId = Some [] ->
    status s' = finished /\ winnerId s' = Some playerId.
Proof.
  intros a playerId s w s' w' Hby Hstep Hhand. unfold handOf in Hhand.
  destruct a as [pid card color|pid cs|pid cs| | |]; try discriminate;
    injection Hby as ->; cbn [transition] in Hstep.
  - apply playCard_Ok in Hstep as (i & p & _ & Hi & Hp & Hpl & _ & _ & Hwin).
    rewrite (handOf_replaceCards s _ _ _ _ _ Hi Hp Hpl) in Hhand.
    injection Hhand as Hhand. now apply Hwin.
  - destruct (playMultipleCards s playerId cs w) as [s1|] eqn:E;
      [|discriminate]. injection Hstep as <- <-.
    apply playMultipleCards_Ok in E
      as (i & p & sorted & Hi & Hp & _ & Hpl & _ & _ & Hwin).
    rewrite (handOf_replaceCards s _ _ _ _ _ Hi Hp Hpl) in Hhand.
    injection Hhand as Hhand. now apply Hwin.
  - destruct (playDiscardAll s playerId cs w) as [s1|] eqn:E;
      [|discriminate]. injection Hstep as <- <-.
    apply playDiscardAll_Ok in E as (i & p & Hi & Hp & Hpl & _ & _ & Hwin).
    rewrite (handOf_replaceCards s _ _ _ _ _ Hi Hp Hpl) in Hhand.
    injection Hhand as Hhand. now apply Hwin.
Qed.

Lemma empty_hand_wins_witness :
  status wonGame = finished /\ winnerId wonGame = Some "alice".
Proof.
  apply (empty_hand_wins (DoPlayCard "alice" red5 None) "alice" openGame
           sampleEnv wonGame sampleEnv); reflexivity.
Defined.

(** ** Hand membership *)

(** C10: [playCard] never looks at the hand.  Alice, whose turn it is
    and who holds only a red 5, plays a red skip: the call does not
    throw, the skip lands on the discard pile, her hand is unchanged, and
    the table holds one card more than before. *)
Theorem playCard_ignores_hand :
  exists s p card w s' w',
    getCurrentPlayer s = Some p
    /\ ~ In card (cards p)
    /\ has_card_id (cards p) (card_id card) = false
    /\ playCard s (player_id p) card None w = Ok (s', w')
    /\ discardPile s' = discardPile s ++ [card]
    /\ handOf s' (player_id p) = Some (cards p)
    /\ cardTotal s' = S (cardTotal s).
Proof.
  exists openGame, (seat "alice" [red5]), redSkip, sampleEnv, conjuredGame,
    sampleEnv.
  repeat split. intros [H|[]]. discriminate H.
Qed.

(** ** Elimination *)

Lemma findIndex_map {A B} (g : A -> B) (q : B -> bool) l :
  findIndex (fun x => q (g x)) l = findIndex q (map g l).
Proof.
  induction l as [|x l IH]; simpl; [reflexivity|]. now rewrite IH.
Qed.

Lemma findIndex_player_ids playerId ps qs :
  map player_id ps = map player_id qs ->
  findIndex (has_id playerId) ps = findIndex (has_id playerId) qs.
Proof.
  intros H. unfold has_id.
  rewrite (findIndex_map player_id (fun i => String.eqb i playerId) ps).
  rewrite (findIndex_map player_id (fun i => String.eqb i playerId) qs).
  now rewrite H.
Qed.



(** What [eliminatePlayer] returns when it finds the player. *)
Lemma eliminatePlayer_found t playerId i p w :
  findIndex (has_id playerId) (players t) = Some i ->
  nth_error (players t) i = Some p ->
  let t' := fst (eliminatePlayer t playerId w) in
  let remaining := filter (fun q => negb (has_id playerId q)) (players t) in
  players t' = remaining
  /\ Permutation (drawPile t') (drawPile t ++ cards p)
  /\ discardPile t' = discardPile t
  /\ currentPlayerIndex t' =
       (if (length remaining =? 1)%nat then Num 0
        else if lt_index i (currentPlayerIndex t)
        then js_add (currentPlayerIndex t) (-1)
        else if eq_index i (currentPlayerIndex t)
        then js_rem (currentPlayerIndex t) (Z.of_nat (length remaining))
        else currentPlayerIndex t)
  /\ (forall q, remaining = [q] ->
        status t' = finished /\ winnerId t' = Some (player_id q))
  /\ (length remaining <> 1%nat ->
        status t' = status t /\ winnerId t' = winnerId t).
Proof.
  intros Hi Hp. unfold eliminatePlayer. rewrite Hi, Hp. unfold bind.
  pose proof (shuffleDeck_perm (drawPile t ++ cards p) w) as Hs.
  destruct (shuffleDeck (drawPile t ++ cards p) w) as [d' w'].
  cbn [fst] in Hs.
  destruct (filter (fun q => negb (has_id playerId q)) (players t))
    as [|a [|b r]]; cbn; repeat (split; [solve [trivial]|]); split;
    try (intros q [= <-]; now split); try discriminate; try now split.
Qed.

Lemma afterDraw_split ps i drawn p :
  nth_error ps i = Some p ->
  afterDraw i drawn ps
  = firstn i ps
    ++ with_hasCalledUno false (with_cards (cards p ++ drawn) p)
    :: skipn (S i) ps.
Proof.
  intros H. unfold afterDraw.
  exact (mapi_update (fun q => with_hasCalledUno false
                                 (with_cards (cards q ++ drawn) q)) _ _ _ H).
Qed.

Lemma afterDraw_player_ids ps i drawn :
  map player_id (afterDraw i drawn ps) = map player_id ps.
Proof.
  unfold afterDraw, mapi. apply mapi_from_player_ids.
  intros idx q. now destruct (idx =? i)%nat.
Qed.

(** [drawCards] on a player it finds: the loop runs, the player takes
    the drawn cards, and a hand of 25 or more eliminates the player. *)
Lemma drawCards_found s playerId count w i p d c n w1 :
  findIndex (has_id playerId) (players s) = Some i ->
  nth_error (players s) i = Some p ->
  drawLoop (Z.to_nat count) (drawPile s, discardPile s, []) w
  = (d, c, n, w1) ->
  let t := with_discardPile c (with_drawPile d
             (with_players (afterDraw i n (players s)) s)) in
  drawCards s playerId count w =
    if (25 <=? length (cards p ++ n))%nat
    then Ok (eliminatePlayer t playerId w1)
    else Ok (with_updatedAt (now w1) t, w1).
Proof.
  intros Hi Hp Hloop. unfold drawCards. rewrite Hi.
  unfold bindR, liftM. rewrite Hloop. fold (afterDraw i n (players s)).
  unfold afterDraw at 1. rewrite mapi_nth, Hp. cbn [option_map].
  rewrite Nat.eqb_refl. cbn [cards with_cards with_hasCalledUno].
  now destruct (25 <=? length (cards p ++ n))%nat.
Qed.




(** ** Paying a pending draw *)

Lemma findIndex_In {A} (q : A -> bool) l x :
  In x l -> q x = true -> exists i, findIndex q l = Some i.
Proof.
  induction l as [|y l IH]; intros Hin Hq; [contradiction|]. simpl.
  destruct (q y) eqn:Hy; [eauto|].
  destruct Hin as [->|Hin]; [congruence|].
  destruct (IH Hin Hq) as [i ->]. eauto.
Qed.



(** [processDrawPenalty] makes one call of [drawCards], for the current
    player and the whole pending count, clears the pending draw and
    advances the turn of the state that call returned. *)
Lemma processDrawPenalty_single_draw s w cur :
  pendingDrawCount s > 0 ->
  getCurrentPlayer s = Some cur ->
  exists d w1,
    drawCards s (player_id cur) (pendingDrawCount s) w = Ok (d, w1)
    /\ processDrawPenalty s w =
         Ok (with_currentPlayerIndex (getNextPlayerIndex d 1)
               (with_pendingDrawType None (with_pendingDrawCount 0 d)), w1).
Proof.
  intros Hpos Hcur. unfold processDrawPenalty, getCurrentPlayer in *.
  destruct (Z.eqb_spec (pendingDrawCount s) 0) as [E|E]; [lia|]. rewrite Hcur.
  assert (Hin : In cur (players s)).
  { unfold at_index in Hcur. destruct (currentPlayerIndex s); [|discriminate].
    destruct (z <? 0); [discriminate|]. eapply nth_error_In, Hcur. }
  destruct (findIndex_In (has_id (player_id cur)) _ _ Hin
              (String.eqb_refl _)) as [i Hi].
  destruct (findIndex_Some _ _ _ Hi) as (p & Hp & _).
  destruct (drawLoop (Z.to_nat (pendingDrawCount s))
              (drawPile s, discardPile s, []) w) as [[[d c] n] w1] eqn:Hloop.
  unfold bindR.
  rewrite (drawCards_found _ _ _ _ _ _ _ _ _ _ Hi Hp Hloop).
  destruct (25 <=? length (cards p ++ n))%nat.
  - destruct (eliminatePlayer _ (player_id cur) w1) as [t w2]. eauto.
  - eauto.
Qed.


(** A draw2 paid by a player who stays in the game: bob, one step
    after alice, is next. *)
Lemma processDrawPenalty_keeps_turn_order :
  resultState (processDrawPenalty smallPenaltyGame sampleEnv)
  = Some smallPenaltyPaidGame
  /\ currentPlayerIndex smallPenaltyPaidGame
     = getNextPlayerIndex smallPenaltyGame 1
  /\ option_map player_id (getCurrentPlayer smallPenaltyPaidGame)
     = Some "bob".
Proof. repeat split. Qed.

(** C8 at the failing input: alice sits in the last of three seats,
    holds 23 cards and pays a draw2.  One call of [drawCards] eliminates
    her, the pending draw is cleared, and the turn lands on seat 1 of the
    new roster, carol, although one step from alice's seat leads to
    seat 0, bob. *)
Theorem processDrawPenalty_skips_a_seat :
  resultState (processDrawPenalty penaltyGame sampleEnv)
  = Some penaltyPaidGame
  /\ pendingDrawCount penaltyPaidGame = 0
  /\ pendingDrawType penaltyPaidGame = None
  /\ map player_id (players penaltyPaidGame) = ["bob"; "carol"]
  /\ currentPlayerIndex penaltyPaidGame = Num 1
  /\ option_map player_id (getCurrentPlayer penaltyPaidGame) = Some "carol"
  /\ getNextPlayerIndex penaltyGame 1 = Num 0.
Proof. repeat split. Qed.

(** ** Automated player *)

Lemma insert_sorted_perm {A} (cmp : A -> A -> Z) x l :
  Permutation (insert_sorted cmp x l) (x :: l).
Proof.
  induction l as [|y l IH]; simpl; [reflexivity|].
  destruct (cmp x y <=? 0); [reflexivity|].
  rewrite IH. apply perm_swap.
Qed.

Lemma sort_perm {A} (cmp : A -> A -> Z) l : Permutation (sort cmp l) l.
Proof.
  induction l as [|x l IH]; simpl; [reflexivity|].
  rewrite insert_sorted_perm. now apply perm_skip.
Qed.

Lemma head_In {A} (l : list A) :
  (0 <? length l)%nat = true -> exists c, nth_error l 0 = Some c /\ In c l.
Proof.
  destruct l as [|c l]; [discriminate|]. intros _. exists c.
  split; [reflexivity|now left].
Qed.

Lemma head_filter_In {A} (q : A -> bool) l :
  (0 <? length (filter q l))%nat = true ->
  exists c, nth_error (filter q l) 0 = Some c /\ In c l.
Proof.
  intros H. destruct (head_In _ H) as (c & Hc & Hin). exists c.
  split; [assumption|]. now apply filter_In in Hin.
Qed.

Lemma head_sort_filter_In {A} (cmp : A -> A -> Z) (q : A -> bool) l :
  (0 <? length (filter q l))%nat = true ->
  exists c, nth_error (sort cmp (filter q l)) 0 = Some c /\ In c l.
Proof.
  intros H. rewrite <- (Permutation_length (sort_perm cmp (filter q l))) in H.
  destruct (head_In _ H) as (c & Hc & Hin). exists c.
  split; [assumption|].
  apply (Permutation_in _ (sort_perm cmp (filter q l))) in Hin.
  now apply filter_In in Hin.
Qed.

Lemma nonempty_head {A} (l : list A) :
  l <> [] -> exists c, nth_error l 0 = Some c /\ In c l.
Proof.
  destruct l as [|c l]; [congruence|]. intros _. exists c.
  split; [reflexivity|now left].
Qed.

Lemma selectMediumDifficulty_legal playableCards s :
  playableCards <> [] ->
  exists c,
    selectMediumDifficulty playableCards s = Some c /\ In c playableCards.
Proof.
  intros Hne. unfold selectMediumDifficulty.
  destruct (few_cards (getNextPlayer s) 3); cbn [andb];
    repeat match goal with
           | |- context [if (0 <? length (filter ?q ?l))%nat then _ else _] =>
               destruct (0 <? length (filter q l))%nat eqn:?
           end;
    auto using head_sort_filter_In, head_filter_In, nonempty_head.
Qed.

Lemma selectHardDifficulty_legal playableCards s player :
  playableCards <> [] ->
  exists c,
    selectHardDifficulty playableCards s player = Some c
    /\ In c playableCards.
Proof.
  intros Hne. unfold selectHardDifficulty.
  destruct (few_cards (getNextPlayer s) 2); cbn [andb];
    destruct (dominantColor (cards player)) as [dom|];
    repeat match goal with
           | |- context [if (0 <? length ?l)%nat then _ else _] =>
               destruct (0 <? length l)%nat eqn:?
           end;
    auto using head_sort_filter_In, head_filter_In, nonempty_head;
    try discriminate.
  all: match goal with
       | H : (0 <? length (filter ?q (filter ?r ?l)))%nat = true |- _ =>
           destruct (head_filter_In q (filter r l) H) as (c & Hc & Hin);
           exists c; split; [exact Hc|]; now apply filter_In in Hin
       end.
Qed.

Lemma randomBelow_lt n w : (0 < n)%nat -> (fst (randomBelow n w) < n)%nat.
Proof.
  intros H. unfold randomBelow. destruct n; [lia|]. cbn [fst].
  apply Nat.mod_upper_bound. lia.
Qed.

(** Given a legal card, [selectCardToPlay] returns a play of a legal
    card. *)
Lemma selectCardToPlay_legal s player playableCards difficulty w :
  playableCards <> [] ->
  exists decision w',
    selectCardToPlay s player playableCards difficulty w = Ok (decision, w')
    /\ action decision = play
    /\ exists c, decision_card decision = Some c /\ In c playableCards.
Proof.
  intros Hne. unfold selectCardToPlay.
  destruct ((0 <? length (filter _ playableCards))%nat && _ && _) eqn:Hda.
  - apply andb_true_iff in Hda as [Hda _].
    apply andb_true_iff in Hda as [Hda _].
    destruct (head_filter_In _ _ Hda) as (c & Hc & Hin).
    unfold retR. rewrite Hc. eexists _, _. split; [reflexivity|]. cbn. eauto.
  - assert (Hsel : exists c w1,
               (match difficulty with
                | easy =>
                    idx <-- liftM (randomBelow (length playableCards)) ;;
                    retR (nth_error playableCards idx)
                | medium => retR (selectMediumDifficulty playableCards s)
                | hard => retR (selectHardDifficulty playableCards s player)
                end) w = Ok (Some c, w1) /\ In c playableCards).
    { destruct difficulty.
      - unfold bindR, liftM, retR.
        pose proof (randomBelow_lt (length playableCards) w) as Hlt.
        destruct (randomBelow (length playableCards) w) as [idx w1].
        cbn [fst] in Hlt.
        destruct (nth_error playableCards idx) as [c|] eqn:Hc.
        + exists c, w1. split; [reflexivity|]. eapply nth_error_In, Hc.
        + apply nth_error_None in Hc.
          destruct playableCards; [congruence|]. simpl in *. lia.
      - destruct (selectMediumDifficulty_legal playableCards s Hne)
          as (c & -> & Hin). unfold retR. eauto.
      - destruct (selectHardDifficulty_legal playableCards s player Hne)
          as (c & -> & Hin). unfold retR. eauto. }
    destruct Hsel as (c & w1 & Hsel & Hin).
    unfold bindR at 1. rewrite Hsel.
    destruct (color_eqb (card_color c) wild_color).
    + unfold bindR, liftM, retR.
      destruct (selectBestColor (cards player) w1) as [col w2].
      eexists _, _. split; [reflexivity|]. cbn. eauto.
    + unfold retR. eexists _, _. split; [reflexivity|]. cbn. eauto.
Qed.


(** Whenever the player has a legal card, [makeAIDecision] returns one
    of the legal cards, never a draw; a player who holds two cards gets
    the declaration with it. *)
Lemma makeAIDecision_legal s playerId difficulty player playableCards w :
  find_first (has_id playerId) (players s) = Some player ->
  getPlayableCards s playerId = Ok playableCards ->
  playableCards <> [] ->
  exists decision w',
    makeAIDecision s playerId difficulty w = Ok (decision, w')
    /\ action decision <> draw
    /\ (exists c, decision_card decision = Some c /\ In c playableCards)
    /\ (length (cards player) = 2%nat -> action decision = call_uno).
Proof.
  intros Hfind Hplay Hne. unfold makeAIDecision.
  rewrite Hfind. unfold bindR at 1, liftR, bindRes. rewrite Hplay.
  destruct (Nat.eqb_spec (length playableCards) 0) as [E|E].
  { destruct playableCards; [congruence|discriminate]. }
  destruct (selectCardToPlay_legal s player playableCards difficulty w Hne)
    as (decision & w' & Hsel & Hact & Hcard).
  destruct ((length (cards player) =? 2)%nat
            && (0 <? length playableCards)%nat) eqn:Htwo.
  - unfold bindR, retR. rewrite Hsel.
    eexists _, _. split; [reflexivity|]. cbn.
    repeat split; [discriminate|exact Hcard].
  - rewrite Hsel. exists decision, w'. split; [reflexivity|].
    rewrite Hact. repeat split; [discriminate|exact Hcard|].
    intros Hlen. rewrite Hlen in Htwo. cbn in Htwo.
    destruct playableCards; [congruence|discriminate].
Qed.

(** C9 at the failing input: alice holds a red discard_all, two more
    red cards and a blue 9, and red is the current colour.  The medium
    and the hard player both choose the discard_all together with the
    three red cards; that play leaves alice with one card, yet the
    decision is a plain [play], without the [call_uno] declaration. *)
Theorem makeAIDecision_misses_declaration :
  makeAIDecision discardAllGame "alice" medium sampleEnv
  = Ok (mkDecision play (Some redDiscardAll)
          (Some [redDiscardAll; red5; red7]) (Some red), sampleEnv)
  /\ makeAIDecision discardAllGame "alice" hard sampleEnv
     = Ok (mkDecision play (Some redDiscardAll)
             (Some [redDiscardAll; red5; red7]) (Some red), sampleEnv)
  /\ playDiscardAll discardAllGame "alice" [redDiscardAll; red5; red7]
       sampleEnv = Ok discardedGame
  /\ handOf discardedGame "alice" = Some [blue9].
Proof. repeat split. Qed.

(** ** The current colour *)

Lemma startingColor_not_wild c : is_wild_color (startingColor c) = false.
Proof.
  unfold startingColor, is_wild_color.
  destruct (color_eqb (card_color c) wild_color) eqn:E; [reflexivity|exact E].
Qed.

Lemma eliminatePlayer_color s playerId w :
  currentColor (fst (eliminatePlayer s playerId w)) = currentColor s.
Proof.
  unfold eliminatePlayer.
  destruct (findIndex (has_id playerId) (players s)) as [i|]; [|reflexivity].
  destruct (nth_error (players s) i) as [p|]; [|reflexivity].
  unfold bind. destruct (shuffleDeck _ w) as [d w'].
  now destruct (filter _ (players s)) as [|a [|b r]].
Qed.

Lemma drawCards_color s playerId count w s' w' :
  drawCards s playerId count w = Ok (s', w') ->
  currentColor s' = currentColor s.
Proof.
  unfold drawCards.
  destruct (findIndex (has_id playerId) (players s)) as [i|]; [|discriminate].
  unfold bindR, liftM.
  destruct (drawLoop _ _ w) as [[[d c] n] w1].
  destruct (nth_error _ i) as [p|]; [|discriminate].
  destruct (25 <=? _)%nat.
  - intros [= H]. change s' with (fst (s', w')). rewrite <- H.
    now rewrite eliminatePlayer_color.
  - now intros [= <- <-].
Qed.

Lemma handleCardEffect_color s card playerId color w :
  is_wild_color (currentColor s) = false ->
  match color with
  | Some c => is_wild_color (card_color card) && is_wild_color c = false
  | None => True
  end ->
  is_wild_color (currentColor (fst (handleCardEffect s card playerId color w)))
  = false.
Proof.
  intros Hs Hc. unfold handleCardEffect.
  set (newState := match color_eqb (card_color card) wild_color, color with
                   | true, Some c => with_currentColor c s
                   | true, None => s
                   | false, _ => with_currentColor (card_color card) s
                   end).
  assert (Hn : is_wild_color (currentColor newState) = false).
  { subst newState. unfold is_wild_color in Hc at 1.
    destruct (color_eqb (card_color card) wild_color) eqn:E;
      destruct color; cbn; trivial. }
  clearbody newState.
  destruct (card_type card); try exact Hn.
  - now destruct (length (players s) =? 2)%nat.
  - unfold bind. destruct (randomBelow (length COLORS) w) as [idx w1].
    unfold ret, nextColor. destruct idx as [|[|[|[|[|?]]]]]; reflexivity.
Qed.

Lemma checkWinner_color newCards playerId s :
  currentColor (checkWinner newCards playerId s) = currentColor s.
Proof. unfold checkWinner. now destruct (length newCards =? 0)%nat. Qed.

Lemma transition_color a s w s' w' :
  is_wild_color (currentColor s) = false ->
  namesWild (InPlay a) = false ->
  transition a s w = Ok (s', w') ->
  is_wild_color (currentColor s') = false.
Proof.
  intros Hs Hn.
  destruct a as [playerId card color|playerId cs|playerId cs|playerId count|
                 |challengerId targetId]; cbn [transition].
  - unfold playCard, bindR, liftR, bindRes.
    destruct (canPlayCard s card playerId) as [[|]|]; try discriminate.
    cbn [negb].
    destruct (findIndex _ (players s)) as [i|]; [|discriminate].
    destruct (nth_error (players s) i) as [p|]; [|discriminate].
    match goal with
    | |- context [handleCardEffect ?st card playerId color w] =>
        pose proof (handleCardEffect_color st card playerId color w Hs) as Hc;
        destruct (handleCardEffect st card playerId color w) as [s1 w1]
    end.
    intros [= <- <-]. rewrite checkWinner_color. apply Hc.
    destruct color as [c|]; [exact Hn|exact I].
  - unfold playMultipleCards, bindRes.
    destruct (canPlayMultipleCards s cs playerId) as [[|]|]; try discriminate.
    cbn [negb].
    destruct (sortR _ cs) as [sorted|]; [|discriminate].
    destruct (findIndex _ (players s)) as [i|]; [|discriminate].
    destruct (nth_error (players s) i) as [p|]; [|discriminate].
    destruct (last_elem sorted) as [lastCard|]; [|discriminate].
    intros [= <- <-]. rewrite checkWinner_color. cbn.
    destruct (color_eqb (card_color lastCard) wild_color) eqn:E;
      [exact Hs|exact E].
  - unfold playDiscardAll.
    destruct cs as [|c0 cs0] eqn:Ecs; [discriminate|]. rewrite <- Ecs.
    destruct (negb (forallb _ cs)); [discriminate|].
    destruct (negb (color_eqb _ _)); [discriminate|].
    destruct (findIndex _ (players s)) as [i|]; [|discriminate].
    destruct (nth_error (players s) i) as [p|]; [|discriminate].
    cbn [bindRes]. intros [= <- <-]. now rewrite checkWinner_color.
  - intros H. now rewrite (drawCards_color _ _ _ _ _ _ H).
  - unfold processDrawPenalty.
    destruct (pendingDrawCount s =? 0); [now intros [= <- <-]|].
    destruct (at_index _ _) as [cur|]; [|discriminate].
    unfold bindR.
    destruct (drawCards s (player_id cur) (pendingDrawCount s) w)
      as [[s1 w1]|] eqn:E; [|discriminate].
    intros [= <- <-]. cbn. now rewrite (drawCards_color _ _ _ _ _ _ E).
  - unfold challengeUno.
    destruct (findIndex _ (players s)) as [i|]; [|discriminate].
    destruct (nth_error (players s) i) as [target|]; [|discriminate].
    destruct (negb _ || _); [discriminate|].
    intros H. now rewrite (drawCards_color _ _ _ _ _ _ H).
Qed.

Lemma startGame_color s w s' w' :
  startGame s w = Ok (s', w') -> is_wild_color (currentColor s') = false.
Proof.
  unfold startGame. destruct (status s); try discriminate.
  destruct (length (players s) <? 2)%nat; [discriminate|].
  unfold bindR, liftM.
  destruct ((d <- createDeck ;; shuffleDeck d) w) as [deck w1].
  destruct (dealAll (players s) deck) as [updatedPlayers deck'].
  destruct (nth_error deck' _) as [startingCard|]; [|discriminate].
  intros [= <- <-]. cbn. apply startingColor_not_wild.
Qed.

Lemma operate_color o s w s' w' :
  is_wild_color (currentColor s) = false ->
  namesWild o = false ->
  operate o s w = Ok (s', w') ->
  is_wild_color (currentColor s') = false.
Proof.
  intros Hs Hn. destruct o as [a|playerId playerName isAI_| |playerId];
    cbn [operate].
  - now apply transition_color.
  - unfold addPlayer. destruct (_ >=? _); [discriminate|].
    destruct (status s); try discriminate. cbn. now intros [= <- <-].
  - apply startGame_color.
  - unfold callUno.
    destruct (findIndex _ (players s)) as [i|]; [|discriminate].
    destruct (nth_error (players s) i) as [p|]; [|discriminate].
    destruct (negb _); [discriminate|]. cbn. now intros [= <- <-].
Qed.

Lemma run_color ops s w s' w' :
  is_wild_color (currentColor s) = false ->
  existsb namesWild ops = false ->
  run ops s w = Ok (s', w') ->
  is_wild_color (currentColor s') = false.
Proof.
  revert s w. induction ops as [|o ops IH]; intros s w Hs Hn; cbn [run].
  - now intros [= <- <-].
  - cbn [existsb] in Hn. apply orb_false_iff in Hn as [Ho Hn].
    unfold bindR. destruct (operate o s w) as [[s1 w1]|] eqn:E;
      [|discriminate].
    apply IH; [|assumption]. eapply operate_color; eassumption.
Qed.

Lemma initializeGame_color hostId_ hostName roomCode_ maxPlayers_ w s w' :
  initializeGame hostId_ hostName roomCode_ maxPlayers_ w = Ok (s, w') ->
  is_wild_color (currentColor s) = false.
Proof.
  unfold initializeGame, bindR, liftM.
  destruct ((d <- createDeck ;; shuffleDeck d) w) as [deck w1].
  destruct (dealCards deck 7) as [hostCards afterHostDeal].
  destruct (uuidv4 w1) as [gid w2].
  destruct (nth_error afterHostDeal _) as [startingCard|]; [|discriminate].
  intros [= <- <-]. cbn. apply startingColor_not_wild.
Qed.

(** The colour is guarded everywhere but in one place: in every state
    that [initializeGame] and a sequence of operations of the engine
    produce, the current colour is one of red, blue, green and yellow,
    as long as no [playCard] of the sequence played a colourless card
    with ['wild'] as its [selectedColor].  A ['wild'] given along with a
    coloured card is not read. *)
Theorem currentColor_not_wild :
  forall hostId_ hostName roomCode_ maxPlayers_ ops w s w',
    existsb namesWild ops = false ->
    play_from_start hostId_ hostName roomCode_ maxPlayers_ ops w
    = Ok (s, w') ->
    is_wild_color (currentColor s) = false.
Proof.
  intros hostId_ hostName roomCode_ maxPlayers_ ops w s w' Hn.
  unfold play_from_start, bindR.
  destruct (initializeGame hostId_ hostName roomCode_ maxPlayers_ w)
    as [[s0 w0]|] eqn:E; [|discriminate].
  apply run_color; [|assumption]. eapply initializeGame_color, E.
Qed.

Lemma currentColor_not_wild_witness :
  is_wild_color (currentColor blueGame) = false.
Proof.
  apply (currentColor_not_wild "alice" "Alice" "ABC234" 4
           (openingMoves ++ [InPlay (DoPlayCard "alice" dealtWild (Some blue))])
           sampleEnv blueGame blueEnv);
    vm_compute; reflexivity.
Defined.

Lemma dealtWild_dealt :
  match resultState
          (play_from_start "alice" "Alice" "ABC234" 4 openingMoves sampleEnv)
  with
  | Some s => option_map (fun hand => nth_error hand 2) (handOf s "alice")
              = Some (Some dealtWild)
  | None => False
  end.
Proof. vm_compute. reflexivity. Qed.

(** C5 at the failing input: alice opens a room, bob joins, the game
    starts, and alice plays the colourless card she was dealt with
    [selectedColor] ['wild'].  [handleCardEffect] copies the argument
    unread, and the current colour of the game in progress is then
    ['wild'], which every other write to the current colour excludes. *)
Theorem currentColor_wild_after_naming_wild :
  exists s w',
    wildRun = Ok (s, w')
    /\ handOf s "bob" <> None
    /\ status s = playing
    /\ currentColor s = wild_color.
Proof.
  destruct wildRun as [[s w']|] eqn:E; [|vm_compute in E; discriminate E].
  exists s, w'. split; [reflexivity|].
  assert (Hs : resultState wildRun = Some s) by now rewrite E.
  vm_compute in Hs. injection Hs as <-.
  repeat split. discriminate.
Qed.

(** * Further properties of the engine *)

(** ** Shuffling and dealing *)

(** X1: [shuffleDeck] returns a permutation of its input; it draws one
    random number per position but the first and touches nothing else
    of the environment. *)
Theorem shuffleDeck_permutes :
  forall deck w,
    Permutation (fst (shuffleDeck deck w)) deck
    /\ rand_pos (snd (shuffleDeck deck w))
       = (rand_pos w + (length deck - 1))%nat
    /\ uuid_pos (snd (shuffleDeck deck w)) = uuid_pos w.
Proof.
  intros deck w. split; [apply shuffleDeck_perm|].
  destruct (shuffleLoop_env (length deck - 1) deck w) as (H1 & H2 & _).
  now split.
Qed.

(** X2: [dealCards] splits the deck without loss or duplication: the
    dealt cards followed by the remainder are the deck, and the dealt
    cards are [numCards] many, or the whole deck when it is shorter. *)
Theorem dealCards_partitions :
  forall deck numCards,
    fst (dealCards deck numCards) ++ snd (dealCards deck numCards) = deck
    /\ length (fst (dealCards deck numCards))
       = Nat.min numCards (length deck)
    /\ length (snd (dealCards deck numCards))
       = (length deck - numCards)%nat.
Proof.
  intros deck numCards. unfold dealCards. cbn [fst snd].
  split; [apply firstn_skipn|]. split; [apply length_firstn|].
  apply length_skipn.
Qed.

(** ** Setting up a game *)

Lemma Permutation_filter_length {A} (q : A -> bool) l l' :
  Permutation l l' -> length (filter q l) = length (filter q l').
Proof.
  induction 1 as [|x l l' _ IH|x y l|l l' l'' _ IH1 _ IH2]; simpl.
  - reflexivity.
  - destruct (q x); simpl; now rewrite IH.
  - destruct (q x), (q y); reflexivity.
  - now rewrite IH1.
Qed.

Lemma filter_skipn_length {A} (q : A -> bool) k l :
  (length (filter q l) <= length (filter q (skipn k l)) + k)%nat.
Proof.
  rewrite <- (firstn_skipn k l) at 1. rewrite filter_app, length_app.
  pose proof (filter_length_le q (firstn k l)).
  pose proof (firstn_le_length k l). lia.
Qed.

Lemma findIndex_exists {A} (q : A -> bool) l :
  (0 < length (filter q l))%nat ->
  exists i x, findIndex q l = Some i /\ nth_error l i = Some x /\ q x = true.
Proof.
  intros H. destruct (filter q l) as [|x r] eqn:E; [simpl in H; lia|].
  assert (Hx : In x (filter q l)) by (rewrite E; now left).
  apply filter_In in Hx as [Hin Hq].
  destruct (findIndex_In q l x Hin Hq) as [i Hi].
  destruct (findIndex_Some _ _ _ Hi) as (y & Hy & Hqy & _). eauto.
Qed.

Lemma remove_at_perm i deck x :
  nth_error deck i = Some x -> Permutation (x :: remove_at i deck) deck.
Proof.
  intros H. unfold remove_at. rewrite (nth_error_split_at _ _ _ H) at 3.
  apply Permutation_middle.
Qed.

Lemma fresh_deck w deck w1 :
  (d <- createDeck ;; shuffleDeck d) w = (deck, w1) ->
  Permutation deck (fst (createDeck w)).
Proof.
  unfold bind. destruct (createDeck w) as [d w0]. intros H.
  change deck with (fst (deck, w1)). rewrite <- H. apply shuffleDeck_perm.
Qed.

Lemma createDeck_forall (P : CardType * CardColor * option Z -> bool) w c :
  forallb P deckFaces = true ->
  In c (fst (createDeck w)) -> P (face c) = true.
Proof.
  intros HP Hin. apply (proj1 (forallb_forall P deckFaces) HP).
  pose proof (in_map face _ _ Hin) as H.
  rewrite createDeck_faces in H. exact H.
Qed.

Lemma filter_number_faces l :
  length (filter is_number l)
  = length (filter number_face (map face l)).
Proof.
  induction l as [|c l IH]; [reflexivity|].
  cbn [filter map]. change (number_face (face c)) with (is_number c).
  destruct (is_number c); cbn [length]; now rewrite IH.
Qed.

Lemma deckFaces_numbers : length (filter number_face deckFaces) = 76%nat.
Proof. vm_compute. reflexivity. Qed.

Lemma deckFaces_colored_numbers : forallb colored_number deckFaces = true.
Proof. vm_compute. reflexivity. Qed.

Lemma createDeck_numbers w :
  length (filter is_number (fst (createDeck w))) = 76%nat.
Proof.
  rewrite filter_number_faces, createDeck_faces. apply deckFaces_numbers.
Qed.

Lemma number_card_colored w deck c :
  Permutation deck (fst (createDeck w)) ->
  In c deck -> is_number c = true -> startingColor c = card_color c.
Proof.
  intros Hperm Hin Hnum.
  apply (Permutation_in _ Hperm) in Hin.
  pose proof (createDeck_forall colored_number w c
                deckFaces_colored_numbers Hin) as H.
  unfold colored_number, number_face, face in H. cbn [fst snd] in H.
  unfold is_number in Hnum. rewrite Hnum in H. cbn [negb orb] in H.
  unfold startingColor.
  destruct (color_eqb (card_color c) wild_color);
    [discriminate H|reflexivity].
Qed.

(** X3: [initializeGame] never throws.  The game waits for players, the
    host holds 7 cards, the discard pile is one number card whose colour
    is the current colour, 122 cards are left to draw, and the cards of
    the state are together a full deck. *)
Theorem initializeGame_deals :
  forall hostId_ hostName roomCode_ maxPlayers_ w,
    exists s w' host top,
      initializeGame hostId_ hostName roomCode_ maxPlayers_ w = Ok (s, w')
      /\ status s = waiting
      /\ players s = [host]
      /\ player_id host = hostId_ /\ isHost host = true
      /\ length (cards host) = 7%nat
      /\ discardPile s = [top]
      /\ card_type top = number
      /\ currentColor s = card_color top
      /\ length (drawPile s) = 122%nat
      /\ currentPlayerIndex s = Num 0
      /\ pendingDrawCount s = 0
      /\ Permutation (allCards s) (fst (createDeck w)).
Proof.
  intros hostId_ hostName roomCode_ maxPlayers_ w.
  unfold initializeGame, bindR, liftM.
  destruct ((d <- createDeck ;; shuffleDeck d) w) as [deck w1] eqn:E.
  apply fresh_deck in E.
  assert (Hlen : length deck = 130%nat).
  { rewrite (Permutation_length E). apply createDeck_length. }
  assert (Hnum : length (filter is_number deck) = 76%nat).
  { rewrite (Permutation_filter_length _ _ _ E). apply createDeck_numbers. }
  unfold dealCards. cbv beta iota zeta.
  destruct (findIndex_exists is_number (skipn 7 deck))
    as (i & top & Hi & Htop & Hn).
  { pose proof (filter_skipn_length is_number 7 deck). lia. }
  rewrite Hi. destruct (uuidv4 w1) as [gid w2]. rewrite Htop.
  assert (Hty : card_type top = number).
  { pose proof Hn as Hb. unfold is_number in Hb.
    destruct (type_eqb_spec (card_type top) number);
      [assumption|discriminate Hb]. }
  eexists _, _, _, top. split; [reflexivity|].
  assert (Hin : In top deck).
  { rewrite <- (firstn_skipn 7 deck). apply in_or_app. right.
    eapply nth_error_In, Htop. }
  assert (Hrem : Permutation (top :: remove_at i (skipn 7 deck))
                   (skipn 7 deck)) by (apply remove_at_perm; exact Htop).
  cbn [status players player_id isHost cards discardPile currentColor
       drawPile currentPlayerIndex pendingDrawCount].
  repeat (split; [reflexivity|]).
  cbn [cards].
  split; [rewrite length_firstn; lia|].
  split; [reflexivity|].
  split; [exact Hty|].
  split; [exact (number_card_colored w deck top E Hin Hn)|].
  split.
  { apply Permutation_length in Hrem. cbn [length] in Hrem.
    rewrite length_skipn in Hrem. lia. }
  repeat (split; [reflexivity|]).
  unfold allCards.
  cbn [players cards drawPile discardPile map concat].
  rewrite app_nil_r. apply Permutation_trans with deck; [|exact E].
  apply Permutation_trans with (firstn 7 deck ++ skipn 7 deck);
    [|rewrite firstn_skipn; reflexivity].
  apply Permutation_app_head.
  apply Permutation_trans with (top :: remove_at i (skipn 7 deck));
    [apply Permutation_sym, Permutation_cons_append|exact Hrem].
Qed.

Lemma dealAll_concat ps deck :
  concat (map cards (fst (dealAll ps deck))) ++ snd (dealAll ps deck) = deck.
Proof.
  revert deck. induction ps as [|p ps IH]; intros deck; [reflexivity|].
  cbn [dealAll]. unfold dealCards.
  specialize (IH (skipn 7 deck)).
  destruct (dealAll ps (skipn 7 deck)) as [rest deck'].
  cbn -[firstn skipn] in *.
  rewrite <- app_assoc, IH. apply firstn_skipn.
Qed.

Lemma dealAll_ids ps deck :
  map player_id (fst (dealAll ps deck)) = map player_id ps.
Proof.
  revert deck. induction ps as [|p ps IH]; intros deck; [reflexivity|].
  cbn [dealAll]. unfold dealCards.
  specialize (IH (skipn 7 deck)).
  destruct (dealAll ps (skipn 7 deck)) as [rest deck'].
  cbn -[firstn skipn] in *. now rewrite IH.
Qed.

Lemma dealAll_rest_length ps deck :
  length (snd (dealAll ps deck)) = (length deck - 7 * length ps)%nat.
Proof.
  revert deck. induction ps as [|p ps IH]; intros deck.
  - cbn. lia.
  - cbn [dealAll]. unfold dealCards.
    specialize (IH (skipn 7 deck)).
    destruct (dealAll ps (skipn 7 deck)) as [rest deck']. cbn [snd] in *.
    rewrite IH, length_skipn. cbn [length]. lia.
Qed.

Lemma dealAll_hands ps deck :
  (7 * length ps <= length deck)%nat ->
  Forall (fun p => length (cards p) = 7%nat /\ hasCalledUno p = false)
    (fst (dealAll ps deck)).
Proof.
  revert deck. induction ps as [|p ps IH]; intros deck Hlen.
  - constructor.
  - cbn [dealAll]. unfold dealCards.
    specialize (IH (skipn 7 deck)).
    destruct (dealAll ps (skipn 7 deck)) as [rest deck']. cbn [fst] in *.
    cbn [length] in Hlen. constructor.
    + cbn -[firstn]. rewrite length_firstn. split; [lia|reflexivity].
    + apply IH. rewrite length_skipn. lia.
Qed.

(** X4: on a waiting game with 2 to 18 players [startGame] succeeds.
    Every player, in the order of the roster, holds 7 cards and has no
    declaration; one card lies on the discard pile; the first seat is to
    play clockwise with no draw pending; and the cards of the state are
    together a full fresh deck, whatever the hands held before.  With at
    most 10 players the discard is a number card and gives the colour. *)
Theorem startGame_deals :
  forall s w,
    status s = waiting ->
    (2 <= length (players s) <= 18)%nat ->
    exists s' w' top,
      startGame s w = Ok (s', w')
      /\ status s' = playing
      /\ map player_id (players s') = map player_id (players s)
      /\ Forall (fun p => length (cards p) = 7%nat /\ hasCalledUno p = false)
           (players s')
      /\ discardPile s' = [top]
      /\ currentPlayerIndex s' = Num 0
      /\ direction s' = 1
      /\ pendingDrawCount s' = 0
      /\ pendingDrawType s' = None
      /\ is_wild_color (currentColor s') = false
      /\ Permutation (allCards s') (fst (createDeck w))
      /\ ((length (players s) <= 10)%nat ->
          card_type top = number /\ currentColor s' = card_color top).
Proof.
  intros s w Hst Hn. unfold startGame. rewrite Hst.
  destruct (Nat.ltb_spec (length (players s)) 2) as [Hlt|_]; [lia|].
  unfold bindR, liftM.
  destruct ((d <- createDeck ;; shuffleDeck d) w) as [deck w1] eqn:E.
  apply fresh_deck in E.
  assert (Hlen : length deck = 130%nat).
  { rewrite (Permutation_length E). apply createDeck_length. }
  assert (Hnum : length (filter is_number deck) = 76%nat).
  { rewrite (Permutation_filter_length _ _ _ E). apply createDeck_numbers. }
  pose proof (dealAll_concat (players s) deck) as Hcat.
  pose proof (dealAll_ids (players s) deck) as Hids.
  pose proof (dealAll_rest_length (players s) deck) as Hrest.
  pose proof (dealAll_hands (players s) deck) as Hhands.
  destruct (dealAll (players s) deck) as [ps' deck'].
  cbn [fst snd] in Hcat, Hids, Hrest, Hhands.
  set (i := match findIndex is_number deck' with
            | Some i => i
            | None => O
            end).
  assert (Hi : (i < length deck')%nat).
  { subst i. destruct (findIndex is_number deck') as [j|] eqn:Hj; [|lia].
    destruct (findIndex_Some _ _ _ Hj) as (x & Hx & _).
    apply nth_error_Some. congruence. }
  destruct (nth_error deck' i) as [top|] eqn:Htop;
    [|apply nth_error_None in Htop; lia].
  eexists _, _, top. split; [reflexivity|].
  cbn [status players discardPile currentPlayerIndex direction
       pendingDrawCount pendingDrawType currentColor drawPile
       with_updatedAt with_pendingDrawType with_pendingDrawCount
       with_currentColor with_discardPile with_drawPile with_direction
       with_currentPlayerIndex with_players with_status].
  split; [reflexivity|]. split; [exact Hids|].
  split; [apply Hhands; lia|].
  repeat (split; [reflexivity|]).
  split; [apply startingColor_not_wild|].
  split.
  { unfold allCards.
    cbn [status players discardPile drawPile].
    apply Permutation_trans with deck; [|exact E].
    rewrite <- Hcat. apply Permutation_app_head.
    apply Permutation_trans with (top :: remove_at i deck');
      [apply Permutation_sym, Permutation_cons_append
      |apply remove_at_perm; exact Htop]. }
  intros Hten.
  assert (Hsome : exists j x, findIndex is_number deck' = Some j
                              /\ nth_error deck' j = Some x
                              /\ is_number x = true).
  { apply findIndex_exists.
    pose proof (f_equal (fun l => length (filter is_number l)) Hcat)
      as Hsplit.
    cbv beta in Hsplit. rewrite filter_app, length_app in Hsplit.
    pose proof (filter_length_le is_number (concat (map cards ps'))) as Hle.
    pose proof (f_equal (@length _) Hcat) as Hhs.
    rewrite length_app in Hhs.
    lia. }
  destruct Hsome as (j & x & Hj & Hx & Hnx).
  assert (i = j) by (subst i; rewrite Hj; reflexivity). subst j.
  assert (x = top) by congruence. subst x.
  assert (Hin : In top deck).
  { rewrite <- Hcat. apply in_or_app. right. eapply nth_error_In, Htop. }
  split.
  - pose proof Hnx as Hb. unfold is_number in Hb.
    destruct (type_eqb_spec (card_type top) number);
      [assumption|discriminate Hb].
  - exact (number_card_colored w deck top E Hin Hnx).
Qed.

Lemma startGame_deals_witness :
  exists s' w',
    startGame lobbyGame sampleEnv = Ok (s', w')
    /\ status s' = playing
    /\ map player_id (players s') = ["alice"; "bob"].
Proof.
  destruct (startGame_deals lobbyGame sampleEnv)
    as (s' & w' & top & Hok & Hst & Hids & _);
    [reflexivity|simpl; lia|].
  exists s', w'. split; [exact Hok|]. split; [exact Hst|exact Hids].
Defined.

(** X5: the deck holds 130 cards, so on a waiting game with 19 players
    or more the deal leaves no card for the discard pile and [startGame]
    throws a [TypeError]. *)
Theorem startGame_runs_out_of_cards :
  forall s w,
    status s = waiting ->
    (19 <= length (players s))%nat ->
    startGame s w = Throw TypeError.
Proof.
  intros s w Hst Hn. unfold startGame. rewrite Hst.
  destruct (Nat.ltb_spec (length (players s)) 2) as [Hlt|_]; [lia|].
  unfold bindR, liftM.
  destruct ((d <- createDeck ;; shuffleDeck d) w) as [deck w1] eqn:E.
  apply fresh_deck in E.
  assert (Hlen : length deck = 130%nat).
  { rewrite (Permutation_length E). apply createDeck_length. }
  pose proof (dealAll_rest_length (players s) deck) as Hrest.
  destruct (dealAll (players s) deck) as [ps' deck']. cbn [snd] in Hrest.
  destruct deck' as [|c deck']; [|cbn [length] in Hrest; lia].
  reflexivity.
Qed.

Lemma startGame_runs_out_of_cards_witness :
  startGame crowdedLobby sampleEnv = Throw TypeError.
Proof.
  apply (startGame_runs_out_of_cards crowdedLobby sampleEnv);
    [reflexivity|simpl; lia].
Defined.

Lemma handSizes_snoc ps p :
  handSizes (ps ++ [p]) = (handSizes ps + length (cards p))%nat.
Proof. rewrite handSizes_app. simpl. lia. Qed.

(** X6: a successful [addPlayer] happens in a waiting game only; it
    appends one player with an empty hand who is not the host, keeps the
    roster within [maxPlayers], and moves no card. *)
Theorem addPlayer_joins :
  forall s playerId playerName isAI_ w s',
    addPlayer s playerId playerName isAI_ w = Ok s' ->
    status s = waiting /\ status s' = waiting
    /\ players s' =
         players s ++ [mkPlayer playerId playerName [] isAI_ false true false]
    /\ Z.of_nat (length (players s')) <= maxPlayers s'
    /\ maxPlayers s' = maxPlayers s
    /\ cardTotal s' = cardTotal s.
Proof.
  intros s playerId playerName isAI_ w s'. unfold addPlayer.
  destruct (Z.geb_spec (Z.of_nat (length (players s))) (maxPlayers s))
    as [Hfull|Hroom]; [discriminate|].
  destruct (status s) eqn:Hst; try discriminate.
  intros [= <-]. cbn -[handSizes]. rewrite Hst.
  repeat (split; [reflexivity|]). split.
  - rewrite length_app. cbn [length]. lia.
  - split; [reflexivity|]. unfold cardTotal. cbn -[handSizes].
    rewrite handSizes_snoc. cbn [cards length]. lia.
Qed.

Lemma addPlayer_joins_witness :
  exists s',
    addPlayer lobbyGame "carol" "Carol" true sampleEnv = Ok s'
    /\ map player_id (players s') = ["alice"; "bob"; "carol"].
Proof.
  eexists. split; [reflexivity|].
  destruct (addPlayer_joins lobbyGame "carol" "Carol" true sampleEnv _
              eq_refl) as (_ & _ & Hpl & _).
  rewrite Hpl. reflexivity.
Defined.

(** ** Identifiers of a fresh game *)

Lemma createDeck_ids w :
  map card_id (fst (createDeck w))
  = map (uuid_src w) (seq (uuid_pos w) 130).
Proof. vm_compute. reflexivity. Qed.

Lemma NoDup_concat_hands (ps : list Player) (rest : list Card) :
  NoDup (map card_id (concat (map cards ps) ++ rest)) ->
  forall p, In p ps -> NoDup (map card_id (cards p)).
Proof.
  induction ps as [|q ps IH]; intros Hnd p Hin; [contradiction|].
  cbn [map concat] in Hnd. rewrite <- app_assoc, map_app in Hnd.
  destruct Hin as [->|Hin].
  - eapply NoDup_app_remove_r, Hnd.
  - apply IH; [|exact Hin]. eapply NoDup_app_remove_l, Hnd.
Qed.

Lemma startGame_cards s w s' w' :
  startGame s w = Ok (s', w') ->
  Permutation (allCards s') (fst (createDeck w))
  /\ map player_id (players s') = map player_id (players s).
Proof.
  unfold startGame. destruct (status s); try discriminate.
  destruct (length (players s) <? 2)%nat; [discriminate|].
  unfold bindR, liftM.
  destruct ((d <- createDeck ;; shuffleDeck d) w) as [deck w1] eqn:E.
  apply fresh_deck in E.
  pose proof (dealAll_concat (players s) deck) as Hcat.
  pose proof (dealAll_ids (players s) deck) as Hids.
  destruct (dealAll (players s) deck) as [ps' deck'].
  cbn [fst snd] in Hcat, Hids.
  destruct (nth_error deck' _) as [top|] eqn:Htop; [|discriminate].
  intros [= <- <-]. split; [|exact Hids].
  unfold allCards.
  cbn [players discardPile drawPile
       with_updatedAt with_pendingDrawType with_pendingDrawCount
       with_currentColor with_discardPile with_drawPile with_direction
       with_currentPlayerIndex with_players with_status].
  apply Permutation_trans with deck; [|exact E].
  rewrite <- Hcat. apply Permutation_app_head.
  eapply Permutation_trans;
    [apply Permutation_sym, Permutation_cons_append
    |apply remove_at_perm; exact Htop].
Qed.

(** X7: when the 130 identifiers that [uuidv4] hands out for the deck
    are pairwise distinct and the players have distinct ids, the state
    [startGame] returns has no two cards with the same id anywhere, in a
    hand or in a pile. *)
Theorem startGame_unique_ids :
  forall s w s' w',
    distinct (map player_id (players s)) = true ->
    distinct (map (uuid_src w) (seq (uuid_pos w) 130)) = true ->
    startGame s w = Ok (s', w') ->
    NoDup (map card_id (allCards s')) /\ uniqueIds s' = true.
Proof.
  intros s w s' w' Hps Hids Hstart.
  destruct (startGame_cards _ _ _ _ Hstart) as [Hperm Hpl].
  assert (Hnd : NoDup (map card_id (allCards s'))).
  { apply (Permutation_NoDup
             (Permutation_sym (Permutation_map card_id Hperm))).
    rewrite createDeck_ids. apply distinct_NoDup. exact Hids. }
  split; [exact Hnd|]. unfold uniqueIds. apply andb_true_iff. split.
  - rewrite Hpl. exact Hps.
  - apply forallb_forall. intros p Hp. apply distinct_NoDup.
    eapply NoDup_concat_hands; [exact Hnd|exact Hp].
Qed.

Lemma startGame_unique_ids_witness :
  exists s' w',
    startGame lobbyGame sampleEnv = Ok (s', w') /\ uniqueIds s' = true.
Proof.
  destruct (startGame lobbyGame sampleEnv) as [[s' w']|] eqn:E;
    [|vm_compute in E; discriminate E].
  exists s', w'. split; [reflexivity|].
  apply (startGame_unique_ids lobbyGame sampleEnv s' w');
    [reflexivity|vm_compute; reflexivity|exact E].
Defined.

(** ** Legal cards *)

Lemma filterR_Ok {A} (q : A -> Result bool) l r :
  filterR q l = Ok r ->
  forall c, In c r <-> In c l /\ q c = Ok true.
Proof.
  revert r. induction l as [|x l IH]; intros r; cbn [filterR bindRes].
  - intros [= <-] c. split; [contradiction|intros [[] _]].
  - destruct (q x) as [b|] eqn:Hx; [|discriminate]. cbn [bindRes].
    destruct (filterR q l) as [r'|]; [|discriminate]. cbn [bindRes].
    intros [= <-] c. specialize (IH r' eq_refl c).
    destruct b; cbn [In]; rewrite IH; split.
    + intros [->|[Hin Hq]]; [now split; [left|]|split; [now right|exact Hq]].
    + intros [[->|Hin] Hq]; [now left|right; now split].
    + intros [Hin Hq]. split; [now right|exact Hq].
    + intros [[->|Hin] Hq]; [congruence|now split].
Qed.

Lemma filterR_none {A} (q : A -> Result bool) l :
  (forall c, q c = Ok false) -> filterR q l = Ok [].
Proof.
  intros Hq. induction l as [|x l IH]; [reflexivity|].
  cbn [filterR]. now rewrite Hq, IH.
Qed.

(** X8: [getPlayableCards] agrees with [canPlayCard]: a card is in the
    list it returns exactly when it is in the hand of the player and
    [canPlayCard] accepts it. *)
Theorem getPlayableCards_agrees :
  forall s playerId player playableCards,
    find_first (has_id playerId) (players s) = Some player ->
    getPlayableCards s playerId = Ok playableCards ->
    forall card,
      In card playableCards <->
      In card (cards player) /\ canPlayCard s card playerId = Ok true.
Proof.
  intros s playerId player playableCards Hfind Hplay.
  unfold getPlayableCards in Hplay. rewrite Hfind in Hplay.
  exact (filterR_Ok _ _ _ Hplay).
Qed.

Lemma getPlayableCards_agrees_witness :
  In red5 [red5] <->
  In red5 (cards (seat "alice" [red5]))
  /\ canPlayCard openGame red5 "alice" = Ok true.
Proof.
  apply (getPlayableCards_agrees openGame "alice" (seat "alice" [red5])
           [red5]); reflexivity.
Defined.

(** X9: out of turn there is nothing to play.  On a non-empty discard
    pile, for a player who is not the current one, [getPlayableCards]
    returns the empty list and [makeAIDecision] decides to draw, with
    no card chosen and the environment untouched. *)
Theorem out_of_turn_draws :
  forall s playerId difficulty w top cur,
    getTopCard s = Some top ->
    getCurrentPlayer s = Some cur ->
    String.eqb (player_id cur) playerId = false ->
    getPlayableCards s playerId = Ok []
    /\ makeAIDecision s playerId difficulty w
       = Ok (mkDecision draw None None None, w).
Proof.
  intros s playerId difficulty w top cur Htop Hcur Hne.
  assert (Hno : forall c, canPlayCard s c playerId = Ok false).
  { intros c. unfold canPlayCard, getCurrentPlayer in *.
    now rewrite Htop, Hcur, Hne. }
  assert (Hplay : getPlayableCards s playerId = Ok []).
  { unfold getPlayableCards.
    destruct (find_first (has_id playerId) (players s)); [|reflexivity].
    now apply filterR_none. }
  split; [exact Hplay|]. unfold makeAIDecision.
  destruct (find_first (has_id playerId) (players s)); [|reflexivity].
  unfold bindR, liftR, bindRes. now rewrite Hplay.
Qed.

Lemma out_of_turn_draws_witness :
  getPlayableCards openGame "bob" = Ok []
  /\ makeAIDecision openGame "bob" hard sampleEnv
     = Ok (mkDecision draw None None None, sampleEnv).
Proof.
  apply (out_of_turn_draws openGame "bob" hard sampleEnv red7
           (seat "alice" [red5])); reflexivity.
Defined.

(** ** Turn order *)

Lemma advance_mod k dir n z :
  dir = 1 \/ dir = -1 ->
  0 <= z < n ->
  advance k dir n (Num z) = Num ((z + Z.of_nat k * dir) mod n).
Proof.
  intros Hdir. revert z. induction k as [|k IH]; intros z Hz.
  - cbn [advance]. f_equal. rewrite Z.mod_small; lia.
  - cbn [advance js_add js_rem].
    destruct (Z.eqb_spec n 0) as [E|E]; [lia|].
    rewrite Z.rem_mod_nonneg by lia.
    rewrite IH by (apply Z.mod_pos_bound; lia). f_equal.
    rewrite Zplus_mod_idemp_l.
    replace (z + dir + n + Z.of_nat k * dir)
      with (z + Z.of_nat (S k) * dir + 1 * n) by lia.
    apply Z_mod_plus_full.
Qed.

Lemma handleCardEffect_turn st card playerId color w :
  let r := fst (handleCardEffect st card playerId color w) in
  let n := length (players st) in
  let e := turnEffect (card_type card) n (direction st) in
  currentPlayerIndex r
  = advance (Z.to_nat (fst e)) (snd e) (Z.of_nat n) (currentPlayerIndex st)
  /\ direction r = snd e.
Proof.
  unfold handleCardEffect.
  set (newState := match color_eqb (card_color card) wild_color, color with
                   | true, Some c => with_currentColor c st
                   | true, None => st
                   | false, _ => with_currentColor (card_color card) st
                   end).
  assert (Hn : currentPlayerIndex newState = currentPlayerIndex st
               /\ direction newState = direction st
               /\ players newState = players st).
  { subst newState.
    destruct (color_eqb (card_color card) wild_color), color; repeat split. }
  destruct Hn as (Hc & Hd & Hp). clearbody newState.
  unfold turnEffect, getNextPlayerIndex.
  destruct (card_type card);
    try (cbn; rewrite ?Hc, ?Hd, ?Hp; split; reflexivity).
  destruct (length (players st) =? 2)%nat;
    cbn; rewrite ?Hc, ?Hd, ?Hp; split; reflexivity.
Qed.

Lemma checkWinner_turn newCards playerId s :
  currentPlayerIndex (checkWinner newCards playerId s) = currentPlayerIndex s
  /\ direction (checkWinner newCards playerId s) = direction s
  /\ pendingDrawCount (checkWinner newCards playerId s) = pendingDrawCount s
  /\ pendingDrawType (checkWinner newCards playerId s) = pendingDrawType s.
Proof.
  unfold checkWinner. destruct (length newCards =? 0)%nat; repeat split.
Qed.

(** A successful [playCard] is the card effect, followed by the winner
    check, on a state with the turn, direction, pending draw and roster
    size of the state it started from. *)
Lemma playCard_effect s playerId card color w s' w' :
  playCard s playerId card color w = Ok (s', w') ->
  exists st newCards,
    canPlayCard s card playerId = Ok true
    /\ currentPlayerIndex st = currentPlayerIndex s
    /\ direction st = direction s
    /\ pendingDrawCount st = pendingDrawCount s
    /\ pendingDrawType st = pendingDrawType s
    /\ length (players st) = length (players s)
    /\ s' = checkWinner newCards playerId
              (fst (handleCardEffect st card playerId color w)).
Proof.
  unfold playCard, bindR, liftR, bindRes.
  destruct (canPlayCard s card playerId) as [[|]|]; try discriminate.
  cbn [negb].
  destruct (findIndex (has_id playerId) (players s)) as [i|]; [|discriminate].
  destruct (nth_error (players s) i) as [p|]; [|discriminate].
  match goal with
  | |- context [handleCardEffect ?st card playerId color w] =>
      set (st0 := st)
  end.
  destruct (handleCardEffect st0 card playerId color w) as [s1 w1] eqn:E.
  intros [= <- <-]. exists st0. eexists. split; [reflexivity|].
  repeat (split; [reflexivity|]).
  split; [|rewrite E; reflexivity]. subst st0. cbn.
  unfold replaceCards, mapi. apply mapi_from_length.
Qed.

Lemma validTurn_inv s :
  validTurn s = true ->
  (direction s = 1 \/ direction s = -1)
  /\ exists z, currentPlayerIndex s = Num z
               /\ 0 <= z < Z.of_nat (length (players s)).
Proof.
  unfold validTurn. intros [Hd Hi]%andb_true_iff. split.
  - apply orb_true_iff in Hd as [Hd|Hd]; apply Z.eqb_eq in Hd; auto.
  - destruct (currentPlayerIndex s) as [z|]; [|discriminate].
    apply andb_true_iff in Hi as [H0 Hn].
    apply Z.leb_le in H0. apply Z.ltb_lt in Hn. eauto.
Qed.

Lemma playCard_turn s playerId card color w s' w' z :
  validTurn s = true ->
  currentPlayerIndex s = Num z ->
  playCard s playerId card color w = Ok (s', w') ->
  let n := length (players s) in
  let e := turnEffect (card_type card) n (direction s) in
  currentPlayerIndex s' = Num ((z + fst e * snd e) mod Z.of_nat n)
  /\ direction s' = snd e
  /\ length (players s') = n.
Proof.
  intros Hv Hz Hplay.
  pose proof (playCard_Ok _ _ _ _ _ _ _ Hplay)
    as (i & p & _ & _ & _ & Hpl & _).
  destruct (playCard_effect _ _ _ _ _ _ _ Hplay)
    as (st & newCards & _ & Hcur & Hdir & _ & _ & Hlen & ->).
  destruct (validTurn_inv _ Hv) as (Hd & z0 & Hz0 & Hrange).
  assert (z0 = z) by congruence. subst z0.
  destruct (checkWinner_turn newCards playerId
              (fst (handleCardEffect st card playerId color w)))
    as (-> & -> & _).
  destruct (handleCardEffect_turn st card playerId color w) as [Hi Hdr].
  rewrite Hi, Hdr, Hlen, Hcur, Hdir, Hz. cbv zeta.
  split; [|split; [reflexivity|]].
  - set (n := length (players s)) in *.
    assert (He : (snd (turnEffect (card_type card) n (direction s)) = 1
                  \/ snd (turnEffect (card_type card) n (direction s)) = -1)
                 /\ 0 <= fst (turnEffect (card_type card) n (direction s))).
    { unfold turnEffect. destruct (card_type card);
        try destruct (n =? 2)%nat; cbn [fst snd]; lia. }
    destruct He as [He1 He2].
    rewrite advance_mod by assumption. rewrite Z2Nat.id by assumption.
    reflexivity.
  - rewrite Hpl. unfold replaceCards, mapi. apply mapi_from_length.
Qed.

(** X10: what [playCard] does to the turn.  With a direction of 1 or
    -1 and the turn index on a seat, after playing a card in a game of
    [n] players the index is the old seat moved by the steps of the card
    in the direction the card leaves, modulo [n]: two steps for skip (and
    for reverse with two players), one step in the flipped direction for
    reverse, none for skip_everyone and reverse_everyone (which flips),
    one step for every other card. *)
Theorem playCard_moves_turn :
  forall s playerId card color w s' w' z,
    validTurn s = true ->
    currentPlayerIndex s = Num z ->
    playCard s playerId card color w = Ok (s', w') ->
    currentPlayerIndex s' =
      Num ((z + fst (turnEffect (card_type card) (length (players s))
                       (direction s))
              * snd (turnEffect (card_type card) (length (players s))
                       (direction s)))
           mod Z.of_nat (length (players s)))
    /\ direction s' =
         snd (turnEffect (card_type card) (length (players s)) (direction s)).
Proof.
  intros s playerId card color w s' w' z Hv Hz Hplay.
  destruct (playCard_turn _ _ _ _ _ _ _ _ Hv Hz Hplay) as (H1 & H2 & _).
  split; assumption.
Qed.

Lemma playCard_moves_turn_witness :
  currentPlayerIndex stackedGame = Num ((0 + 1 * 1) mod 2)
  /\ direction stackedGame = 1.
Proof.
  apply (playCard_moves_turn pendingGame "alice" redDraw2 None sampleEnv
           stackedGame sampleEnv 0); reflexivity.
Defined.

(** X11: in a game of two players a skip and a reverse leave the turn
    with the player who played and leave the direction as it was. *)
Theorem two_players_skip_and_reverse :
  forall s playerId card color w s' w',
    validTurn s = true ->
    length (players s) = 2%nat ->
    card_type card = skip \/ card_type card = reverse ->
    playCard s playerId card color w = Ok (s', w') ->
    currentPlayerIndex s' = currentPlayerIndex s
    /\ direction s' = direction s.
Proof.
  intros s playerId card color w s' w' Hv Htwo Hty Hplay.
  destruct (validTurn_inv _ Hv) as (Hd & z & Hz & Hrange).
  destruct (playCard_turn _ _ _ _ _ _ _ _ Hv Hz Hplay) as (H1 & H2 & _).
  rewrite H1, H2, Hz, Htwo. rewrite Htwo in Hrange.
  destruct Hty as [-> | ->]; cbn [turnEffect Nat.eqb fst snd];
    (split; [f_equal|reflexivity]);
    change (Z.of_nat 2) with 2 in *;
    destruct Hd as [-> | ->];
    assert (z = 0 \/ z = 1) as [-> | ->] by lia; reflexivity.
Qed.

Lemma validTurn_intro s z :
  direction s = 1 \/ direction s = -1 ->
  currentPlayerIndex s = Num z ->
  0 <= z < Z.of_nat (length (players s)) ->
  validTurn s = true.
Proof.
  intros Hd Hz Hr. unfold validTurn. rewrite Hz.
  apply andb_true_iff. split.
  - apply orb_true_iff. destruct Hd as [-> | ->]; auto.
  - apply andb_true_iff. split; [apply Z.leb_le|apply Z.ltb_lt]; lia.
Qed.

Lemma getNextPlayerIndex_valid s :
  validTurn s = true ->
  exists z, getNextPlayerIndex s 1 = Num z
            /\ 0 <= z < Z.of_nat (length (players s)).
Proof.
  intros Hv. destruct (validTurn_inv _ Hv) as (Hd & z & Hz & Hr).
  unfold getNextPlayerIndex. rewrite Hz, advance_mod by assumption.
  eexists. split; [reflexivity|]. apply Z.mod_pos_bound. lia.
Qed.

(** A successful multiple play or discard-all moves the turn one step
    and leaves the direction, the pending draw and the roster size. *)
Lemma playMultipleCards_turn s playerId cs w s' :
  playMultipleCards s playerId cs w = Ok s' ->
  currentPlayerIndex s' = getNextPlayerIndex s 1
  /\ direction s' = direction s
  /\ pendingDrawCount s' = pendingDrawCount s
  /\ pendingDrawType s' = pendingDrawType s
  /\ length (players s') = length (players s).
Proof.
  unfold playMultipleCards, bindRes.
  destruct (canPlayMultipleCards s cs playerId) as [[|]|]; try discriminate.
  cbn [negb].
  destruct (sortR (playableLast s playerId) cs) as [sortedCards|];
    [|discriminate].
  destruct (findIndex (has_id playerId) (players s)) as [i|]; [|discriminate].
  destruct (nth_error (players s) i) as [p|]; [|discriminate].
  destruct (last_elem sortedCards) as [lastCard|]; [|discriminate].
  intros [= <-].
  match goal with
  | |- context [checkWinner ?nc playerId ?st] =>
      destruct (checkWinner_turn nc playerId st) as (-> & -> & -> & ->);
      destruct (checkWinner_frame nc playerId st) as (-> & _)
  end.
  cbn. repeat (split; [reflexivity|]).
  unfold replaceCards, mapi. apply mapi_from_length.
Qed.

Lemma playDiscardAll_turn s playerId cs w s' :
  playDiscardAll s playerId cs w = Ok s' ->
  currentPlayerIndex s' = getNextPlayerIndex s 1
  /\ direction s' = direction s
  /\ pendingDrawCount s' = pendingDrawCount s
  /\ pendingDrawType s' = pendingDrawType s
  /\ currentColor s' = currentColor s
  /\ length (players s') = length (players s).
Proof.
  unfold playDiscardAll.
  destruct cs as [|c0 cs0] eqn:Ecs; [discriminate|]. rewrite <- Ecs.
  destruct (negb (forallb _ cs)); [discriminate|].
  destruct (negb (color_eqb _ _)); [discriminate|].
  destruct (findIndex (has_id playerId) (players s)) as [i|]; [|discriminate].
  destruct (nth_error (players s) i) as [p|]; [|discriminate].
  intros [= <-].
  match goal with
  | |- context [checkWinner ?nc playerId ?st] =>
      destruct (checkWinner_turn nc playerId st) as (-> & -> & -> & ->);
      destruct (checkWinner_frame nc playerId st) as (-> & _);
      rewrite (checkWinner_color nc playerId st)
  end.
  cbn. repeat (split; [reflexivity|]).
  unfold replaceCards, mapi. apply mapi_from_length.
Qed.

(** A draw keeps the direction and, with distinct player ids and two
    players or more, a turn index that is a seat of the roster. *)
Lemma drawCards_turn s playerId count w s' w' :
  distinct (map player_id (players s)) = true ->
  (2 <= length (players s))%nat ->
  validTurn s = true ->
  drawCards s playerId count w = Ok (s', w') ->
  validTurn s' = true /\ (1 <= length (players s'))%nat.
Proof.
  intros Hd Htwo Hv Hdraw.
  destruct (validTurn_inv _ Hv) as (Hdir & z & Hz & Hr).
  unfold drawCards in Hdraw.
  destruct (findIndex (has_id playerId) (players s)) as [i|] eqn:Hi;
    [|discriminate].
  fold (drawCards s playerId count w) in Hdraw.
  destruct (findIndex_Some _ _ _ Hi) as (p & Hp & _).
  destruct (drawLoop (Z.to_nat count) (drawPile s, discardPile s, []) w)
    as [[[d c] n] w1] eqn:Hloop.
  assert (Hdraw' : drawCards s playerId count w = Ok (s', w')).
  { unfold drawCards. rewrite Hi. exact Hdraw. }
  clear Hdraw. rewrite (drawCards_found _ _ _ _ _ _ _ _ _ _ Hi Hp Hloop)
    in Hdraw'.
  set (t := with_discardPile c (with_drawPile d
              (with_players (afterDraw i n (players s)) s))) in *.
  assert (Hlen : length (afterDraw i n (players s)) = length (players s)).
  { unfold afterDraw, mapi. apply mapi_from_length. }
  destruct (25 <=? length (cards p ++ n))%nat.
  - injection Hdraw' as Hel.
    assert (Hi' : findIndex (has_id playerId) (players t) = Some i).
    { cbn. rewrite <- Hi. apply findIndex_player_ids, afterDraw_player_ids. }
    assert (Hp' : nth_error (players t) i
                  = Some (with_hasCalledUno false
                            (with_cards (cards p ++ n) p))).
    { cbn. unfold afterDraw. rewrite mapi_nth, Hp. cbn.
      now rewrite Nat.eqb_refl. }
    assert (Hd' : distinct (map player_id (players t)) = true).
    { cbn. now rewrite afterDraw_player_ids. }
    pose proof (eliminatePlayer_found t playerId i _ w1 Hi' Hp') as Hfound.
    cbv zeta in Hfound. rewrite Hel in Hfound. cbn [fst] in Hfound.
    destruct Hfound as (Hpl & _ & _ & Hidx & _ & _).
    assert (Hrem : length (filter (fun q => negb (has_id playerId q))
                             (players t))
                   = (length (players s) - 1)%nat).
    { rewrite (remaining_players _ _ _ Hd' Hi').
      pose proof (f_equal (@length _) (nth_error_split_at _ _ _ Hp')) as Hs.
      rewrite !length_app in *. cbn [length] in Hs.
      cbn [players t with_discardPile with_drawPile with_players] in *.
      lia. }
    assert (Hilt : (i < length (players s))%nat).
    { apply nth_error_Some. congruence. }
    rewrite Hrem in Hidx. rewrite <- Hpl in Hrem.
    cbn [currentPlayerIndex direction t with_discardPile with_drawPile
         with_players] in Hidx.
    rewrite Hz in Hidx. cbn [lt_index eq_index js_add js_rem] in Hidx.
    assert (Hdir' : direction s' = direction s).
    { change s' with (fst (s', w')). rewrite <- Hel.
      unfold eliminatePlayer. rewrite Hi', Hp'. unfold bind.
      destruct (shuffleDeck _ w1) as [d' w2].
      now destruct (filter _ (players t)) as [|a [|b r]]. }
    split; [|lia].
    destruct (Nat.eqb_spec (length (players s) - 1) 1) as [E1|E1].
    + apply (validTurn_intro s' 0); [congruence|exact Hidx|lia].
    + destruct (Z.ltb_spec (Z.of_nat i) z).
      * apply (validTurn_intro s' (z + -1)); [congruence|exact Hidx|lia].
      * destruct (Z.eqb_spec (Z.of_nat i) z).
        -- destruct (Z.eqb_spec (Z.of_nat (length (players s) - 1)) 0);
             [lia|].
           apply (validTurn_intro s' _ (or_ind (fun e => or_introl (eq_trans Hdir' e))
                    (fun e => or_intror (eq_trans Hdir' e)) Hdir) Hidx).
           rewrite Z.rem_mod_nonneg by lia.
           pose proof (Z.mod_pos_bound z
                         (Z.of_nat (length (players s) - 1))). lia.
        -- apply (validTurn_intro s' z); [congruence|exact Hidx|lia].
  - injection Hdraw' as <- <-. split.
    + apply (validTurn_intro _ z); cbn; [exact Hdir|exact Hz|].
      rewrite Hlen. exact Hr.
    + cbn. rewrite Hlen. lia.
Qed.

Lemma two_players_skip_and_reverse_witness :
  currentPlayerIndex skippedGame = currentPlayerIndex skipGame
  /\ direction skippedGame = direction skipGame.
Proof.
  apply (two_players_skip_and_reverse skipGame "alice" redSkip None
           sampleEnv skippedGame sampleEnv);
    [reflexivity|reflexivity|left; reflexivity|reflexivity].
Defined.

(** X12: the turn stays on the roster.  From a state with distinct
    player ids, two players or more, a direction of 1 or -1 and a turn
    index on a seat, every transition of a game in progress returns a
    state whose direction is 1 or -1 and whose turn index is a seat of
    its roster, also when a player was eliminated on the way. *)
Theorem transition_keeps_turn_valid :
  forall a s w s' w',
    distinct (map player_id (players s)) = true ->
    (2 <= length (players s))%nat ->
    validTurn s = true ->
    transition a s w = Ok (s', w') ->
    validTurn s' = true.
Proof.
  intros a s w s' w' Hd Htwo Hv Hstep.
  destruct (validTurn_inv _ Hv) as (Hdir & z & Hz & Hr).
  destruct a as [playerId card color|playerId cs|playerId cs|playerId count|
                 |challengerId targetId]; cbn [transition] in Hstep.
  - destruct (playCard_turn _ _ _ _ _ _ _ _ Hv Hz Hstep) as (Hi & Hdr & Hlen).
    cbv zeta in Hi, Hdr, Hlen. eapply validTurn_intro; [|exact Hi|].
    + rewrite Hdr. unfold turnEffect.
      destruct (card_type card); try destruct (length (players s) =? 2)%nat;
        cbn [snd]; lia.
    + rewrite Hlen. apply Z.mod_pos_bound. lia.
  - destruct (playMultipleCards s playerId cs w) as [s1|] eqn:E;
      [|discriminate]. injection Hstep as <- <-.
    apply playMultipleCards_turn in E as (Hi & Hdr & _ & _ & Hlen).
    destruct (getNextPlayerIndex_valid _ Hv) as (z' & Hz' & Hr').
    apply (validTurn_intro _ z'); [congruence|congruence|now rewrite Hlen].
  - destruct (playDiscardAll s playerId cs w) as [s1|] eqn:E;
      [|discriminate]. injection Hstep as <- <-.
    apply playDiscardAll_turn in E as (Hi & Hdr & _ & _ & _ & Hlen).
    destruct (getNextPlayerIndex_valid _ Hv) as (z' & Hz' & Hr').
    apply (validTurn_intro _ z'); [congruence|congruence|now rewrite Hlen].
  - now apply drawCards_turn in Hstep.
  - unfold processDrawPenalty in Hstep.
    destruct (pendingDrawCount s =? 0); [now injection Hstep as <- <-|].
    destruct (at_index (players s) (currentPlayerIndex s)) as [cur|];
      [|discriminate].
    unfold bindR in Hstep.
    destruct (drawCards s (player_id cur) (pendingDrawCount s) w)
      as [[s1 w1]|] eqn:E; [|discriminate].
    injection Hstep as <- <-.
    destruct (drawCards_turn _ _ _ _ _ _ Hd Htwo Hv E) as [Hv1 _].
    destruct (getNextPlayerIndex_valid _ Hv1) as (z' & Hz' & Hr').
    destruct (validTurn_inv _ Hv1) as (Hdir1 & _).
    apply (validTurn_intro _ z'); cbn; assumption.
  - unfold challengeUno in Hstep.
    destruct (findIndex (has_id targetId) (players s)); [|discriminate].
    destruct (nth_error (players s) n) as [target|]; [|discriminate].
    destruct (negb _ || _); [discriminate|].
    now apply drawCards_turn in Hstep.
Qed.

Lemma transition_keeps_turn_valid_witness :
  exists s' w',
    transition (DoDrawCards "alice" 1) crowdedGame sampleEnv = Ok (s', w')
    /\ validTurn s' = true.
Proof.
  destruct (transition (DoDrawCards "alice" 1) crowdedGame sampleEnv)
    as [[s' w']|] eqn:E; [|vm_compute in E; discriminate E].
  exists s', w'. split; [reflexivity|].
  apply (transition_keeps_turn_valid (DoDrawCards "alice" 1) crowdedGame
           sampleEnv s' w'); [reflexivity|simpl; lia|reflexivity|exact E].
Defined.

(** ** Pending draws *)

Lemma handleCardEffect_pending st card playerId color w :
  let r := fst (handleCardEffect st card playerId color w) in
  if includes drawTypes (card_type card) then
    pendingDrawCount r = pendingDrawCount st + drawValues (card_type card)
    /\ pendingDrawType r = Some (card_type card)
  else
    pendingDrawCount r = pendingDrawCount st
    /\ pendingDrawType r = pendingDrawType st.
Proof.
  unfold handleCardEffect.
  set (newState := match color_eqb (card_color card) wild_color, color with
                   | true, Some c => with_currentColor c st
                   | true, None => st
                   | false, _ => with_currentColor (card_color card) st
                   end).
  assert (Hn : pendingDrawCount newState = pendingDrawCount st
               /\ pendingDrawType newState = pendingDrawType st).
  { subst newState.
    destruct (color_eqb (card_color card) wild_color), color; split;
      reflexivity. }
  destruct Hn as (Hc & Ht). clearbody newState.
  destruct (card_type card);
    try (cbn; rewrite ?Hc, ?Ht; split; reflexivity).
  destruct (length (players st) =? 2)%nat;
    cbn; rewrite ?Hc, ?Ht; split; reflexivity.
Qed.

(** X13: stacking never lowers the penalty.  When a draw is pending on
    a non-empty discard pile, a successful [playCard] plays a draw card
    at least as strong as the pending type, adds its own amount to the
    pending count and becomes the new pending type.  The count is a
    JavaScript number: the sum is exact, and the statement holds of the
    code, as long as it stays within [MAX_SAFE_INTEGER]. *)
Theorem stacking_raises_penalty :
  forall s playerId card color w s' w' top pendingType,
    getTopCard s = Some top ->
    pendingDrawCount s > 0 ->
    pendingDrawCount s + drawValues (card_type card) <= MAX_SAFE_INTEGER ->
    pendingDrawType s = Some pendingType ->
    playCard s playerId card color w = Ok (s', w') ->
    isDrawCard (card_type card) = true
    /\ drawValues (card_type card) >= drawValues pendingType
    /\ pendingDrawCount s' = pendingDrawCount s + drawValues (card_type card)
    /\ pendingDrawCount s' > pendingDrawCount s
    /\ pendingDrawType s' = Some (card_type card).
Proof.
  intros s playerId card color w s' w' top pendingType Htop Hpos _ Hty Hplay.
  destruct (playCard_effect _ _ _ _ _ _ _ Hplay)
    as (st & newCards & Hcan & _ & _ & Hcnt & Htyp & _ & ->).
  unfold canPlayCard in Hcan. rewrite Htop, Hty in Hcan.
  destruct (at_index (players s) (currentPlayerIndex s)) as [cur|];
    [|discriminate].
  destruct (negb (String.eqb (player_id cur) playerId)); [discriminate|].
  assert ((pendingDrawCount s >? 0) = true) as Hgt by (apply Z.gtb_lt; lia).
  rewrite Hgt in Hcan. injection Hcan as Hstack.
  unfold canStackDrawCard in Hstack.
  destruct (includes drawTypes (card_type card)) eqn:Hdraw;
    [|discriminate]. cbn [negb] in Hstack. apply Z.geb_le in Hstack.
  destruct (checkWinner_turn newCards playerId
              (fst (handleCardEffect st card playerId color w)))
    as (_ & _ & -> & ->).
  pose proof (handleCardEffect_pending st card playerId color w) as Hp.
  cbv zeta in Hp. rewrite Hdraw in Hp. destruct Hp as [-> ->].
  rewrite Hcnt. unfold isDrawCard. rewrite Hdraw.
  assert (0 < drawValues (card_type card)).
  { revert Hdraw. destruct (card_type card); cbn; intros; lia || discriminate. }
  repeat split; lia.
Qed.

Lemma stacking_raises_penalty_witness :
  isDrawCard (card_type redDraw2) = true
  /\ drawValues (card_type redDraw2) >= drawValues draw2
  /\ pendingDrawCount stackedGame
     = pendingDrawCount pendingGame + drawValues (card_type redDraw2)
  /\ pendingDrawCount stackedGame > pendingDrawCount pendingGame
  /\ pendingDrawType stackedGame = Some (card_type redDraw2).
Proof.
  apply (stacking_raises_penalty pendingGame "alice" redDraw2 None sampleEnv
           stackedGame sampleEnv red7 draw2);
    try reflexivity; vm_compute; discriminate.
Defined.

Lemma eliminatePlayer_pending s playerId w :
  pendingDrawCount (fst (eliminatePlayer s playerId w)) = pendingDrawCount s
  /\ pendingDrawType (fst (eliminatePlayer s playerId w)) = pendingDrawType s.
Proof.
  unfold eliminatePlayer.
  destruct (findIndex (has_id playerId) (players s)) as [i|];
    [|split; reflexivity].
  destruct (nth_error (players s) i) as [p|]; [|split; reflexivity].
  unfold bind. destruct (shuffleDeck _ w) as [d w'].
  destruct (filter _ (players s)) as [|a [|b r]]; split; reflexivity.
Qed.

Lemma drawCards_pending s playerId count w s' w' :
  drawCards s playerId count w = Ok (s', w') ->
  pendingDrawCount s' = pendingDrawCount s
  /\ pendingDrawType s' = pendingDrawType s.
Proof.
  unfold drawCards.
  destruct (findIndex (has_id playerId) (players s)) as [i|]; [|discriminate].
  unfold bindR, liftM.
  destruct (drawLoop _ _ w) as [[[d c] n] w1].
  destruct (nth_error _ i) as [p|]; [|discriminate].
  destruct (25 <=? _)%nat.
  - intros [= H]. change s' with (fst (s', w')). rewrite <- H.
    match goal with
    | |- context [eliminatePlayer ?t playerId w1] =>
        destruct (eliminatePlayer_pending t playerId w1) as [-> ->]
    end.
    split; reflexivity.
  - intros [= <- <-]. split; reflexivity.
Qed.

Lemma pendingConsistent_intro s count ty :
  pendingDrawCount s = count -> pendingDrawType s = ty ->
  match ty with
  | None => count = 0
  | Some _ => 0 < count
  end ->
  pendingConsistent s = true.
Proof.
  intros <- <-. unfold pendingConsistent.
  destruct (pendingDrawType s); intros H;
    [apply Z.ltb_lt|apply Z.eqb_eq]; exact H.
Qed.

Lemma pendingConsistent_same s s' :
  pendingDrawCount s' = pendingDrawCount s ->
  pendingDrawType s' = pendingDrawType s ->
  pendingConsistent s = true -> pendingConsistent s' = true.
Proof. unfold pendingConsistent. now intros -> ->. Qed.

Lemma operate_pending o s w s' w' :
  pendingConsistent s = true ->
  operate o s w = Ok (s', w') ->
  pendingConsistent s' = true.
Proof.
  intros Hc.
  destruct o as [[playerId card color|playerId cs|playerId cs|playerId count|
                  |challengerId targetId]
                |playerId playerName isAI_| |playerId];
    cbn [operate transition].
  - intros Hplay.
    destruct (playCard_effect _ _ _ _ _ _ _ Hplay)
      as (st & newCards & _ & _ & _ & Hcnt & Htyp & _ & ->).
    destruct (checkWinner_turn newCards playerId
                (fst (handleCardEffect st card playerId color w)))
      as (_ & _ & Hc1 & Ht1).
    pose proof (handleCardEffect_pending st card playerId color w) as Hp.
    cbv zeta in Hp.
    destruct (includes drawTypes (card_type card)) eqn:Hdraw;
      destruct Hp as [Hp1 Hp2].
    + eapply pendingConsistent_intro;
        [rewrite Hc1; exact Hp1|rewrite Ht1; exact Hp2|].
      assert (0 <= pendingDrawCount s).
      { unfold pendingConsistent in Hc.
        destruct (pendingDrawType s);
          [apply Z.ltb_lt in Hc|apply Z.eqb_eq in Hc]; lia. }
      assert (0 < drawValues (card_type card)).
      { revert Hdraw. destruct (card_type card); cbn; intros;
          lia || discriminate. }
      cbv beta iota. lia.
    + apply (pendingConsistent_same s); congruence.
  - destruct (playMultipleCards s playerId cs w) as [s1|] eqn:E;
      [|discriminate]. intros [= <- <-].
    apply playMultipleCards_turn in E as (_ & _ & H1 & H2 & _).
    now apply (pendingConsistent_same s).
  - destruct (playDiscardAll s playerId cs w) as [s1|] eqn:E;
      [|discriminate]. intros [= <- <-].
    apply playDiscardAll_turn in E as (_ & _ & H1 & H2 & _).
    now apply (pendingConsistent_same s).
  - intros H. apply drawCards_pending in H as [H1 H2].
    now apply (pendingConsistent_same s).
  - unfold processDrawPenalty.
    destruct (pendingDrawCount s =? 0); [now intros [= <- <-]|].
    destruct (at_index _ _) as [cur|]; [|discriminate].
    unfold bindR.
    destruct (drawCards s (player_id cur) (pendingDrawCount s) w)
      as [[s1 w1]|]; [|discriminate].
    now intros [= <- <-].
  - unfold challengeUno.
    destruct (findIndex _ (players s)) as [i|]; [|discriminate].
    destruct (nth_error (players s) i) as [target|]; [|discriminate].
    destruct (negb _ || _); [discriminate|].
    intros H. apply drawCards_pending in H as [H1 H2].
    now apply (pendingConsistent_same s).
  - unfold addPlayer. destruct (_ >=? _); [discriminate|].
    destruct (status s); try discriminate. now intros [= <- <-].
  - unfold startGame. destruct (status s); try discriminate.
    destruct (length (players s) <? 2)%nat; [discriminate|].
    unfold bindR, liftM.
    destruct ((d <- createDeck ;; shuffleDeck d) w) as [deck w1].
    destruct (dealAll (players s) deck) as [updatedPlayers deck'].
    destruct (nth_error deck' _) as [startingCard|]; [|discriminate].
    intros [= <- <-]. reflexivity.
  - unfold callUno.
    destruct (findIndex _ (players s)) as [i|]; [|discriminate].
    destruct (nth_error (players s) i) as [p|]; [|discriminate].
    destruct (negb _); [discriminate|]. now intros [= <- <-].
Qed.

(** X14: in every state that [initializeGame] and a sequence of
    operations of the engine produce, a draw type is pending exactly
    when the pending count is positive; otherwise the count is 0. *)
Theorem pending_draw_consistent :
  forall hostId_ hostName roomCode_ maxPlayers_ ops w s w',
    play_from_start hostId_ hostName roomCode_ maxPlayers_ ops w
    = Ok (s, w') ->
    pendingConsistent s = true.
Proof.
  intros hostId_ hostName roomCode_ maxPlayers_ ops w s w'.
  unfold play_from_start, bindR.
  destruct (initializeGame hostId_ hostName roomCode_ maxPlayers_ w)
    as [[s0 w0]|] eqn:E; [|discriminate].
  assert (H0 : pendingConsistent s0 = true).
  { revert E. unfold initializeGame, bindR, liftM.
    destruct ((d <- createDeck ;; shuffleDeck d) w) as [deck w1].
    destruct (dealCards deck 7) as [hostCards afterHostDeal].
    destruct (uuidv4 w1) as [gid w2].
    destruct (nth_error afterHostDeal _) as [startingCard|]; [|discriminate].
    intros [= <- <-]. reflexivity. }
  clear E. revert s0 w0 H0.
  induction ops as [|o ops IH]; intros s0 w0 H0; cbn [run].
  - now intros [= <- <-].
  - unfold bindR. destruct (operate o s0 w0) as [[s1 w1]|] eqn:E;
      [|discriminate].
    apply IH. eapply operate_pending; eassumption.
Qed.

Lemma pending_draw_consistent_witness : pendingConsistent blueGame = true.
Proof.
  apply (pending_draw_consistent "alice" "Alice" "ABC234" 4
           (openingMoves ++ [InPlay (DoPlayCard "alice" dealtWild (Some blue))])
           sampleEnv blueGame blueEnv).
  vm_compute. reflexivity.
Defined.

(** ** Status *)

Lemma checkWinner_status newCards playerId s :
  status (checkWinner newCards playerId s) = status s
  \/ status (checkWinner newCards playerId s) = finished.
Proof.
  unfold checkWinner. destruct (length newCards =? 0)%nat; [right|left];
    reflexivity.
Qed.

Lemma eliminatePlayer_status s playerId w :
  status (fst (eliminatePlayer s playerId w)) = status s
  \/ status (fst (eliminatePlayer s playerId w)) = finished.
Proof.
  unfold eliminatePlayer.
  destruct (findIndex (has_id playerId) (players s)) as [i|];
    [|left; reflexivity].
  destruct (nth_error (players s) i) as [p|]; [|left; reflexivity].
  unfold bind. destruct (shuffleDeck _ w) as [d w'].
  destruct (filter _ (players s)) as [|a [|b r]];
    [left|right|left]; reflexivity.
Qed.

Lemma drawCards_status s playerId count w s' w' :
  drawCards s playerId count w = Ok (s', w') ->
  status s' = status s \/ status s' = finished.
Proof.
  unfold drawCards.
  destruct (findIndex (has_id playerId) (players s)) as [i|]; [|discriminate].
  unfold bindR, liftM.
  destruct (drawLoop _ _ w) as [[[d c] n] w1].
  destruct (nth_error _ i) as [p|]; [|discriminate].
  destruct (25 <=? _)%nat.
  - intros [= H]. change s' with (fst (s', w')). rewrite <- H.
    match goal with
    | |- context [eliminatePlayer ?t playerId w1] =>
        destruct (eliminatePlayer_status t playerId w1) as [-> | ->]
    end; [left|right]; reflexivity.
  - intros [= <- <-]. left. reflexivity.
Qed.

Lemma rank_step st st' :
  st' = st \/ st' = finished -> (statusRank st <= statusRank st')%nat.
Proof. intros [-> | ->]; [lia|destruct st; cbn; lia]. Qed.

(** X15: the status never goes back.  Across every operation of the
    engine that returns, the status stays or moves forward in the order
    waiting, playing, finished; a finished game stays finished. *)
Theorem status_never_regresses :
  forall o s w s' w',
    operate o s w = Ok (s', w') ->
    (statusRank (status s) <= statusRank (status s'))%nat.
Proof.
  intros o s w s' w'.
  destruct o as [[playerId card color|playerId cs|playerId cs|playerId count|
                  |challengerId targetId]
                |playerId playerName isAI_| |playerId];
    cbn [operate transition].
  - intros Hplay. apply rank_step.
    unfold playCard, bindR, liftR, bindRes in Hplay.
    destruct (canPlayCard s card playerId) as [[|]|]; try discriminate.
    cbn [negb] in Hplay.
    destruct (findIndex _ (players s)) as [i|]; [|discriminate].
    destruct (nth_error (players s) i) as [p|]; [|discriminate].
    match type of Hplay with
    | context [handleCardEffect ?st card playerId color w] =>
        pose proof (handleCardEffect_frame st card playerId color w) as Hf;
        destruct (handleCardEffect st card playerId color w) as [s1 w1]
    end.
    cbn in Hf. destruct Hf as (_ & _ & _ & Hst & _).
    injection Hplay as <- <-.
    match goal with
    | |- context [checkWinner ?nc playerId s1] =>
        destruct (checkWinner_status nc playerId s1) as [-> | ->]
    end; [left; exact Hst|right; reflexivity].
  - destruct (playMultipleCards s playerId cs w) as [s1|] eqn:E;
      [|discriminate]. intros [= <- <-]. apply rank_step.
    unfold playMultipleCards, bindRes in E.
    destruct (canPlayMultipleCards s cs playerId) as [[|]|]; try discriminate.
    cbn [negb] in E.
    destruct (sortR _ cs) as [sorted|]; [|discriminate].
    destruct (findIndex _ (players s)) as [i|]; [|discriminate].
    destruct (nth_error (players s) i) as [p|]; [|discriminate].
    destruct (last_elem sorted) as [lastCard|]; [|discriminate].
    injection E as <-.
    match goal with
    | |- context [checkWinner ?nc playerId ?st] =>
        destruct (checkWinner_status nc playerId st) as [-> | ->]
    end; [left|right]; reflexivity.
  - destruct (playDiscardAll s playerId cs w) as [s1|] eqn:E;
      [|discriminate]. intros [= <- <-]. apply rank_step.
    unfold playDiscardAll in E.
    destruct cs as [|c0 cs0] eqn:Ecs; [discriminate|]. rewrite <- Ecs in E.
    destruct (negb (forallb _ cs)); [discriminate|].
    destruct (negb (color_eqb _ _)); [discriminate|].
    destruct (findIndex _ (players s)) as [i|]; [|discriminate].
    destruct (nth_error (players s) i) as [p|]; [|discriminate].
    injection E as <-.
    match goal with
    | |- context [checkWinner ?nc playerId ?st] =>
        destruct (checkWinner_status nc playerId st) as [-> | ->]
    end; [left|right]; reflexivity.
  - intros H. apply rank_step. eapply drawCards_status, H.
  - unfold processDrawPenalty.
    destruct (pendingDrawCount s =? 0); [intros [= <- <-]; lia|].
    destruct (at_index _ _) as [cur|]; [|discriminate].
    unfold bindR.
    destruct (drawCards s (player_id cur) (pendingDrawCount s) w)
      as [[s1 w1]|] eqn:E; [|discriminate].
    intros [= <- <-]. apply rank_step. cbn. eapply drawCards_status, E.
  - unfold challengeUno.
    destruct (findIndex _ (players s)) as [i|]; [|discriminate].
    destruct (nth_error (players s) i) as [target|]; [|discriminate].
    destruct (negb _ || _); [discriminate|].
    intros H. apply rank_step. eapply drawCards_status, H.
  - unfold addPlayer. destruct (_ >=? _); [discriminate|].
    destruct (status s) eqn:Hst; try discriminate.
    intros [= <- <-]. cbn. rewrite Hst. lia.
  - unfold startGame. destruct (status s); try discriminate.
    destruct (length (players s) <? 2)%nat; [discriminate|].
    unfold bindR, liftM.
    destruct ((d <- createDeck ;; shuffleDeck d) w) as [deck w1].
    destruct (dealAll (players s) deck) as [updatedPlayers deck'].
    destruct (nth_error deck' _) as [startingCard|]; [|discriminate].
    intros [= <- <-]. cbn. lia.
  - unfold callUno.
    destruct (findIndex _ (players s)) as [i|]; [|discriminate].
    destruct (nth_error (players s) i) as [p|]; [|discriminate].
    destruct (negb _); [discriminate|]. intros [= <- <-]. cbn. lia.
Qed.

Lemma status_never_regresses_witness :
  (statusRank (status openGame) <= statusRank (status wonGame))%nat.
Proof.
  apply (status_never_regresses (InPlay (DoPlayCard "alice" red5 None))
           openGame sampleEnv wonGame sampleEnv).
  reflexivity.
Defined.

(** ** Multiple plays *)

Lemma canPlayCard_defined s c0 playerId b0 :
  canPlayCard s c0 playerId = Ok b0 ->
  forall c, canPlayCard s c playerId = Ok (playable s playerId c).
Proof.
  unfold playable, canPlayCard.
  destruct (getTopCard s) as [top|]; [|reflexivity].
  destruct (at_index (players s) (currentPlayerIndex s)) as [cur|];
    [|discriminate].
  intros _ c.
  destruct (negb (String.eqb (player_id cur) playerId)); [reflexivity|].
  destruct (pendingDrawCount s >? 0), (pendingDrawType s);
    try (destruct (canStackDrawCard c c1); reflexivity);
    destruct (color_eqb (card_color c) wild_color); try reflexivity;
    destruct (color_eqb (card_color c) (currentColor s)); try reflexivity;
    destruct (type_eqb (card_type c) number && _ && _); try reflexivity;
    destruct (type_eqb (card_type c) (card_type top) && _); reflexivity.
Qed.

Section PlayableLast.
Variables (s : GameState) (playerId : string).
Hypothesis defined :
  forall c, canPlayCard s c playerId = Ok (playable s playerId c).

Lemma insert_playableLast x np pl :
  (forall y, In y np -> playable s playerId y = false) ->
  (forall y, In y pl -> playable s playerId y = true) ->
  insert_sortedR (playableLast s playerId) x (np ++ pl)
  = Ok (if playable s playerId x then np ++ x :: pl else x :: np ++ pl).
Proof.
  intros Hnp Hpl. induction np as [|y np IH].
  - destruct pl as [|y pl]; cbn [app insert_sortedR bindRes].
    + now destruct (playable s playerId x).
    + unfold playableLast. rewrite !defined. cbn [bindRes].
      rewrite (Hpl y (or_introl eq_refl)).
      now destruct (playable s playerId x).
  - cbn [app insert_sortedR]. unfold playableLast at 1.
    rewrite !defined. cbn [bindRes].
    rewrite (Hnp y (or_introl eq_refl)).
    destruct (playable s playerId x) eqn:Hx; cbn.
    + fold (playableLast s playerId).
      rewrite IH by (intros z Hz; apply Hnp; now right).
      rewrite ?Hx. reflexivity.
    + reflexivity.
Qed.

Lemma sortR_playableLast cs :
  sortR (playableLast s playerId) cs
  = Ok (filter (fun c => negb (playable s playerId c)) cs
        ++ filter (playable s playerId) cs).
Proof.
  induction cs as [|x cs IH]; [reflexivity|].
  cbn [sortR]. rewrite IH. cbn [bindRes].
  rewrite insert_playableLast.
  - cbn [filter]. now destruct (playable s playerId x).
  - intros y Hy. apply filter_In in Hy as [_ Hy].
    now apply negb_true_iff in Hy.
  - intros y Hy. now apply filter_In in Hy.
Qed.
End PlayableLast.

Lemma last_elem_app_In {A} (np pl : list A) :
  pl <> [] -> exists y, last_elem (np ++ pl) = Some y /\ In y pl.
Proof.
  destruct pl as [|y pl _] using rev_ind; [congruence|]. intros _.
  exists y. split.
  - now rewrite app_assoc, last_elem_app.
  - apply in_or_app. right. now left.
Qed.

Lemma last_elem_app_r {A} (a b : list A) y :
  last_elem b = Some y -> last_elem (a ++ b) = Some y.
Proof.
  intros H. rewrite (last_elem_Some _ _ H), app_assoc.
  apply last_elem_app.
Qed.

Lemma someR_true {A} (q : A -> Result bool) l :
  someR q l = Ok true -> exists c, In c l /\ q c = Ok true.
Proof.
  induction l as [|x l IH]; cbn [someR bindRes]; [discriminate|].
  destruct (q x) as [[|]|] eqn:Hx; cbn [bindRes]; try discriminate.
  - intros _. exists x. split; [now left|exact Hx].
  - intros H. destruct (IH H) as (c & Hin & Hc). exists c.
    split; [now right|exact Hc].
Qed.

Lemma canPlayMultipleCards_some s cs playerId :
  canPlayMultipleCards s cs playerId = Ok true ->
  exists c, In c cs /\ canPlayCard s c playerId = Ok true.
Proof.
  unfold canPlayMultipleCards.
  destruct cs as [|c0 [|c1 cs]]; [discriminate| |].
  - intros H. exists c0. split; [now left|exact H].
  - destruct (negb (type_eqb (card_type c0) number)); [discriminate|].
    destruct (negb (forallb _ _)); [discriminate|].
    apply someR_true.
Qed.

(** X16: a multiple play puts the cards on the discard pile in the
    order chosen, except that the cards legal on their own come last;
    so the new top card is one of the played cards that [canPlayCard]
    accepted, and it gives the current colour unless it is colourless. *)
Theorem playMultipleCards_order :
  forall s playerId cs w s',
    playMultipleCards s playerId cs w = Ok s' ->
    discardPile s' =
      discardPile s
      ++ filter (fun c => negb (playable s playerId c)) cs
      ++ filter (playable s playerId) cs
    /\ exists top,
         getTopCard s' = Some top
         /\ In top cs
         /\ canPlayCard s top playerId = Ok true
         /\ currentColor s' =
              (if color_eqb (card_color top) wild_color
               then currentColor s else card_color top).
Proof.
  intros s playerId cs w s'. unfold playMultipleCards, bindRes.
  destruct (canPlayMultipleCards s cs playerId) as [[|]|] eqn:Hcan;
    try discriminate. cbn [negb].
  destruct (canPlayMultipleCards_some _ _ _ Hcan) as (c & Hin & Hc).
  pose proof (canPlayCard_defined _ _ _ _ Hc) as Hdef.
  rewrite (sortR_playableLast s playerId Hdef cs).
  destruct (findIndex (has_id playerId) (players s)) as [i|]; [|discriminate].
  destruct (nth_error (players s) i) as [p|]; [|discriminate].
  destruct (last_elem_app_In
              (filter (fun c => negb (playable s playerId c)) cs)
              (filter (playable s playerId) cs)) as (y & Hlast & Hy).
  { intros E. assert (Hpl : In c (filter (playable s playerId) cs)).
    { apply filter_In. split; [exact Hin|]. unfold playable. now rewrite Hc. }
    rewrite E in Hpl. contradiction. }
  rewrite Hlast. intros [= <-].
  match goal with
  | |- context [checkWinner ?nc playerId ?st] =>
      destruct (checkWinner_frame nc playerId st) as (_ & _ & Hd);
      pose proof (checkWinner_color nc playerId st) as Hcol
  end.
  unfold getTopCard. rewrite Hd, Hcol. cbn.
  split; [reflexivity|].
  exists y. apply filter_In in Hy as [Hy1 Hy2].
  split; [rewrite <- ?app_assoc; apply last_elem_app_r; exact Hlast|].
  repeat split; trivial. now rewrite Hdef, Hy2.
Qed.

Lemma playMultipleCards_order_witness :
  discardPile fivesPlayedGame =
    discardPile fivesGame
    ++ filter (fun c => negb (playable fivesGame "alice" c)) [red5; blue5]
    ++ filter (playable fivesGame "alice") [red5; blue5]
  /\ exists top,
       getTopCard fivesPlayedGame = Some top
       /\ In top [red5; blue5]
       /\ canPlayCard fivesGame top "alice" = Ok true
       /\ currentColor fivesPlayedGame =
            (if color_eqb (card_color top) wild_color
             then currentColor fivesGame else card_color top).
Proof.
  apply (playMultipleCards_order fivesGame "alice" [red5; blue5] sampleEnv
           fivesPlayedGame).
  reflexivity.
Defined.

(** ** Discard all *)

(** X17: [playDiscardAll] returns a state exactly when it is given at
    least one card, every given card has the current colour, and the
    player exists.  It looks at nothing else: not at whose turn it is,
    not at a pending draw, not at the types of the cards, and not at the
    hand they are meant to come from. *)
Theorem playDiscardAll_accepts :
  forall s playerId cs w,
    (exists s', playDiscardAll s playerId cs w = Ok s')
    <-> cs <> []
        /\ (forall c, In c cs -> card_color c = currentColor s)
        /\ find_first (has_id playerId) (players s) <> None.
Proof.
  intros s playerId cs w. unfold playDiscardAll.
  destruct cs as [|c0 cs0] eqn:Ecs.
  { split; [intros [s' H]; discriminate H|intros [H _]; congruence]. }
  rewrite <- Ecs.
  destruct (forallb (fun c => color_eqb (card_color c) (card_color c0)) cs)
    eqn:Hall; cbn [negb].
  - rewrite forallb_forall in Hall.
    destruct (color_eqb_spec (card_color c0) (currentColor s)) as [Hc|Hc];
      cbn [negb].
    + destruct (findIndex (has_id playerId) (players s)) as [i|] eqn:Hi.
      * destruct (findIndex_Some _ _ _ Hi) as (p & Hp & _).
        rewrite Hp, (findIndex_find_first _ _ _ Hi), Hp.
        split; [intros _|eauto].
        split; [rewrite Ecs; discriminate|]. split; [|discriminate].
        intros c Hin. rewrite <- Hc.
        destruct (color_eqb_spec (card_color c) (card_color c0));
          [assumption|]. specialize (Hall c Hin). cbv beta in Hall.
        destruct (color_eqb_spec (card_color c) (card_color c0));
          [contradiction|discriminate].
      * rewrite (findIndex_None _ _ Hi).
        split; [intros [s' H]; discriminate H|intros (_ & _ & H); congruence].
    + split; [intros [s' H]; discriminate H|].
      intros (_ & Hcol & _). exfalso. apply Hc, Hcol.
      rewrite Ecs. now left.
  - split; [intros [s' H]; discriminate H|].
    intros (_ & Hcol & _). exfalso.
    assert (forallb (fun c => color_eqb (card_color c) (card_color c0)) cs
            = true); [|congruence].
    apply forallb_forall. intros c Hin.
    rewrite (Hcol c Hin), (Hcol c0) by (rewrite Ecs; now left).
    destruct (color_eqb_spec (currentColor s) (currentColor s));
      [reflexivity|congruence].
Qed.

Lemma playDiscardAll_accepts_witness :
  exists s',
    playDiscardAll discardAllGame "alice" [redDiscardAll; red5; red7] sampleEnv
    = Ok s'.
Proof.
  apply (proj2 (playDiscardAll_accepts discardAllGame "alice"
                  [redDiscardAll; red5; red7] sampleEnv)).
  split; [discriminate|]. split; [|discriminate].
  intros c [<-|[<-|[<-|[]]]]; reflexivity.
Defined.

(** ** Declarations *)

Lemma mapi_from_findIndex k (f : nat -> Player -> Player) playerId ps :
  (forall idx p, player_id (f idx p) = player_id p) ->
  findIndex (has_id playerId) (mapi_from k f ps)
  = findIndex (has_id playerId) ps.
Proof.
  intros Hf. apply findIndex_player_ids. now apply mapi_from_player_ids.
Qed.

(** X18: a declaration shields.  After a successful [callUno] of a
    player, who then holds exactly one card, a [challengeUno] against
    that player throws "Cannot challenge this player"; the declaration
    itself moves no card and changes no hand. *)
Theorem callUno_shields :
  forall s playerId w s' challengerId w2,
    callUno s playerId w = Ok s' ->
    challengeUno s' challengerId playerId w2
    = Throw "Cannot challenge this player"
    /\ map cards (players s') = map cards (players s)
    /\ drawPile s' = drawPile s /\ discardPile s' = discardPile s
    /\ option_map (fun hand => length hand) (handOf s playerId) = Some 1%nat.
Proof.
  intros s playerId w s' challengerId w2. unfold callUno.
  destruct (findIndex (has_id playerId) (players s)) as [i|] eqn:Hi;
    [|discriminate].
  destruct (nth_error (players s) i) as [p|] eqn:Hp; [|discriminate].
  destruct (Nat.eqb_spec (length (cards p)) 1) as [Hone|Hone];
    [|discriminate]. cbn [negb].
  intros [= <-]. unfold challengeUno. cbn.
  unfold mapi. rewrite mapi_from_findIndex, Hi
    by (intros idx q; now destruct (idx =? i)%nat).
  change (mapi_from 0) with (@mapi Player).
  rewrite mapi_nth, Hp. cbn. rewrite Nat.eqb_refl. cbn.
  rewrite orb_true_r. split; [reflexivity|]. split.
  - rewrite (mapi_update (with_hasCalledUno true) _ _ _ Hp).
    rewrite (nth_error_split_at _ _ _ Hp) at 3.
    now rewrite !map_app.
  - repeat (split; [reflexivity|]). unfold handOf.
    rewrite (findIndex_find_first _ _ _ Hi), Hp. cbn. now rewrite Hone.
Qed.

Lemma callUno_shields_witness :
  exists s',
    callUno openGame "alice" sampleEnv = Ok s'
    /\ challengeUno s' "bob" "alice" sampleEnv
       = Throw "Cannot challenge this player".
Proof.
  eexists. split; [reflexivity|].
  apply (callUno_shields openGame "alice" sampleEnv _ "bob" sampleEnv).
  reflexivity.
Defined.

(** ** Drawing *)

Lemma drawOne_top st w :
  last_elem (snd (fst (fst (drawOne st w)))) = last_elem (snd (fst st)).
Proof.
  destruct st as [[d c] n]. unfold drawOne, bind.
  destruct (length d =? 0)%nat.
  - destruct (mapM renewId (removelast c) w) as [renewed w1].
    destruct (shuffleDeck renewed w1) as [d' w2]. unfold ret.
    assert (Hc : last_elem (match last_elem c with
                            | Some t => [t]
                            | None => []
                            end) = last_elem c).
    { destruct (last_elem c) as [t|] eqn:Ht; reflexivity. }
    destruct (0 <? length d')%nat; [|exact Hc].
    destruct (last_elem d'); exact Hc.
  - unfold ret. destruct (0 <? length d)%nat; [|reflexivity].
    destruct (last_elem d); reflexivity.
Qed.

Lemma drawLoop_top count st w :
  last_elem (snd (fst (fst (drawLoop count st w)))) = last_elem (snd (fst st)).
Proof.
  revert st w. induction count as [|k IH]; intros st w; [reflexivity|].
  cbn [drawLoop]. unfold bind.
  pose proof (drawOne_top st w) as H1.
  destruct (drawOne st w) as [st' w']. rewrite IH. exact H1.
Qed.

Lemma eliminatePlayer_discardPile s playerId w :
  discardPile (fst (eliminatePlayer s playerId w)) = discardPile s.
Proof.
  unfold eliminatePlayer.
  destruct (findIndex (has_id playerId) (players s)) as [i|]; [|reflexivity].
  destruct (nth_error (players s) i) as [p|]; [|reflexivity].
  unfold bind. destruct (shuffleDeck _ w) as [d w'].
  now destruct (filter _ (players s)) as [|a [|b r]].
Qed.

(** X19: drawing never changes the top of the discard pile, however
    many cards are drawn and however often the discard pile is
    reshuffled into the draw pile on the way, elimination included. *)
Theorem drawCards_keeps_top_card :
  forall s playerId count w s' w',
    drawCards s playerId count w = Ok (s', w') ->
    getTopCard s' = getTopCard s.
Proof.
  intros s playerId count w s' w'. unfold drawCards, getTopCard.
  destruct (findIndex (has_id playerId) (players s)) as [i|]; [|discriminate].
  unfold bindR, liftM.
  pose proof (drawLoop_top (Z.to_nat count)
                (drawPile s, discardPile s, []) w) as Htop.
  destruct (drawLoop _ _ w) as [[[d c] n] w1]. cbn [fst snd] in Htop.
  destruct (nth_error _ i) as [p|]; [|discriminate].
  destruct (25 <=? _)%nat.
  - intros [= H]. change s' with (fst (s', w')). rewrite <- H.
    rewrite eliminatePlayer_discardPile. exact Htop.
  - intros [= <- <-]. exact Htop.
Qed.

Lemma drawCards_keeps_top_card_witness :
  getTopCard bobDrewGame = getTopCard skipGame.
Proof.
  apply (drawCards_keeps_top_card skipGame "bob" 5 sampleEnv bobDrewGame
           (snd (drawLoop 5 (drawPile skipGame, discardPile skipGame, [])
                   sampleEnv))).
  vm_compute. reflexivity.
Defined.

Lemma drawOne_count st w :
  let '(d, c, n) := st in
  let '(d', c', n') := fst (drawOne st w) in
  length n' = (length n + Nat.min 1 (drawable d c))%nat
  /\ drawable d' c' = (drawable d c - 1)%nat
  /\ firstn (length n) n' = n.
Proof.
  destruct st as [[d c] n]. unfold drawOne, bind, drawable.
  destruct (length d =? 0)%nat eqn:Hd.
  - apply Nat.eqb_eq in Hd. destruct d; [|discriminate]. clear Hd.
    pose proof (mapM_renewId_length (removelast c) w) as Hr.
    destruct (mapM renewId (removelast c) w) as [renewed w1].
    cbn [fst] in Hr.
    pose proof (shuffleDeck_length renewed w1) as Hs.
    destruct (shuffleDeck renewed w1) as [d' w2]. cbn [fst] in Hs.
    unfold ret.
    assert (Hc : length (removelast c) = (length c - 1)%nat
                 /\ (length (match last_elem c with
                                 | Some t => [t]
                                 | None => []
                                 end) <= 1)%nat).
    { destruct (last_elem c) as [t|] eqn:Ht.
      - rewrite (last_elem_Some _ _ Ht) at 2. rewrite length_app. cbn. lia.
      - rewrite (last_elem_None _ Ht). cbn. lia. }
    destruct Hc as [Hc1 Hc2]. cbn [length] in *.
    destruct (0 <? length d')%nat eqn:Hpos.
    + apply Nat.ltb_lt in Hpos.
      destruct (last_elem d') as [x|] eqn:Hx.
      * cbn [fst]. pose proof (f_equal (@length _) (last_elem_Some _ _ Hx))
          as Hl. rewrite length_app in Hl. cbn [length] in Hl.
        rewrite length_app. cbn [length].
        repeat split; try lia. rewrite firstn_app, Nat.sub_diag.
        cbn. rewrite app_nil_r. apply firstn_all.
      * apply last_elem_None in Hx. subst d'. cbn in Hpos. lia.
    + apply Nat.ltb_ge in Hpos. cbn [fst].
      repeat split; try lia. apply firstn_all.
  - apply Nat.eqb_neq in Hd. unfold ret.
    destruct (0 <? length d)%nat eqn:Hpos;
      [|apply Nat.ltb_ge in Hpos; lia].
    destruct (last_elem d) as [x|] eqn:Hx.
    + cbn [fst]. pose proof (f_equal (@length _) (last_elem_Some _ _ Hx))
        as Hl. rewrite length_app in Hl. cbn [length] in Hl.
      rewrite length_app. cbn [length].
      repeat split; try lia. rewrite firstn_app, Nat.sub_diag.
      cbn. rewrite app_nil_r. apply firstn_all.
    + apply last_elem_None in Hx. subst d. cbn in Hd. lia.
Qed.

Lemma drawLoop_count count st w :
  let '(d, c, n) := st in
  let '(d', c', n') := fst (drawLoop count st w) in
  length n' = (length n + Nat.min count (drawable d c))%nat
  /\ firstn (length n) n' = n.
Proof.
  revert st w. induction count as [|k IH]; intros [[d c] n] w.
  - cbn. split; [lia|apply firstn_all].
  - cbn [drawLoop]. unfold bind.
    pose proof (drawOne_count (d, c, n) w) as H1. cbv beta iota in H1.
    destruct (drawOne (d, c, n) w) as [[[d1 c1] n1] w1]. cbn [fst] in H1.
    destruct H1 as (Hn1 & Hav & Hpre).
    specialize (IH (d1, c1, n1) w1). cbv beta iota in IH.
    destruct (fst (drawLoop k (d1, c1, n1) w1)) as [[d2 c2] n2].
    destruct IH as [Hn2 Hpre2]. split; [lia|].
    rewrite <- Hpre at 2. rewrite <- Hpre2.
    rewrite firstn_firstn. f_equal. lia.
Qed.


Lemma handOf_afterDraw ps playerId i p drawn :
  findIndex (has_id playerId) ps = Some i ->
  nth_error ps i = Some p ->
  find_first (has_id playerId) (afterDraw i drawn ps)
  = Some (with_hasCalledUno false (with_cards (cards p ++ drawn) p)).
Proof.
  intros Hi Hp.
  assert (Hi' : findIndex (has_id playerId) (afterDraw i drawn ps) = Some i).
  { rewrite <- Hi. apply findIndex_player_ids, afterDraw_player_ids. }
  rewrite (findIndex_find_first _ _ _ Hi').
  unfold afterDraw. rewrite mapi_nth, Hp. cbn. now rewrite Nat.eqb_refl.
Qed.



Lemma mapM_renewId_faces l w :
  map face (fst (mapM renewId l w)) = map face l.
Proof.
  revert w. induction l as [|c l IH]; intros w; [reflexivity|].
  cbn [mapM]. unfold bind at 1. unfold renewId at 1, bind at 1, uuidv4, ret at 1.
  unfold bind. specialize (IH
    {| rand_src := rand_src w; rand_pos := rand_pos w; uuid_src := uuid_src w;
       uuid_pos := S (uuid_pos w); now := now w |}).
  destruct (mapM renewId l _) as [bs w']. cbn [fst ret map] in *.
  now rewrite IH.
Qed.

Lemma pop_perm (d c n : list Card) x :
  last_elem d = Some x ->
  Permutation (removelast d ++ c ++ n ++ [x]) (d ++ c ++ n).
Proof.
  intros Hx. rewrite (last_elem_Some _ _ Hx) at 2. rewrite <- !app_assoc.
  apply Permutation_app_head. cbn [app].
  rewrite app_assoc. apply Permutation_sym, Permutation_cons_append.
Qed.

Lemma drawOne_faces st w :
  let '(d, c, n) := st in
  let '(d', c', n') := fst (drawOne st w) in
  Permutation (map face (d' ++ c' ++ n')) (map face (d ++ c ++ n)).
Proof.
  destruct st as [[d c] n]. unfold drawOne, bind.
  destruct (length d =? 0)%nat eqn:Hd.
  - apply Nat.eqb_eq in Hd. destruct d; [|discriminate]. clear Hd.
    pose proof (mapM_renewId_faces (removelast c) w) as Hr.
    destruct (mapM renewId (removelast c) w) as [renewed w1].
    cbn [fst] in Hr.
    pose proof (shuffleDeck_perm renewed w1) as Hs.
    destruct (shuffleDeck renewed w1) as [d' w2]. cbn [fst] in Hs.
    unfold ret.
    set (top := match last_elem c with
                | Some t => [t]
                | None => []
                end).
    assert (Hmid : Permutation (map face (d' ++ top ++ n))
                     (map face ([] ++ c ++ n))).
    { cbn [app]. rewrite !map_app, app_assoc.
      apply Permutation_app_tail.
      apply Permutation_trans
        with (map face (removelast c) ++ map face top).
      - apply Permutation_app_tail. rewrite <- Hr.
        apply Permutation_map. exact Hs.
      - rewrite <- map_app. subst top.
        destruct (last_elem c) as [t|] eqn:Ht.
        + rewrite <- (last_elem_Some _ _ Ht). reflexivity.
        + rewrite (last_elem_None _ Ht). reflexivity. }
    destruct (0 <? length d')%nat; [|exact Hmid].
    destruct (last_elem d') as [x|] eqn:Hx; [|exact Hmid]. cbn [fst].
    eapply Permutation_trans; [|exact Hmid].
    apply Permutation_map, pop_perm, Hx.
  - unfold ret. destruct (0 <? length d)%nat; [|cbn [fst]; reflexivity].
    destruct (last_elem d) as [x|] eqn:Hx; cbn [fst]; [|reflexivity].
    apply Permutation_map, pop_perm, Hx.
Qed.

Lemma drawLoop_faces count st w :
  let '(d, c, n) := st in
  let '(d', c', n') := fst (drawLoop count st w) in
  Permutation (map face (d' ++ c' ++ n')) (map face (d ++ c ++ n)).
Proof.
  revert st w. induction count as [|k IH]; intros [[d c] n] w.
  - cbn [drawLoop]. unfold ret. cbn [fst]. reflexivity.
  - cbn [drawLoop]. unfold bind.
    pose proof (drawOne_faces (d, c, n) w) as H1. cbv beta iota in H1.
    destruct (drawOne (d, c, n) w) as [[[d1 c1] n1] w1]. cbn [fst] in H1.
    specialize (IH (d1, c1, n1) w1). cbv beta iota in IH.
    destruct (fst (drawLoop k (d1, c1, n1) w1)) as [[d2 c2] n2].
    eapply Permutation_trans; [exact IH|exact H1].
Qed.

Lemma concat_afterDraw ps i drawn p :
  nth_error ps i = Some p ->
  Permutation (concat (map cards (afterDraw i drawn ps)))
    (concat (map cards ps) ++ drawn).
Proof.
  intros Hp. rewrite (afterDraw_split _ _ _ _ Hp).
  rewrite (nth_error_split_at _ _ _ Hp) at 3.
  rewrite !map_app, !concat_app. cbn [map concat cards with_cards
                                       with_hasCalledUno].
  rewrite <- !app_assoc. apply Permutation_app_head.
  apply Permutation_app_head. apply Permutation_app_comm.
Qed.

(** X21: a draw conserves the cards.  With distinct player ids, the
    faces (type, colour, value) of all the cards of the state, hands and
    piles together, are after [drawCards] a permutation of what they were
    before: a reshuffle renews identifiers but loses and invents no
    card, and an eliminated hand goes back to the draw pile whole. *)
Theorem drawCards_conserves_faces :
  forall s playerId count w s' w',
    distinct (map player_id (players s)) = true ->
    drawCards s playerId count w = Ok (s', w') ->
    Permutation (map face (allCards s')) (map face (allCards s)).
Proof.
  intros s playerId count w s' w' Hd Hdraw.
  assert (Hfind : exists i, findIndex (has_id playerId) (players s) = Some i).
  { unfold drawCards in Hdraw.
    destruct (findIndex (has_id playerId) (players s)); [eauto|discriminate]. }
  destruct Hfind as [i Hi].
  destruct (findIndex_Some _ _ _ Hi) as (p & Hp & _).
  pose proof (drawLoop_faces (Z.to_nat count)
                (drawPile s, discardPile s, []) w) as Hfaces.
  cbv beta iota in Hfaces.
  destruct (drawLoop (Z.to_nat count) (drawPile s, discardPile s, []) w)
    as [[[d c] n] w1] eqn:Hloop. cbn [fst] in Hfaces.
  rewrite app_nil_r in Hfaces.
  rewrite (drawCards_found _ _ _ _ _ _ _ _ _ _ Hi Hp Hloop) in Hdraw.
  set (t := with_discardPile c (with_drawPile d
              (with_players (afterDraw i n (players s)) s))) in *.
  assert (Ht : Permutation (map face (allCards t)) (map face (allCards s))).
  { unfold allCards.
    cbn [players drawPile discardPile t with_discardPile with_drawPile
         with_players].
    eapply Permutation_trans.
    { apply Permutation_map, Permutation_app_tail.
      exact (concat_afterDraw _ _ n _ Hp). }
    rewrite <- app_assoc. rewrite !map_app in Hfaces. rewrite !map_app.
    apply Permutation_app_head.
    eapply Permutation_trans; [|exact Hfaces].
    rewrite (app_assoc (map face d)).
    apply Permutation_app_comm. }
  destruct (25 <=? length (cards p ++ n))%nat.
  - injection Hdraw as Hel.
    assert (Hi' : findIndex (has_id playerId) (players t) = Some i).
    { cbn. rewrite <- Hi. apply findIndex_player_ids, afterDraw_player_ids. }
    assert (Hp' : nth_error (players t) i
                  = Some (with_hasCalledUno false
                            (with_cards (cards p ++ n) p))).
    { cbn. unfold afterDraw. rewrite mapi_nth, Hp. cbn.
      now rewrite Nat.eqb_refl. }
    assert (Hd' : distinct (map player_id (players t)) = true).
    { cbn. now rewrite afterDraw_player_ids. }
    pose proof (eliminatePlayer_found t playerId i _ w1 Hi' Hp') as Hfound.
    cbv zeta in Hfound. rewrite Hel in Hfound. cbn [fst] in Hfound.
    destruct Hfound as (Hpl & Hperm & Hdisc & _).
    rewrite (remaining_players _ _ _ Hd' Hi') in Hpl.
    eapply Permutation_trans; [|exact Ht].
    apply Permutation_map. unfold allCards. rewrite Hpl, Hdisc.
    rewrite (nth_error_split_at _ _ _ Hp') at 3.
    rewrite !map_app, !concat_app. cbn [map concat].
    rewrite <- !app_assoc. apply Permutation_app_head.
    rewrite (Permutation_app_tail _ Hperm).
    set (hand := cards (with_hasCalledUno false (with_cards (cards p ++ n) p))).
    set (rest := concat (map cards (skipn (S i) (players t)))).
    rewrite <- !app_assoc.
    rewrite (app_assoc rest), (app_assoc hand).
    rewrite (app_assoc (rest ++ drawPile t)), (app_assoc (hand ++ rest)).
    apply Permutation_app_tail.
    rewrite (Permutation_app_comm (rest ++ drawPile t) hand).
    now rewrite app_assoc.
  - injection Hdraw as <- <-. exact Ht.
Qed.

Lemma drawCards_conserves_faces_witness :
  exists s' w',
    drawCards crowdedGame "alice" 1 sampleEnv = Ok (s', w')
    /\ Permutation (map face (allCards s')) (map face (allCards crowdedGame)).
Proof.
  destruct (drawCards crowdedGame "alice" 1 sampleEnv) as [[s' w']|] eqn:E;
    [|vm_compute in E; discriminate E].
  exists s', w'. split; [reflexivity|].
  apply (drawCards_conserves_faces crowdedGame "alice" 1 sampleEnv s' w');
    [reflexivity|exact E].
Defined.

(** ** Elimination *)

Lemma nth_error_remove_at {A} (l : list A) i k :
  i <> k ->
  nth_error (firstn i l ++ skipn (S i) l) (if (k <? i)%nat then k else k - 1)
  = nth_error l k.
Proof.
  revert i k. induction l as [|a l IH]; intros i k H.
  - rewrite firstn_nil, skipn_nil. cbn [app].
    destruct (k <? i)%nat; [now destruct k|now destruct (k - 1)%nat, k].
  - destruct i as [|i], k as [|k]; [congruence| | |].
    + change (S k <? 0)%nat with false. cbn [firstn skipn app].
      replace (S k - 1)%nat with k by lia. reflexivity.
    + reflexivity.
    + assert (Hik : i <> k) by congruence. specialize (IH i k Hik).
      cbn [firstn skipn app] in *.
      change (S k <? S i)%nat with (k <? i)%nat.
      destruct (Nat.ltb_spec k i) as [Hlt|Hge]; [exact IH|].
      destruct k as [|k]; [lia|].
      replace (S (S k) - 1)%nat with (S (S k - 1)) by lia. exact IH.
Qed.

(** X22: an elimination leaves the turn where it was.  With distinct
    player ids, when [eliminatePlayer] removes a player other than the
    current one (or finds nobody to remove), the current player of the
    state it returns is the same player as before, whether the game goes
    on or this player is the last one left. *)
Theorem eliminatePlayer_keeps_turn :
  forall s playerId w cur,
    distinct (map player_id (players s)) = true ->
    getCurrentPlayer s = Some cur ->
    player_id cur <> playerId ->
    getCurrentPlayer (fst (eliminatePlayer s playerId w)) = Some cur.
Proof.
  intros s playerId w cur Hd Hcur Hother.
  destruct (findIndex (has_id playerId) (players s)) as [i|] eqn:Hi.
  2:{ unfold eliminatePlayer. rewrite Hi. exact Hcur. }
  destruct (findIndex_Some _ _ _ Hi) as (p & Hp & Hid & _).
  destruct (eliminatePlayer_found s playerId i p w Hi Hp)
    as (Hpl & _ & _ & Hidx & _).
  rewrite (remaining_players _ _ _ Hd Hi) in Hpl, Hidx.
  unfold getCurrentPlayer in *. rewrite Hpl, Hidx. clear Hpl Hidx.
  destruct (currentPlayerIndex s) as [z|]; [|discriminate].
  cbn [at_index] in Hcur. destruct (Z.ltb_spec z 0) as [|Hz]; [discriminate|].
  assert (Hne : i <> Z.to_nat z).
  { intros ->. rewrite Hp in Hcur. injection Hcur as ->.
    apply Hother. now apply String.eqb_eq. }
  pose proof (nth_error_remove_at (players s) i (Z.to_nat z) Hne) as Hrem.
  rewrite Hcur in Hrem.
  assert (Hlen : ((if (Z.to_nat z <? i)%nat then Z.to_nat z
                   else Z.to_nat z - 1)
                  < length (firstn i (players s) ++ skipn (S i) (players s)))%nat).
  { apply nth_error_Some. now rewrite Hrem. }
  destruct (Nat.eqb_spec
              (length (firstn i (players s) ++ skipn (S i) (players s))) 1)
    as [Hone|_].
  - rewrite Hone in Hlen. cbn [at_index Z.ltb Z.compare Z.to_nat].
    replace (if (Z.to_nat z <? i)%nat then Z.to_nat z else (Z.to_nat z - 1)%nat)
      with O in Hrem by lia.
    exact Hrem.
  - cbn [lt_index eq_index js_add].
    destruct (Z.ltb_spec (Z.of_nat i) z) as [Hlt|Hge].
    + cbn [at_index]. destruct (Z.ltb_spec (z + -1) 0) as [|_]; [lia|].
      destruct (Nat.ltb_spec (Z.to_nat z) i) as [|_]; [lia|].
      replace (Z.to_nat (z + -1)) with (Z.to_nat z - 1)%nat by lia.
      exact Hrem.
    + destruct (Z.eqb_spec (Z.of_nat i) z) as [|_]; [lia|].
      cbn [at_index]. destruct (Z.ltb_spec z 0) as [|_]; [lia|].
      destruct (Nat.ltb_spec (Z.to_nat z) i) as [_|]; [|lia].
      exact Hrem.
Qed.

Lemma eliminatePlayer_keeps_turn_witness :
  exists cur,
    getCurrentPlayer penaltyGame = Some cur
    /\ getCurrentPlayer (fst (eliminatePlayer penaltyGame "bob" sampleEnv))
       = Some cur.
Proof.
  eexists. split; [vm_compute; reflexivity|].
  apply (eliminatePlayer_keeps_turn penaltyGame "bob" sampleEnv);
    [reflexivity|reflexivity|].
  intros H. vm_compute in H. discriminate H.
Defined.

(** ** Paying a penalty *)



(** ** Decisions of the automated player *)

(** X24: the automated player proposes only legal plays.  Whenever the
    player is in the roster and holds a card that [canPlayCard]
    accepts, [makeAIDecision], at every difficulty, decides on a card
    of the hand of this player that [canPlayCard] accepts, never on a
    draw; with two cards in hand the decision carries the declaration. *)
Theorem makeAIDecision_plays_legal :
  forall s playerId difficulty player held w,
    find_first (has_id playerId) (players s) = Some player ->
    In held (cards player) ->
    canPlayCard s held playerId = Ok true ->
    exists decision w' card,
      makeAIDecision s playerId difficulty w = Ok (decision, w')
      /\ action decision <> draw
      /\ decision_card decision = Some card
      /\ In card (cards player)
      /\ canPlayCard s card playerId = Ok true
      /\ (length (cards player) = 2%nat -> action decision = call_uno).
Proof.
  intros s playerId difficulty player held w Hfind Hin Hheld.
  pose proof (canPlayCard_defined _ _ _ _ Hheld) as Hdef.
  assert (Hplay : exists l,
             filterR (fun card => canPlayCard s card playerId) (cards player)
             = Ok l).
  { generalize (cards player). intros l.
    induction l as [|x l [r IH]]; [now exists []|].
    cbn [filterR]. rewrite Hdef, IH. cbn [bindRes]. eauto. }
  destruct Hplay as [l Hl].
  assert (Hget : getPlayableCards s playerId = Ok l).
  { unfold getPlayableCards. now rewrite Hfind. }
  pose proof (filterR_Ok _ _ _ Hl) as Hiff.
  assert (Hne : l <> []).
  { intros ->. apply (Hiff held). now split. }
  destruct (makeAIDecision_legal s playerId difficulty player l w
              Hfind Hget Hne)
    as (decision & w' & Hrun & Hact & (card & Hcard & Hcin) & Huno).
  exists decision, w', card. apply Hiff in Hcin as [Hc1 Hc2].
  repeat (split; [assumption|]). exact Huno.
Qed.

Lemma makeAIDecision_plays_legal_witness :
  exists decision w' card,
    makeAIDecision discardAllGame "alice" hard sampleEnv = Ok (decision, w')
    /\ action decision <> draw
    /\ decision_card decision = Some card
    /\ In card [redDiscardAll; red5; red7; blue9]
    /\ canPlayCard discardAllGame card "alice" = Ok true
    /\ (length [redDiscardAll; red5; red7; blue9] = 2%nat ->
        action decision = call_uno).
Proof.
  apply (makeAIDecision_plays_legal discardAllGame "alice" hard
           (seat "alice" [redDiscardAll; red5; red7; blue9]) red5 sampleEnv);
    [reflexivity|right; left; reflexivity|reflexivity].
Defined.

Lemma selectBestColor_counts cs w color :
  is_wild_color (fst (selectBestColor cs w)) = false
  /\ (is_wild_color color = false ->
      (countColors cs color <= countColors cs (fst (selectBestColor cs w)))%nat).
Proof.
  unfold selectBestColor. cbn [fold_left].
  generalize (countColors cs). intros counts.
  destruct (Nat.ltb_spec 0 (counts red)) as [Hr|Hr];
    [destruct (Nat.ltb_spec (counts red) (counts blue)) as [Hb|Hb]
    |destruct (Nat.ltb_spec 0 (counts blue)) as [Hb|Hb]];
    match goal with
    | |- context [(counts ?a <? counts green)%nat] =>
        destruct (Nat.ltb_spec (counts a) (counts green)) as [Hg|Hg]
    | |- context [(0 <? counts green)%nat] =>
        destruct (Nat.ltb_spec 0 (counts green)) as [Hg|Hg]
    end;
    match goal with
    | |- context [(counts ?a <? counts yellow)%nat] =>
        destruct (Nat.ltb_spec (counts a) (counts yellow)) as [Hy|Hy]
    | |- context [(0 <? counts yellow)%nat] =>
        destruct (Nat.ltb_spec 0 (counts yellow)) as [Hy|Hy]
    end;
    match goal with
    | |- context [(counts ?a =? 0)%nat] =>
        destruct (Nat.eqb_spec (counts a) 0) as [Hz|Hz]
    | |- _ => idtac
    end;
    try lia;
    try (cbn [fst ret]; split; [reflexivity|];
         destruct color; intros Hw; try discriminate Hw; lia).
  all: unfold bind, ret; cbn [length Nat.eqb]; cbv beta.
  all: destruct (randomBelow 4 w) as [a w']; cbn [fst].
  all: split;
    [|destruct color; intros Hw; try discriminate Hw; lia].
  all: destruct a as [|[|[|[|[|k]]]]]; reflexivity.
Qed.

(** X25: the colour the automated player names.  [selectBestColor]
    never returns the colourless ['wild'], and none of the four colours
    is held more often in the given cards than the colour it returns. *)
Theorem selectBestColor_most_held :
  forall cs w color,
    is_wild_color (fst (selectBestColor cs w)) = false
    /\ (is_wild_color color = false ->
        (countColors cs color <= countColors cs (fst (selectBestColor cs w)))%nat).
Proof. intros cs w color. apply selectBestColor_counts. Qed.

(** ** Room codes *)

Lemma get_In s i a :
  String.get i s = Some a -> In a (list_ascii_of_string s).
Proof.
  revert i. induction s as [|b s IH]; intros i; [discriminate|].
  destruct i as [|i]; cbn [String.get list_ascii_of_string].
  - intros [= ->]. now left.
  - intros H. right. exact (IH i H).
Qed.

Lemma selectBestColor_most_held_witness :
  is_wild_color (fst (selectBestColor [red5; blue5; blue9] sampleEnv)) = false
  /\ (countColors [red5; blue5; blue9] red
      <= countColors [red5; blue5; blue9]
           (fst (selectBestColor [red5; blue5; blue9] sampleEnv)))%nat.
Proof.
  destruct (selectBestColor_most_held [red5; blue5; blue9] sampleEnv red)
    as [Hcol Hmost].
  split; [exact Hcol|apply Hmost; reflexivity].
Defined.

Lemma get_lt s i :
  (i < String.length s)%nat -> exists a, String.get i s = Some a.
Proof.
  revert i. induction s as [|b s IH]; intros i; cbn [String.length]; [lia|].
  destruct i as [|i]; cbn [String.get]; [eauto|].
  intros H. apply IH. lia.
Qed.

Lemma chars_append a b :
  list_ascii_of_string (String.append a b)
  = list_ascii_of_string a ++ list_ascii_of_string b.
Proof.
  induction a as [|x a IH]; [reflexivity|].
  cbn [String.append list_ascii_of_string app]. now rewrite IH.
Qed.

Lemma chars_length s : length (list_ascii_of_string s) = String.length s.
Proof.
  induction s as [|x s IH]; [reflexivity|].
  cbn [list_ascii_of_string length String.length]. now rewrite IH.
Qed.

Lemma roomCode_loop (l : list nat) code w :
  let code' :=
    fst (foldM (fun (_ : nat) code =>
                  idx <- randomBelow (String.length roomChars) ;;
                  ret (String.append code (charAt roomChars idx)))
           l code w) in
  String.length code' = (String.length code + length l)%nat
  /\ forall a, In a (list_ascii_of_string code') ->
       In a (list_ascii_of_string code)
       \/ In a (list_ascii_of_string roomChars).
Proof.
  cbv zeta.
  match goal with |- context [foldM ?f _ _ _] => set (F := f) end.
  revert code w. induction l as [|k l IH]; intros code w.
  - cbn [foldM]. unfold ret. cbn [fst length]. split; [lia|now left].
  - assert (Hlt : (fst (randomBelow (String.length roomChars) w)
                   < String.length roomChars)%nat).
    { apply randomBelow_lt. vm_compute. lia. }
    assert (Hstep :
              foldM F (k :: l) code w
              = foldM F l
                  (String.append code
                     (charAt roomChars
                        (fst (randomBelow (String.length roomChars) w))))
                  (snd (randomBelow (String.length roomChars) w))).
    { cbn [foldM]. unfold bind at 1. unfold F at 1. unfold bind at 1.
      destruct (randomBelow (String.length roomChars) w) as [idx w1].
      reflexivity. }
    rewrite Hstep. clear Hstep.
    destruct (randomBelow (String.length roomChars) w) as [idx w1].
    cbn [fst snd] in *. destruct (get_lt _ _ Hlt) as [a Ha].
    specialize (IH (String.append code (charAt roomChars idx)) w1).
    destruct IH as [IHlen IHin]. split.
    + rewrite IHlen, <- !chars_length, chars_append, length_app.
      unfold charAt. rewrite Ha. cbn [list_ascii_of_string length]. lia.
    + intros b Hb. destruct (IHin b Hb) as [Hc|Hc]; [|now right].
      rewrite chars_append in Hc. apply in_app_or in Hc as [Hc|Hc];
        [now left|right].
      unfold charAt in Hc. rewrite Ha in Hc.
      destruct Hc as [<-|[]]. exact (get_In _ _ _ Ha).
Qed.

(** X26: the shape of a room code.  Whatever the random numbers,
    [generateRoomCode] returns six characters, each of them one of the
    32 characters of its alphabet, which has no [I], [O], [0] or [1]. *)
Theorem generateRoomCode_shape :
  forall w,
    String.length (fst (generateRoomCode w)) = 6%nat
    /\ (forall a, In a (list_ascii_of_string (fst (generateRoomCode w))) ->
          In a (list_ascii_of_string roomChars))
    /\ forallb (fun a => negb (existsb (Ascii.eqb a)
                                 (list_ascii_of_string roomChars)))
         (list_ascii_of_string "IO01") = true.
Proof.
  intros w. destruct (roomCode_loop (seq 0 6) EmptyString w) as [Hlen Hin].
  split; [exact Hlen|]. split; [|reflexivity].
  intros a Ha. destruct (Hin a Ha) as [[]|H]. exact H.
Qed.

Lemma generateRoomCode_shape_witness :
  String.length (fst (generateRoomCode sampleEnv)) = 6%nat
  /\ match list_ascii_of_string (fst (generateRoomCode sampleEnv)) with
     | a :: _ => In a (list_ascii_of_string roomChars)
     | [] => True
     end.
Proof.
  destruct (generateRoomCode_shape sampleEnv) as (Hlen & Hin & _).
  split; [exact Hlen|].
  destruct (list_ascii_of_string (fst (generateRoomCode sampleEnv)));
    [exact I|apply Hin; left; reflexivity].
Defined.

(** ** Cards that go together *)

Lemma value_eqb_eq a b : value_eqb a b = true <-> a = b.
Proof.
  destruct a as [x|], b as [y|]; cbn [value_eqb]; split; try discriminate;
    try reflexivity.
  - intros H. apply Z.eqb_eq in H. now subst.
  - intros [= ->]. apply Z.eqb_refl.
Qed.

Lemma someR_In {A} (q : A -> Result bool) (b : A -> bool) l x :
  (forall c, q c = Ok (b c)) -> In x l -> q x = Ok true ->
  someR q l = Ok true.
Proof.
  intros Hdef Hin Hx. induction l as [|y l IH]; [contradiction|].
  cbn [someR]. rewrite Hdef. cbn [bindRes].
  destruct (b y) eqn:Hy; [reflexivity|].
  destruct Hin as [->|Hin]; [|exact (IH Hin)].
  rewrite Hdef in Hx. congruence.
Qed.

(** X27: the cards offered to go with a card can be played with it.
    For a card of the given cards that [canPlayCard] accepts, the list
    [getStackableCards] returns, the card itself or all the number
    cards of its value, is accepted by [canPlayMultipleCards]. *)
Theorem getStackableCards_accepted :
  forall s cs card playerId,
    In card cs ->
    canPlayCard s card playerId = Ok true ->
    In card (getStackableCards cs card)
    /\ canPlayMultipleCards s (getStackableCards cs card) playerId = Ok true.
Proof.
  intros s cs card playerId Hin Hheld. unfold getStackableCards.
  destruct (type_eqb_spec (card_type card) number) as [Ht|Ht]; cbn [negb].
  2:{ split; [now left|exact Hheld]. }
  set (q := fun c : Card =>
              type_eqb (card_type c) number
              && value_eqb (card_value c) (card_value card)).
  assert (Hq : forall c, q c = true <->
                 card_type c = number /\ card_value c = card_value card).
  { intros c. unfold q. rewrite andb_true_iff, value_eqb_eq.
    now destruct (type_eqb_spec (card_type c) number). }
  assert (Hcard : In card (filter q cs)).
  { apply filter_In. split; [exact Hin|]. now apply Hq. }
  split; [exact Hcard|].
  assert (Hall : forall c, In c (filter q cs) -> q c = true).
  { intros c Hc. now apply filter_In in Hc. }
  unfold canPlayMultipleCards.
  destruct (filter q cs) as [|c0 [|c1 r]] eqn:Hl; [contradiction| |].
  - destruct Hcard as [->|[]]. exact Hheld.
  - assert (H0 : q c0 = true) by (apply Hall; now left).
    apply Hq in H0 as [Ht0 Hv0].
    destruct (type_eqb_spec (card_type c0) number); [|contradiction].
    cbn [negb].
    assert (Hevery : forallb
                       (fun c => type_eqb (card_type c) number
                                 && value_eqb (card_value c) (card_value c0))
                       (c0 :: c1 :: r) = true).
    { apply forallb_forall. intros c Hc. apply Hall, Hq in Hc as [Htc Hvc].
      rewrite Htc, Hvc, Hv0. cbn [type_eqb andb].
      now apply value_eqb_eq. }
    rewrite Hevery. cbn [negb].
    exact (someR_In _ _ _ _ (canPlayCard_defined _ _ _ _ Hheld) Hcard Hheld).
Qed.

Lemma getStackableCards_accepted_witness :
  In red5 (getStackableCards [red5; blue5; green3] red5)
  /\ canPlayMultipleCards fivesGame
       (getStackableCards [red5; blue5; green3] red5) "alice" = Ok true.
Proof.
  apply (getStackableCards_accepted fivesGame [red5; blue5; green3] red5
           "alice"); [left; reflexivity|vm_compute; reflexivity].
Defined.

(** X28: the automated player names a colour for a colourless card.
    When the decision of [makeAIDecision] carries a card that is not a
    discard_all, it carries a selected colour exactly when the card is
    colourless, and that colour is one of the four colours, never
    ['wild']. *)
Theorem makeAIDecision_names_colour :
  forall s playerId difficulty w decision w' c,
    makeAIDecision s playerId difficulty w = Ok (decision, w') ->
    decision_card decision = Some c ->
    card_type c <> discard_all ->
    if is_wild_color (card_color c)
    then exists col,
           selectedColor decision = Some col /\ is_wild_color col = false
    else selectedColor decision = None.
Proof.
  assert (Hsel : forall s player l difficulty w decision w' c,
            selectCardToPlay s player l difficulty w = Ok (decision, w') ->
            decision_card decision = Some c ->
            card_type c <> discard_all ->
            if is_wild_color (card_color c)
            then exists col,
                   selectedColor decision = Some col
                   /\ is_wild_color col = false
            else selectedColor decision = None).
  { intros s player l difficulty w decision w' c. unfold selectCardToPlay.
    destruct ((0 <? length (filter _ l))%nat && _ && _).
    - unfold retR. intros [= <- <-]. cbn [decision_card]. intros Hc Hty.
      exfalso.
      apply (nth_error_In
               (filter (fun c => type_eqb (card_type c) discard_all) l) 0)
        in Hc.
      apply filter_In in Hc as [_ Hc].
      now destruct (type_eqb_spec (card_type c) discard_all).
    - unfold bindR at 1.
      match goal with
      | |- match ?x with Ok _ => _ | Throw _ => _ end = _ -> _ =>
          destruct x as [[[c0|] w1]|]; try discriminate
      end.
      unfold is_wild_color.
      destruct (color_eqb (card_color c0) wild_color) eqn:Hw.
      + unfold bindR, liftM, retR.
        pose proof (selectBestColor_counts (cards player) w1 red) as [Hcol _].
        destruct (selectBestColor (cards player) w1) as [col w2].
        cbn [fst] in Hcol.
        intros [= <- <-]. cbn [decision_card selectedColor].
        intros [= <-] _. rewrite Hw. eauto.
      + unfold retR. intros [= <- <-]. cbn [decision_card selectedColor].
        intros [= <-] _. now rewrite Hw. }
  intros s playerId difficulty w decision w' c. unfold makeAIDecision.
  destruct (find_first (has_id playerId) (players s)) as [player|].
  2:{ unfold retR. intros [= <- <-]. discriminate. }
  unfold bindR at 1, liftR.
  destruct (getPlayableCards s playerId) as [l|]; [|discriminate].
  cbn [bindRes]. destruct (length l =? 0)%nat.
  { unfold retR. intros [= <- <-]. discriminate. }
  destruct ((length (cards player) =? 2)%nat && (0 <? length l)%nat).
  - unfold bindR, retR.
    destruct (selectCardToPlay s player l difficulty w) as [[d w1]|] eqn:Hd;
      [|discriminate].
    intros [= <- <-]. cbn [decision_card selectedColor].
    exact (Hsel _ _ _ _ _ _ _ c Hd).
  - exact (Hsel _ _ _ _ _ _ _ c).
Qed.

Lemma makeAIDecision_names_colour_witness :
  exists col,
    selectedColor (mkDecision play (Some plainWild) None (Some blue))
    = Some col
    /\ is_wild_color col = false.
Proof.
  apply (makeAIDecision_names_colour wildHandGame "alice" medium sampleEnv
           (mkDecision play (Some plainWild) None (Some blue)) sampleEnv
           plainWild); [reflexivity|reflexivity|discriminate].
Defined.

(** ** Challenges *)

(** X29: what a challenge costs.  A [challengeUno] that succeeds was
    made against a player who held exactly one card and had not
    declared it; it appends four cards to that hand, or fewer when the
    draw pile and the discard pile below its top card together hold
    fewer, and it eliminates nobody. *)
Theorem challengeUno_penalty :
  forall s challengerId targetId w s' w',
    challengeUno s challengerId targetId w = Ok (s', w') ->
    exists target card drawn,
      find_first (has_id targetId) (players s) = Some target
      /\ cards target = [card]
      /\ hasCalledUno target = false
      /\ handOf s' targetId = Some (card :: drawn)
      /\ length drawn = Nat.min 4 (drawable (drawPile s) (discardPile s))
      /\ map player_id (players s') = map player_id (players s).
Proof.
  intros s challengerId targetId w s' w'. unfold challengeUno.
  destruct (findIndex (has_id targetId) (players s)) as [i|] eqn:Hi;
    [|discriminate].
  destruct (nth_error (players s) i) as [p|] eqn:Hp; [|discriminate].
  destruct (Nat.eqb_spec (length (cards p)) 1) as [Hone|]; [|discriminate].
  cbn [negb orb]. destruct (hasCalledUno p) eqn:Hcalled; [discriminate|].
  intros Hdraw.
  destruct (cards p) as [|card [|]] eqn:Hcards; try discriminate Hone.
  pose proof (drawLoop_count (Z.to_nat 4)
                (drawPile s, discardPile s, []) w) as Hcount.
  cbv beta iota in Hcount.
  destruct (drawLoop (Z.to_nat 4) (drawPile s, discardPile s, []) w)
    as [[[d c] n] w1] eqn:Hloop. cbn [fst length] in Hcount.
  destruct Hcount as [Hn _].
  rewrite (drawCards_found _ _ _ _ _ _ _ _ _ _ Hi Hp Hloop) in Hdraw.
  rewrite Hcards in Hdraw.
  destruct (Nat.leb_spec 25 (length ([card] ++ n))) as [Hbig|_].
  { cbn [app length] in Hbig. change (Z.to_nat 4) with 4%nat in Hn. lia. }
  injection Hdraw as <- <-. exists p, card, n.
  split; [rewrite (findIndex_find_first _ _ _ Hi); exact Hp|].
  split; [exact Hcards|]. split; [exact Hcalled|].
  unfold handOf. cbn.
  rewrite (handOf_afterDraw _ _ _ _ _ Hi Hp). cbn. rewrite Hcards.
  split; [reflexivity|]. split; [exact Hn|apply afterDraw_player_ids].
Qed.

Lemma challengeUno_penalty_witness :
  exists s' w' target card drawn,
    challengeUno undeclaredGame "alice" "bob" sampleEnv = Ok (s', w')
    /\ find_first (has_id "bob") (players undeclaredGame) = Some target
    /\ cards target = [card]
    /\ hasCalledUno target = false
    /\ handOf s' "bob" = Some (card :: drawn)
    /\ length drawn
       = Nat.min 4 (drawable (drawPile undeclaredGame)
                      (discardPile undeclaredGame))
    /\ map player_id (players s') = map player_id (players undeclaredGame).
Proof.
  destruct (challengeUno undeclaredGame "alice" "bob" sampleEnv)
    as [[s' w']|] eqn:E; [|vm_compute in E; discriminate E].
  destruct (challengeUno_penalty undeclaredGame "alice" "bob" sampleEnv
              s' w' E) as (target & card & drawn & H).
  exists s', w', target, card, drawn. split; [reflexivity|exact H].
Defined.
